(** * GOML: a shallow embedding of the model / weight core

    The Go package [pkg/goml] is embedded function by function.

    - A Go [interface{}] value is the tagged union [value]; every type switch
      of the source becomes a [match] over it.
    - [float64] is modelled by the real numbers [R] (exact arithmetic: no
      rounding, no NaN, no infinities); [float64(n)] for an [int] is [IZR n].
    - [map[string]T] is [gmap string T].  Go leaves the iteration order of a
      [range] over a map unspecified: every loop over a map goes through the
      section variable [range], which enumerates the entries of a map in
      some order; only [range_perm] is ever assumed about it.
    - A nil map in a struct field is [None]; reading it behaves like the
      empty map, writing to it panics.
    - Trainers mutate the weight store and the descriptor in place; here they
      return the new store and descriptor next to the Go [error].  A run
      that panics or does not return is an [outcome] of its own.
    - The routines of [fmt] that format and scan numbers are section
      variables; [math.Exp] and [math.Log] are [exp] and [ln].
    - Logging ([fmt.Printf]) and the JSON snapshots ([encoding/json]) are not
      modelled. *)

From Stdlib Require Import Reals Lra ZArith Ascii String.
From stdpp Require Import gmap strings list fin_maps pretty.

Local Open Scope string_scope.

(** ** Dynamic values *)

Inductive value : Type :=
  | VFloat64 (x : R)
  | VFloat32 (x : R)
  | VInt (n : Z)
  | VInt64 (n : Z)
  | VInt32 (n : Z)
  | VBool (b : bool)
  | VString (s : string)
  | VProbs (m : gmap string R)
  | VNil.

(** Comparisons of [float64] values used in conditions. *)

Definition Req_b (x y : R) : bool := if Req_dec_T x y then true else false.
Definition Rgt_b (x y : R) : bool := if Rlt_dec y x then true else false.
Definition Rlt_b (x y : R) : bool := if Rlt_dec x y then true else false.
Definition Rge_b (x y : R) : bool := if Rle_dec y x then true else false.

(** ** utils.go *)

Definition ConvertToFloat64 (val : value) (oneHotKey : string) : R * bool :=
  match val with
  | VFloat64 v => (v, true)
  | VFloat32 v => (v, true)
  | VInt v => (IZR v, true)
  | VInt64 v => (IZR v, true)
  | VInt32 v => (IZR v, true)
  | VBool v => if v then (1%R, true) else (0%R, true)
  | VString v => if String.eqb v oneHotKey then (1%R, true) else (0%R, true)
  | _ => (0%R, false)
  end.

Definition IsSupportedNumericType (val : value) : bool :=
  match val with
  | VInt _ | VInt32 _ | VInt64 _ | VFloat32 _ | VFloat64 _ => true
  | _ => false
  end.

Definition IsSupportedBooleanType (val : value) : bool :=
  match val with VBool _ => true | _ => false end.

Definition ConvertToBool (val : value) : bool * bool :=
  match val with
  | VBool v => (v, true)
  | VInt v => (negb (v =? 0)%Z, true)
  | VFloat64 v => (negb (Req_b v 0), true)
  | VString v =>
      (String.eqb v "true" || String.eqb v "yes" || String.eqb v "1", true)
  | _ => (false, false)
  end.

(** ** weights.go *)

Record Weights := { Values : option (gmap string value) }.

Definition values_of (w : Weights) : gmap string value := default ∅ (Values w).

Definition Get (w : Weights) (key : string) : option value := values_of w !! key.

(** [GetFloat] returns the Go pair (value, ok). *)
Definition GetFloat (w : Weights) (key : string) : R * bool :=
  match values_of w !! key with
  | None => (0%R, false)
  | Some (VFloat64 v) => (v, true)
  | Some (VInt v) => (IZR v, true)
  | Some (VInt64 v) => (IZR v, true)
  | Some _ => (0%R, false)
  end.

(** ** Outcomes of a call *)

Inductive outcome (A : Type) : Type :=
  | Returns (a : A)
  | Panics
  | Diverges.
Arguments Returns {A} a.
Arguments Panics {A}.
Arguments Diverges {A}.

Definition obind {A B} (c : outcome A) (k : A → outcome B) : outcome B :=
  match c with
  | Returns a => k a
  | Panics => Panics
  | Diverges => Diverges
  end.

Notation "'let*' x := c 'in' k" := (obind c (λ x, k))
  (at level 10, x pattern, c at level 100, k at level 200).

(** Monadic left fold: the body of a [for] loop run over a list. *)
Fixpoint ofold {A S} (f : S → A → outcome S) (s : S) (l : list A) : outcome S :=
  match l with
  | [] => Returns s
  | a :: l' => let* s' := f s a in ofold f s' l'
  end.

(** [w.Values[key] = value]: assignment to an entry of a nil map panics. *)
Definition Set_ (w : Weights) (key : string) (v : value) : outcome Weights :=
  match Values w with
  | None => Panics
  | Some m => Returns {| Values := Some (<[key := v]> m) |}
  end.

(** ** errors.go and the errors built by [fmt.Errorf] in engine.go *)

Inductive error : Type :=
  | ErrUnsupportedModelType
  | ErrInvalidInput
  | ErrInvalidOutput
  | ErrModelNotTrained
  | ErrModelNotInitialized
  | ErrWeightsNotInitialized
  | ErrSampleCountMismatch (inputs outputs : nat)
  | ErrNoTrainingData
  | ErrNoOutputData
  | ErrWrap (prefix : string) (e : error).

(** The text of an error, as [err.Error()] gives it. *)
Fixpoint Error (e : error) : string :=
  match e with
  | ErrUnsupportedModelType => "unsupported model type"
  | ErrInvalidInput => "invalid input data"
  | ErrInvalidOutput => "invalid output data"
  | ErrModelNotTrained => "model not trained"
  | ErrModelNotInitialized => "model not initialized"
  | ErrWeightsNotInitialized => "weights not initialized, model not trained"
  | ErrSampleCountMismatch inputs outputs =>
      "number of input samples (" +:+ pretty inputs
      +:+ ") must match number of output samples (" +:+ pretty outputs +:+ ")"
  | ErrNoTrainingData => "no training data provided"
  | ErrNoOutputData => "no output data provided"
  | ErrWrap prefix e => prefix +:+ ": " +:+ Error e
  end.

(** ** config.go *)

Record Config := {
  LearningRate : R;
  Epochs : Z;
  BatchSize : Z;
  Regularize : R;
  Tolerance : R;
}.

Definition DefaultConfig : Config :=
  {| LearningRate := 0.01; Epochs := 100; BatchSize := 32;
     Regularize := 0.0001; Tolerance := 0.0001 |}.

(** ** model.go: the descriptor *)

Record Model := {
  Type_ : string;
  Parameters : option (gmap string value);
  Features : option (gmap string value);
  Targets : option (gmap string value);
  Categories : option (gmap string (gmap string Z));
  FeatureCategories : option (gmap string (gmap string Z));
}.

Definition bias_marker : gmap string value := {[ "bias" := VBool true ]}.

Definition NewLinearModel : Model :=
  {| Type_ := "linear"; Parameters := Some bias_marker; Features := None;
     Targets := None; Categories := None; FeatureCategories := None |}.

Definition NewLogisticModel : Model :=
  {| Type_ := "logistic"; Parameters := Some bias_marker; Features := None;
     Targets := None; Categories := None; FeatureCategories := None |}.

Definition NewCategoricalModel : Model :=
  {| Type_ := "categorical"; Parameters := Some bias_marker; Features := None;
     Targets := None; Categories := Some ∅; FeatureCategories := None |}.

Definition NewMixedModel : Model :=
  {| Type_ := "mixed"; Parameters := Some bias_marker; Features := Some ∅;
     Targets := Some ∅; Categories := Some ∅; FeatureCategories := Some ∅ |}.

(** ** Iteration over maps

    [range m] is the sequence of entries a Go [for k, v := range m] visits.
    The language fixes no order, so the loops below are written against an
    arbitrary enumeration of the entries. *)

Definition canonical_range (A : Type) (m : gmap string A) : list (string * A) :=
  map_to_list m.

(** Stand-ins for the [fmt] routines on numbers, for running the embedding
    on records whose labels are words: scanning a word as a number fails.
    They only instantiate the general statements in the examples at the end
    of the file. *)
Definition words_Sprintf_float : R → string := λ _, "".
Definition words_Sscanf_f : string → option R := λ _, None.
Definition words_Sscanf_d : string → option Z := λ _, None.

Section goml.

Variable range : ∀ A : Type, gmap string A → list (string * A).

(** The formatting and scanning routines of Go's [fmt] that the categorical
    model calls on numbers: [fmt.Sprintf("%v", x)] for a float, and
    [fmt.Sscanf(s, "%f", &v)] / [fmt.Sscanf(s, "%d", &v)], which yield a
    value exactly when they return no error. *)
Variable Sprintf_float : R → string.
Variable Sscanf_f : string → option R.
Variable Sscanf_d : string → option Z.

Definition range_perm : Prop :=
  ∀ (A : Type) (m : gmap string A), range A m ≡ₚ map_to_list m.

(** ** model.go: NewAutoModel *)

(** First loop of [NewAutoModel]: which dynamic types occur in the sample. *)
Definition scan_step (acc : bool * bool * bool) (kv : string * value)
    : bool * bool * bool :=
  let '(hasString, hasNumeric, hasBoolean) := acc in
  match kv.2 with
  | VString _ => (true, hasNumeric, hasBoolean)
  | VBool _ => (hasString, hasNumeric, true)
  | VInt _ | VInt32 _ | VInt64 _ | VFloat32 _ | VFloat64 _ =>
      (hasString, true, hasBoolean)
  | v => if IsSupportedNumericType v then (hasString, true, hasBoolean)
         else (hasString, hasNumeric, hasBoolean)
  end.

(** Second loop: an [int] or [float64] other than 0 and 1 clears the flag. *)
Definition binary_step (isLogistic : bool) (kv : string * value) : bool :=
  match kv.2 with
  | VInt v => if negb (v =? 0)%Z && negb (v =? 1)%Z then false else isLogistic
  | VFloat64 v => if negb (Req_b v 0) && negb (Req_b v 1) then false else isLogistic
  | _ => isLogistic
  end.

Definition NewAutoModel (outputSample : gmap string value) : Model :=
  let '(hasString, hasNumeric, hasBoolean) :=
    foldl scan_step (false, false, false) (range _ outputSample) in
  if (hasString && hasNumeric) || (hasString && hasBoolean)
     || (hasNumeric && hasBoolean)
  then NewMixedModel
  else if hasString then NewCategoricalModel
  else
    let isLogistic := hasBoolean in
    let isLogistic :=
      if negb isLogistic && hasNumeric
      then foldl binary_step true (range _ outputSample)
      else isLogistic in
    if isLogistic then NewLogisticModel else NewLinearModel.

(** ** Helpers shared by the trainers and predictors

    The type switch on a feature value that every trainer and predictor
    repeats inline: [float64], [int], [string] (one-hot against the field's
    own name); [default: continue] is [None]. *)
Definition feature_float (feature : string) (v : value) : option R :=
  match v with
  | VFloat64 x => Some x
  | VInt n => Some (IZR n)
  | VString s => Some (if String.eqb s feature then 1%R else 0%R)
  | _ => None
  end.

(** The inline type switch on a target value: [float64], [int]. *)
Definition target_float (v : value) : option R :=
  match v with
  | VFloat64 x => Some x
  | VInt n => Some (IZR n)
  | _ => None
  end.

(** [fmt.Sprintf("%s->%s", feature, target)] and [fmt.Sprintf("bias->%s", target)]. *)
Definition weightKey (feature target : string) : string := feature +:+ "->" +:+ target.
Definition biasKey (target : string) : string := "bias->" +:+ target.

(** [if _, exists := weights.Get(key); !exists { weights.Set(key, 0.0) }] *)
Definition init_weight (w : Weights) (key : string) : outcome Weights :=
  match Get w key with
  | Some _ => Returns w
  | None => Set_ w key (VFloat64 0)
  end.

(** Weight initialisation shared by the linear and the logistic trainer. *)
Definition init_weights (features targets : list string) (w : Weights)
    : outcome Weights :=
  let* w := ofold (λ w feature,
              ofold (λ w target, init_weight w (weightKey feature target)) w targets)
            w features in
  ofold (λ w target, init_weight w (biasKey target)) w targets.

(** One step of the loop [for _, f := range features] that accumulates
    the weighted sum of a sample, skipping weights that are not floats. *)
Definition combination_step (weights : Weights) (target : string)
    (input : gmap string value) (acc : R) (f : string) : R :=
  let '(w, exists_) := GetFloat weights (weightKey f target) in
  if negb exists_ then acc else
  match input !! f with
  | None => acc
  | Some fVal =>
      match feature_float f fVal with
      | None => acc
      | Some fValFloat => (acc + w * fValFloat)%R
      end
  end.

Definition combination (weights : Weights) (features : list string)
    (target : string) (input : gmap string value) : R :=
  foldl (combination_step weights target input) 0%R features.

(** [if bias, exists := weights.GetFloat(biasKey); exists { z += bias }] *)
Definition add_bias_if_exists (weights : Weights) (target : string) (z : R) : R :=
  let '(bias, exists_) := GetFloat weights (biasKey target) in
  if exists_ then (z + bias)%R else z.

(** [bias, _ := weights.GetFloat(biasKey); z += bias] *)
Definition add_bias (weights : Weights) (target : string) (z : R) : R :=
  (z + (GetFloat weights (biasKey target)).1)%R.

(** The batches [batchStart, batchEnd) of the loop
    [for batchStart := 0; batchStart < n; batchStart += batchSize].
    With [batchSize >= 1] at most [n] batches are visited, so [fuel = n]
    is never exhausted; exhaustion is reported as [Diverges]. *)
Fixpoint batch_loop {S} (fuel : nat) (body : nat → nat → S → outcome S)
    (n batchSize batchStart : nat) (s : S) : outcome S :=
  if (batchStart <? n)%nat then
    match fuel with
    | O => Diverges
    | Datatypes.S fuel' =>
        let batchEnd := (batchStart + batchSize)%nat in
        let batchEnd := if (n <? batchEnd)%nat then n else batchEnd in
        let* s' := body batchStart batchEnd s in
        batch_loop fuel' body n batchSize (batchStart + batchSize)%nat s'
    end
  else Returns s.

(** ** linear.go *)

(** Feature means: [sum / float64(count)] over the [float64] and [int]
    values of the feature, recorded only when [count > 0]. *)
Definition mean_step (feature : string) (acc : R * nat) (input : gmap string value)
    : R * nat :=
  match input !! feature with
  | Some (VFloat64 v) => ((acc.1 + v)%R, Datatypes.S acc.2)
  | Some (VInt v) => ((acc.1 + IZR v)%R, Datatypes.S acc.2)
  | _ => acc
  end.

Definition featureMeans (features : list string) (inputs : list (gmap string value))
    : gmap string R :=
  foldl (λ means feature,
           let '(sum, count) := foldl (mean_step feature) (0%R, O) inputs in
           if (0 <? count)%nat then <[feature := (sum / INR count)%R]> means
           else means)
        ∅ features.

(** The feature value used in the gradient: numeric values are divided by
    the feature mean when one is recorded and it is not zero. *)
Definition normalized_feature (means : gmap string R) (feature : string)
    (v : value) : option R :=
  let normalize (x : R) : R :=
    match means !! feature with
    | Some mean => if negb (Req_b mean 0) then (x / mean)%R else x
    | None => x
    end in
  match v with
  | VFloat64 x => Some (normalize x)
  | VInt n => Some (normalize (IZR n))
  | VString s => Some (if String.eqb s feature then 1%R else 0%R)
  | _ => None
  end.

(** *** Batched gradient descent

    [trainLinearModel] and [trainLogisticModel] are the same loop nest; the
    two differ in the conversion [conv] of the feature value that multiplies
    the error (mean-normalized in the linear trainer, plain in the logistic
    one), in the activation [act] applied to the weighted sum (none, resp.
    [sigmoid]) and in the loss that drives the convergence check. *)

Section descent.

Variable conv : string → value → option R.
Variable act : R → R.
Variable loss : R → R → R.
Variable features targets : list string.
Variable inputs outputs : list (gmap string value).

(** Body of [for i := batchStart; i < batchEnd; i++] in the weight update. *)
Definition gradient_step (weights : Weights) (feature target : string)
    (gradient : R) (i : nat) : outcome R :=
  match inputs !! i with
  | None => Panics
  | Some input =>
      match input !! feature with
      | None => Returns gradient
      | Some featureValRaw =>
          match conv feature featureValRaw with
          | None => Returns gradient
          | Some featureVal =>
              let predicted :=
                act (add_bias_if_exists weights target
                       (combination weights features target input)) in
              match outputs !! i with
              | None => Panics
              | Some output =>
                  match output !! target with
                  | None => Returns gradient
                  | Some actualRaw =>
                      match target_float actualRaw with
                      | None => Returns gradient
                      | Some actual =>
                          Returns (gradient + (predicted - actual) * featureVal)%R
                      end
                  end
              end
          end
      end
  end.

(** Body of [for i := batchStart; i < batchEnd; i++] in the bias update. *)
Definition bias_gradient_step (weights : Weights) (target : string)
    (biasGradient : R) (i : nat) : outcome R :=
  match inputs !! i with
  | None => Panics
  | Some input =>
      let predicted :=
        act (add_bias weights target (combination weights features target input)) in
      match outputs !! i with
      | None => Panics
      | Some output =>
          match output !! target with
          | None => Returns biasGradient
          | Some actualRaw =>
              match target_float actualRaw with
              | None => Returns biasGradient
              | Some actual => Returns (biasGradient + (predicted - actual))%R
              end
          end
      end
  end.

(** Body of [for _, feature := range features]: one weight update. *)
Definition update_weight (cfg : Config) (target : string)
    (batchStart batchEnd : nat) (weights : Weights) (feature : string)
    : outcome Weights :=
  let key := weightKey feature target in
  let* gradient := ofold (gradient_step weights feature target) 0%R
                     (seq batchStart (batchEnd - batchStart)) in
  let gradient := (gradient / INR (batchEnd - batchStart))%R in
  let currentWeight := (GetFloat weights key).1 in
  let regularizationTerm := (Regularize cfg * currentWeight)%R in
  let newWeight :=
    (currentWeight - LearningRate cfg * (gradient + regularizationTerm))%R in
  Set_ weights key (VFloat64 newWeight).

(** The bias update that follows the feature loop of a target. *)
Definition update_bias (cfg : Config) (target : string)
    (batchStart batchEnd : nat) (weights : Weights) : outcome Weights :=
  let key := biasKey target in
  let* biasGradient := ofold (bias_gradient_step weights target) 0%R
                         (seq batchStart (batchEnd - batchStart)) in
  let biasGradient := (biasGradient / INR (batchEnd - batchStart))%R in
  let currentBias := (GetFloat weights key).1 in
  let newBias := (currentBias - LearningRate cfg * biasGradient)%R in
  Set_ weights key (VFloat64 newBias).

(** Body of the batch loop: every target, every feature, then the bias. *)
Definition update_batch (cfg : Config) (batchStart batchEnd : nat)
    (weights : Weights) : outcome Weights :=
  ofold (λ w target,
           let* w := ofold (update_weight cfg target batchStart batchEnd) w features in
           update_bias cfg target batchStart batchEnd w)
        weights targets.

(** [calculateMSE] / [calculateLogLoss]: mean loss over the samples whose
    target value is numeric; [0.0] when there is none. *)
Definition loss_step (weights : Weights) (input : gmap string value) (i : nat)
    (acc : R * nat) (target : string) : outcome (R * nat) :=
  let prediction :=
    add_bias_if_exists weights target (combination weights features target input) in
  match outputs !! i with
  | None => Panics
  | Some output =>
      match output !! target with
      | None => Returns acc
      | Some actualRaw =>
          match target_float actualRaw with
          | None => Returns acc
          | Some actual => Returns ((acc.1 + loss prediction actual)%R, Datatypes.S acc.2)
          end
      end
  end.

Definition calculate_loss (weights : Weights) : outcome R :=
  let* acc :=
    ofold (λ acc '(i, input), ofold (loss_step weights input i) acc targets)
          (0%R, O) (imap (λ i input, (i, input)) inputs) in
  let totalLoss := acc.1 in
  let sampleCount := acc.2 in
  Returns (if (sampleCount =? 0)%nat then 0%R else (totalLoss / INR sampleCount)%R).

(** The epoch loop.  A batch size of zero never advances [batchStart]; a
    negative one moves it downwards (until it wraps around after about
    2^63 steps): both are reported as [Diverges]. *)
Fixpoint epoch_loop (cfg : Config) (epochs : nat) (weights : Weights)
    : outcome Weights :=
  match epochs with
  | O => Returns weights
  | Datatypes.S epochs' =>
      let* prevLoss := calculate_loss weights in
      let* weights :=
        if (BatchSize cfg <=? 0)%Z then Diverges
        else batch_loop (length inputs) (update_batch cfg) (length inputs)
               (Z.to_nat (BatchSize cfg)) O weights in
      let* currentLoss := calculate_loss weights in
      if Rlt_b (Rabs (prevLoss - currentLoss)) (Tolerance cfg)
      then Returns weights
      else epoch_loop cfg epochs' weights
  end.

End descent.

Definition squared_error (prediction actual : R) : R :=
  ((prediction - actual) * (prediction - actual))%R.

(** [trainLinearModel].  The target means the source also computes are
    never read and are left out. *)
Definition trainLinearModel (inputs outputs : list (gmap string value))
    (weights : Weights) (config : option Config)
    : outcome (Weights * option error) :=
  match inputs with
  | [] => Returns (weights, Some ErrInvalidInput)
  | input0 :: _ =>
      let features := (range _ input0).*1 in
      match outputs with
      | [] => Returns (weights, Some ErrInvalidOutput)
      | output0 :: _ =>
          let targets := (range _ output0).*1 in
          let* weights := init_weights features targets weights in
          let means := featureMeans features inputs in
          match config with
          | None => Panics
          | Some cfg =>
              let* weights :=
                epoch_loop (normalized_feature means) (λ z, z) squared_error
                  features targets inputs outputs cfg
                  (Z.to_nat (Epochs cfg)) weights in
              Returns (weights, None)
          end
      end
  end.

(** [splitWeightKey]: the two halves around the first ["->"]; two empty
    strings when there is none.  The result always has length 2. *)
Fixpoint split_arrow (key : string) : option (string * string) :=
  match key with
  | EmptyString => None
  | String c rest =>
      let here :=
        if Ascii.eqb c "-"%char
        then match rest with
             | String c' rest' => if Ascii.eqb c' ">"%char then Some rest' else None
             | EmptyString => None
             end
        else None in
      match here with
      | Some after => Some (EmptyString, after)
      | None =>
          match split_arrow rest with
          | Some (before, after) => Some (String c before, after)
          | None => None
          end
      end
  end.

Definition splitWeightKey (key : string) : list string :=
  match split_arrow key with
  | Some (before, after) => [before; after]
  | None => [""; ""]
  end.

(** The set of targets both predictors rebuild from the weight keys.  The
    linear predictor also fills a [features] set that it never reads. *)
Definition collect_targets (weights : Weights) : gmap string bool :=
  foldl (λ targets kv,
           match splitWeightKey kv.1 with
           | [_; target] => <[target := true]> targets
           | _ => targets
           end)
        ∅ (range _ (values_of weights)).

(** Weighted sum over the fields of the input record, as both predictors
    compute it. *)
Definition input_step (weights : Weights) (target : string) (acc : R)
    (kv : string * value) : R :=
  let '(feature, featureValRaw) := kv in
  let '(weight, exists_) := GetFloat weights (weightKey feature target) in
  if negb exists_ then acc else
  match feature_float feature featureValRaw with
  | None => acc
  | Some featureVal => (acc + weight * featureVal)%R
  end.

Definition input_combination (weights : Weights) (target : string)
    (input : gmap string value) : R :=
  add_bias_if_exists weights target
    (foldl (input_step weights target) 0%R (range _ input)).

Definition predictLinearModel (input : gmap string value) (weights : Weights)
    : gmap string value * option error :=
  let targets := collect_targets weights in
  (foldl (λ result kv,
            <[kv.1 := VFloat64 (input_combination weights kv.1 input)]> result)
         ∅ (range _ targets),
   None).

(** ** logistic.go *)

Definition sigmoid (z : R) : R := (1 / (1 + exp (- z)))%R.

Definition log_loss (z actual : R) : R :=
  let prediction := sigmoid z in
  let clippedPred := Rmax (Rmin prediction 0.9999) 0.0001 in
  (- (actual * ln clippedPred + (1 - actual) * ln (1 - clippedPred)))%R.

Definition trainLogisticModel (inputs outputs : list (gmap string value))
    (weights : Weights) (config : option Config)
    : outcome (Weights * option error) :=
  match inputs with
  | [] => Returns (weights, Some ErrInvalidInput)
  | input0 :: _ =>
      let features := (range _ input0).*1 in
      match outputs with
      | [] => Returns (weights, Some ErrInvalidOutput)
      | output0 :: _ =>
          let targets := (range _ output0).*1 in
          let* weights := init_weights features targets weights in
          match config with
          | None => Panics
          | Some cfg =>
              let* weights :=
                epoch_loop feature_float sigmoid log_loss
                  features targets inputs outputs cfg
                  (Z.to_nat (Epochs cfg)) weights in
              Returns (weights, None)
          end
      end
  end.

Definition predictLogisticModel (input : gmap string value) (weights : Weights)
    : gmap string value * option error :=
  let targets := collect_targets weights in
  (foldl (λ result kv,
            <[kv.1 := VFloat64 (sigmoid (input_combination weights kv.1 input))]> result)
         ∅ (range _ targets),
   None).

(** ** categorical.go *)

(** [math.MaxFloat64] *)
Definition MaxFloat64 : R := IZR (2 ^ 1024 - 2 ^ 971).

(** [fmt.Sprintf("%v", val)] on the values a record may hold.  The text of
    a [map[string]float64] is never needed and is left unspecified. *)
Definition Sprintf_v (val : value) : string :=
  match val with
  | VString s => s
  | VBool b => if b then "true" else "false"
  | VInt n | VInt64 n | VInt32 n => pretty n
  | VFloat64 x | VFloat32 x => Sprintf_float x
  | VProbs _ => "map[]"
  | VNil => "<nil>"
  end.

(** The text after ["->"] in a categorical weight key: the formats
    ["%s->%s:%s"] and ["bias->%s:%s"] produce [weightKey feature
    (categoryKey target category)] and [biasKey (categoryKey target
    category)]. *)
Definition categoryKey (target category : string) : string :=
  target +:+ ":" +:+ category.

Definition softmax (scores : gmap string R) : gmap string R :=
  let maxScore :=
    foldl (λ maxScore kv, if Rgt_b kv.2 maxScore then kv.2 else maxScore)
          (- MaxFloat64)%R (range _ scores) in
  let '(expScores, sumExp) :=
    foldl (λ acc kv,
             let expScore := exp (kv.2 - maxScore) in
             (<[kv.1 := expScore]> acc.1, (acc.2 + expScore)%R))
          (∅, 0%R) (range _ scores) in
  foldl (λ probabilities kv, <[kv.1 := (kv.2 / sumExp)%R]> probabilities)
        ∅ (range _ expScores).

Definition stringToFloat64 (s : string) : option R := Sscanf_f s.
Definition stringToInt (s : string) : option Z := Sscanf_d s.

Definition isNumeric (s : string) : bool :=
  bool_decide (is_Some (stringToFloat64 s)) || bool_decide (is_Some (stringToInt s)).

(** [strings.Contains(s, ".")] *)
Fixpoint contains_dot (s : string) : bool :=
  match s with
  | EmptyString => false
  | String c rest => Ascii.eqb c "."%char || contains_dot rest
  end.

(** Category discovery for one target: count the labels of the training
    outputs, then give every label not yet in the descriptor the next index
    (counted from 0 in every call). *)
Definition count_categories (target : string) (outputs : list (gmap string value))
    : gmap string Z :=
  foldl (λ categoryCount out,
           match out !! target with
           | Some val =>
               let category := Sprintf_v val in
               <[category := (default 0 (categoryCount !! category) + 1)%Z]> categoryCount
           | None => categoryCount
           end)
        ∅ outputs.

Definition assign_step (acc : gmap string Z * Z) (kv : string * Z)
    : gmap string Z * Z :=
  match acc.1 !! kv.1 with
  | Some _ => acc
  | None => (<[kv.1 := acc.2]> acc.1, (acc.2 + 1)%Z)
  end.

Definition assign_categories (outputs : list (gmap string value))
    (categories : gmap string (gmap string Z)) (target : string)
    : gmap string (gmap string Z) :=
  let known := default ∅ (categories !! target) in
  let categoryCount := count_categories target outputs in
  <[target := (foldl assign_step (known, 0%Z) (range _ categoryCount)).1]> categories.

Section categorical_training.

Variable features : list string.
Variable inputs outputs : list (gmap string value).

(** Raw score of a category during training. *)
Definition score_step (weights : Weights) (target category : string)
    (input : gmap string value) (score : R) (feature : string) : R :=
  let featureWeight :=
    (GetFloat weights (weightKey feature (categoryKey target category))).1 in
  match input !! feature with
  | None => score
  | Some featureVal =>
      match feature_float feature featureVal with
      | None => score
      | Some featureValFloat => (score + featureWeight * featureValFloat)%R
      end
  end.

Definition category_score (weights : Weights) (target : string)
    (input : gmap string value) (category : string) : R :=
  add_bias weights (categoryKey target category)
    (foldl (score_step weights target category input) 0%R features).

(** One weight update of the stochastic descent. *)
Definition sgd_weight (cfg : Config) (target category : string)
    (input : gmap string value) (gradient : R) (weights : Weights)
    (feature : string) : outcome Weights :=
  let key := weightKey feature (categoryKey target category) in
  let currentWeight := (GetFloat weights key).1 in
  match input !! feature with
  | None => Returns weights
  | Some featureVal =>
      match feature_float feature featureVal with
      | None => Returns weights
      | Some featureValFloat =>
          let regularizationTerm := (Regularize cfg * currentWeight)%R in
          let newWeight :=
            (currentWeight
             - LearningRate cfg * (gradient * featureValFloat + regularizationTerm))%R in
          Set_ weights key (VFloat64 newWeight)
      end
  end.

(** Body of [for category := range categories] in the update phase. *)
Definition sgd_category (cfg : Config) (target actualCategory : string)
    (input : gmap string value) (probabilities : gmap string R)
    (weights : Weights) (kv : string * Z) : outcome Weights :=
  let category := kv.1 in
  let targetProbability := if String.eqb category actualCategory then 1%R else 0%R in
  let gradient := (default 0%R (probabilities !! category) - targetProbability)%R in
  let* weights :=
    ofold (sgd_weight cfg target category input gradient) weights features in
  let key := biasKey (categoryKey target category) in
  let currentBias := (GetFloat weights key).1 in
  let newBias := (currentBias - LearningRate cfg * gradient)%R in
  Set_ weights key (VFloat64 newBias).

(** Body of [for i := range inputs]. *)
Definition sgd_sample (cfg : Config) (target : string) (categories : gmap string Z)
    (weights : Weights) (i : nat) : outcome Weights :=
  match inputs !! i with
  | None => Panics
  | Some input =>
      let categoryScores :=
        foldl (λ scores kv, <[kv.1 := category_score weights target input kv.1]> scores)
              ∅ (range _ categories) in
      let probabilities := softmax categoryScores in
      match outputs !! i with
      | None => Panics
      | Some output =>
          match output !! target with
          | None => Returns weights
          | Some actualValue =>
              let actualCategory := Sprintf_v actualValue in
              ofold (sgd_category cfg target actualCategory input probabilities)
                    weights (range _ categories)
          end
      end
  end.

(** Body of the second [for _, target := range targets] loop: the weights
    of one target. *)
Definition train_target (config : option Config)
    (categories_of : gmap string (gmap string Z)) (weights : Weights)
    (target : string) : outcome Weights :=
  let categories := default ∅ (categories_of !! target) in
  let numCategories := size categories in
  if (numCategories <=? 1)%nat then Returns weights
  else
    let* weights :=
      ofold (λ w kv,
               let* w := ofold (λ w feature,
                           init_weight w (weightKey feature (categoryKey target kv.1)))
                         w features in
               init_weight w (biasKey (categoryKey target kv.1)))
            weights (range _ categories) in
    match config with
    | None => Panics
    | Some cfg =>
        ofold (λ w _, ofold (sgd_sample cfg target categories) w
                        (seq 0 (length inputs)))
              weights (seq 0 (Z.to_nat (Epochs cfg)))
    end.

End categorical_training.

Definition with_Categories (model : Model)
    (categories : option (gmap string (gmap string Z))) : Model :=
  {| Type_ := Type_ model; Parameters := Parameters model;
     Features := Features model; Targets := Targets model;
     Categories := categories; FeatureCategories := FeatureCategories model |}.

Definition with_Targets (model : Model) (targets : option (gmap string value))
    : Model :=
  {| Type_ := Type_ model; Parameters := Parameters model;
     Features := Features model; Targets := targets;
     Categories := Categories model;
     FeatureCategories := FeatureCategories model |}.

(** The category tables after the discovery loop of [trainCategoricalModel]
    (a nil [Categories] is first replaced by an empty map). *)
Definition discover_categories (outputs : list (gmap string value))
    (targets : list string) (model : Model) : gmap string (gmap string Z) :=
  foldl (assign_categories outputs) (default ∅ (Categories model)) targets.

Definition trainCategoricalModel (inputs outputs : list (gmap string value))
    (weights : Weights) (config : option Config) (model : Model)
    : outcome (Weights * Model * option error) :=
  match inputs with
  | [] => Returns (weights, model, Some ErrInvalidInput)
  | input0 :: _ =>
      let features := (range _ input0).*1 in
      match outputs with
      | [] => Returns (weights, model, Some ErrInvalidOutput)
      | output0 :: _ =>
          let targets := (range _ output0).*1 in
          let categories := discover_categories outputs targets model in
          let model := with_Categories model (Some categories) in
          let* weights :=
            ofold (train_target features inputs outputs config categories)
                  weights targets in
          Returns (weights, model, None)
      end
  end.

(** The winning category: first entry, in iteration order, whose
    probability exceeds every earlier one (and 0). *)
Definition best_category (probabilities : gmap string R) : string :=
  (foldl (λ best kv, if Rgt_b kv.2 best.2 then (kv.1, kv.2) else best)
         ("", 0%R) (range _ probabilities)).1.

(** Conversion of the winning label back to a number when it scans as one. *)
Definition restore_label (bestCategory : string) : value :=
  if isNumeric bestCategory then
    if contains_dot bestCategory then
      match stringToFloat64 bestCategory with
      | Some val => VFloat64 val
      | None => VString bestCategory
      end
    else
      match stringToInt bestCategory with
      | Some val => VInt val
      | None => VString bestCategory
      end
  else VString bestCategory.

(** The softmax distribution of one target for an input record. *)
Definition target_probabilities (input : gmap string value) (weights : Weights)
    (target : string) (categories : gmap string Z) : gmap string R :=
  let categoryScores :=
    foldl (λ scores kv,
             <[kv.1 := input_combination weights (categoryKey target kv.1) input]> scores)
          ∅ (range _ categories) in
  softmax categoryScores.

(** Body of [for target, categories := range model.Categories]. *)
Definition predict_target (input : gmap string value) (weights : Weights)
    (result : gmap string value) (kv : string * gmap string Z)
    : gmap string value :=
  let '(target, categories) := kv in
  if (size categories <=? 0)%nat then result
  else
    let probabilities := target_probabilities input weights target categories in
    let bestCategory := best_category probabilities in
    if negb (String.eqb bestCategory "") then
      let result := <[target := restore_label bestCategory]> result in
      let probsMap :=
        foldl (λ probsMap kv, <[kv.1 := kv.2]> probsMap) ∅ (range _ probabilities) in
      <[target +:+ "_probs" := VProbs probsMap]> result
    else result.

Definition predictCategoricalModel (input : gmap string value)
    (weights : Weights) (model : Model) : gmap string value * option error :=
  (foldl (predict_target input weights) ∅
         (range _ (default ∅ (Categories model))),
   None).

(** ** mixed.go *)

Inductive bucket : Type := Numeric | Boolean | Categorical.

Definition bucket_name (b : bucket) : string :=
  match b with
  | Numeric => "numeric"
  | Boolean => "boolean"
  | Categorical => "categorical"
  end.

(** The type switch of [trainMixedModel] on a value of the first output
    record; [None] is [default: continue]. *)
Definition classify_target (val : value) : option bucket :=
  match val with
  | VInt num => if (num =? 0)%Z || (num =? 1)%Z then Some Boolean else Some Numeric
  | VFloat64 num => if Req_b num 0 || Req_b num 1 then Some Boolean else Some Numeric
  | VInt64 _ | VInt32 _ | VFloat32 _ => Some Numeric
  | VBool _ => Some Boolean
  | VString _ => Some Categorical
  | _ => None
  end.

(** The three per-bucket copies of the training outputs. *)
Record split := {
  numericOutputs : list (gmap string value);
  categoricalOutputs : list (gmap string value);
  booleanOutputs : list (gmap string value);
}.

(** [for i, output := range outputs { if v, ok := output[key]; ok { dst[i][key] = v } }] *)
Definition copy_field (key : string) (outputs dst : list (gmap string value))
    : list (gmap string value) :=
  zip_with (λ output d, match output !! key with
                        | Some v => <[key := v]> d
                        | None => d
                        end) outputs dst.

(** Body of [for key, val := range outputs[0]]. *)
Definition split_step (outputs : list (gmap string value))
    (acc : option (gmap string value) * split) (kv : string * value)
    : outcome (option (gmap string value) * split) :=
  let '(key, val) := kv in
  let '(targets, s) := acc in
  match classify_target val with
  | None => Returns acc
  | Some b =>
      match targets with
      | None => Panics
      | Some t =>
          let targets := Some (<[key := VString (bucket_name b)]> t) in
          Returns
            (targets,
             match b with
             | Numeric =>
                 {| numericOutputs := copy_field key outputs (numericOutputs s);
                    categoricalOutputs := categoricalOutputs s;
                    booleanOutputs := booleanOutputs s |}
             | Boolean =>
                 {| numericOutputs := numericOutputs s;
                    categoricalOutputs := categoricalOutputs s;
                    booleanOutputs := copy_field key outputs (booleanOutputs s) |}
             | Categorical =>
                 {| numericOutputs := numericOutputs s;
                    categoricalOutputs := copy_field key outputs (categoricalOutputs s);
                    booleanOutputs := booleanOutputs s |}
             end)
      end
  end.

(** Size of the first non-empty record, 0 when all are empty. *)
Fixpoint target_count (outputs : list (gmap string value)) : nat :=
  match outputs with
  | [] => O
  | output :: rest =>
      if (0 <? size output)%nat then size output else target_count rest
  end.

Definition trainMixedModel (inputs outputs : list (gmap string value))
    (weights : Weights) (config : option Config) (model : Model)
    : outcome (Weights * Model * option error) :=
  let empty := replicate (length outputs) (∅ : gmap string value) in
  match outputs with
  | [] => Returns (weights, model, Some ErrInvalidOutput)
  | output0 :: _ =>
      let* acc :=
        ofold (split_step outputs)
              (Targets model,
               {| numericOutputs := empty; categoricalOutputs := empty;
                  booleanOutputs := empty |})
              (range _ output0) in
      let model := with_Targets model acc.1 in
      let s := acc.2 in
      let* r :=
        if (0 <? target_count (numericOutputs s))%nat
        then trainLinearModel inputs (numericOutputs s) weights config
        else Returns (weights, None) in
      match r.2 with
      | Some err =>
          Returns (r.1, model, Some (ErrWrap "error training numeric targets" err))
      | None =>
          let* r :=
            if (0 <? target_count (categoricalOutputs s))%nat
            then trainCategoricalModel inputs (categoricalOutputs s) r.1 config model
            else Returns (r.1, model, None) in
          match r.2 with
          | Some err =>
              Returns (r.1.1, r.1.2,
                       Some (ErrWrap "error training categorical targets" err))
          | None =>
              let model := r.1.2 in
              let* r :=
                if (0 <? target_count (booleanOutputs s))%nat
                then trainLogisticModel inputs (booleanOutputs s) r.1.1 config
                else Returns (r.1.1, None) in
              match r.2 with
              | Some err =>
                  Returns (r.1, model,
                           Some (ErrWrap "error training boolean targets" err))
              | None => Returns (r.1, model, None)
              end
          end
      end
  end.

(** [targetType, ok := model.Targets[k]; ok && targetType == name] *)
Definition target_type_is (model : Model) (k name : string) : bool :=
  match default ∅ (Targets model) !! k with
  | Some (VString targetType) => String.eqb targetType name
  | _ => false
  end.

Definition merge_linear (model : Model) (result : gmap string value)
    (kv : string * value) : gmap string value :=
  if target_type_is model kv.1 "numeric" then <[kv.1 := kv.2]> result else result.

Definition merge_categorical (model : Model) (catPred : gmap string value)
    (result : gmap string value) (kv : string * value) : gmap string value :=
  if target_type_is model kv.1 "categorical" then
    let result := <[kv.1 := kv.2]> result in
    let probKey := kv.1 +:+ "_probs" in
    match catPred !! probKey with
    | Some probs => <[probKey := probs]> result
    | None => result
    end
  else result.

Definition merge_logistic (model : Model) (result : gmap string value)
    (kv : string * value) : gmap string value :=
  if target_type_is model kv.1 "boolean" then
    match kv.2 with
    | VFloat64 prob => <[kv.1 := VBool (Rge_b prob 0.5)]> result
    | v => <[kv.1 := v]> result
    end
  else result.

Definition predictMixedModel (input : gmap string value) (weights : Weights)
    (model : Model) : option (gmap string value) * option error :=
  let result : gmap string value := ∅ in
  let '(linearPred, err) := predictLinearModel input weights in
  match err with
  | Some err => (None, Some (ErrWrap "error in linear prediction" err))
  | None =>
      let result := foldl (merge_linear model) result (range _ linearPred) in
      let '(catPred, err) := predictCategoricalModel input weights model in
      match err with
      | Some err => (None, Some (ErrWrap "error in categorical prediction" err))
      | None =>
          let result :=
            foldl (merge_categorical model catPred) result (range _ catPred) in
          let '(logPred, err) := predictLogisticModel input weights in
          match err with
          | Some err => (None, Some (ErrWrap "error in logistic prediction" err))
          | None =>
              (Some (foldl (merge_logistic model) result (range _ logPred)), None)
          end
      end
  end.

(** ** model.go: dispatch on the variant *)

Definition Model_Train (m : Model) (inputs outputs : list (gmap string value))
    (weights : Weights) (config : option Config)
    : outcome (Weights * Model * option error) :=
  if String.eqb (Type_ m) "linear" then
    let* r := trainLinearModel inputs outputs weights config in
    Returns (r.1, m, r.2)
  else if String.eqb (Type_ m) "logistic" then
    let* r := trainLogisticModel inputs outputs weights config in
    Returns (r.1, m, r.2)
  else if String.eqb (Type_ m) "categorical" then
    trainCategoricalModel inputs outputs weights config m
  else if String.eqb (Type_ m) "mixed" then
    trainMixedModel inputs outputs weights config m
  else Returns (weights, m, Some ErrUnsupportedModelType).

Definition Model_Predict (m : Model) (input : gmap string value)
    (weights : Weights) : option (gmap string value) * option error :=
  if String.eqb (Type_ m) "linear" then
    let r := predictLinearModel input weights in (Some r.1, r.2)
  else if String.eqb (Type_ m) "logistic" then
    let r := predictLogisticModel input weights in (Some r.1, r.2)
  else if String.eqb (Type_ m) "categorical" then
    let r := predictCategoricalModel input weights m in (Some r.1, r.2)
  else if String.eqb (Type_ m) "mixed" then
    predictMixedModel input weights m
  else (None, Some ErrUnsupportedModelType).

(** ** engine.go

    [WithModel], [WithWeights], [GetModel] and [GetWeights] go through
    [encoding/json] and are not part of the embedding. *)

Record Engine := {
  model : option Model;
  weights : option Weights;
  config : option Config;
}.

Definition New : Engine :=
  {| model := None; weights := None; config := Some DefaultConfig |}.

Definition NewAuto (outputSample : gmap string value) : Engine :=
  {| model := Some (NewAutoModel outputSample); weights := None;
     config := Some DefaultConfig |}.

Definition WithConfig (e : Engine) (cfg : option Config) : Engine :=
  {| model := model e; weights := weights e; config := cfg |}.

(** [Train] returns the engine as the call leaves it and the Go [error]. *)
Definition Train (e : Engine) (inputs outputs : list (gmap string value))
    : outcome (Engine * option error) :=
  match model e with
  | None => Returns (e, Some ErrModelNotInitialized)
  | Some m =>
      if negb (length inputs =? length outputs)%nat then
        Returns (e, Some (ErrSampleCountMismatch (length inputs) (length outputs)))
      else if (length inputs =? 0)%nat then
        Returns (e, Some ErrNoTrainingData)
      else
        let w := match weights e with
                 | Some w => w
                 | None => {| Values := Some ∅ |}
                 end in
        let* r := Model_Train m inputs outputs w (config e) in
        Returns ({| model := Some r.1.2; weights := Some r.1.1; config := config e |},
                 r.2)
  end.

Definition Predict (e : Engine) (input : gmap string value)
    : option (gmap string value) * option error :=
  match model e with
  | None => (None, Some ErrModelNotInitialized)
  | Some m =>
      match weights e with
      | None => (None, Some ErrWeightsNotInitialized)
      | Some w => Model_Predict m input w
      end
  end.

Definition TrainAuto (inputs outputs : list (gmap string value))
    : outcome (option Engine * option error) :=
  match outputs with
  | [] => Returns (None, Some ErrNoOutputData)
  | output0 :: _ =>
      let engine := NewAuto output0 in
      let* r := Train engine inputs outputs in
      match r.2 with
      | Some err => Returns (None, Some (ErrWrap "training error" err))
      | None => Returns (Some r.1, None)
      end
  end.

(** ** Vocabulary of the statements below *)

(** Classes of fields in a sample record, by dynamic type. *)
Definition has_string (sample : gmap string value) : Prop :=
  ∃ k s, sample !! k = Some (VString s).
Definition has_boolean (sample : gmap string value) : Prop :=
  ∃ k b, sample !! k = Some (VBool b).
Definition has_numeric (sample : gmap string value) : Prop :=
  ∃ k v, sample !! k = Some v ∧ IsSupportedNumericType v = true.

Definition mixed_types (sample : gmap string value) : Prop :=
  (has_string sample ∧ has_numeric sample) ∨
  (has_string sample ∧ has_boolean sample) ∨
  (has_numeric sample ∧ has_boolean sample).

(** A numeric value that is exactly 0 or 1. *)
Definition binary_value (v : value) : Prop :=
  v = VInt 0 ∨ v = VInt 1 ∨ v = VFloat64 0 ∨ v = VFloat64 1.

Definition all_binary (sample : gmap string value) : Prop :=
  ∀ k v, sample !! k = Some v → IsSupportedNumericType v = true → binary_value v.

(** The value types of the record interface: integer ([int]),
    floating-point ([float64]), boolean, text. *)
Definition plain_value (v : value) : Prop :=
  match v with
  | VInt _ | VFloat64 _ | VBool _ | VString _ => True
  | _ => False
  end.

Definition plain_record (r : gmap string value) : Prop :=
  ∀ k v, r !! k = Some v → plain_value v.

Definition is_string_b (kv : string * value) : bool :=
  match kv.2 with VString _ => true | _ => false end.
Definition is_boolean_b (kv : string * value) : bool :=
  IsSupportedBooleanType kv.2.
Definition is_numeric_b (kv : string * value) : bool :=
  IsSupportedNumericType kv.2.
Definition non_binary_b (kv : string * value) : bool :=
  match kv.2 with
  | VInt v => negb (v =? 0)%Z && negb (v =? 1)%Z
  | VFloat64 v => negb (Req_b v 0) && negb (Req_b v 1)
  | _ => false
  end.

(** The index the descriptor records for a label of a target. *)
Definition category_index (categories : option (gmap string (gmap string Z)))
    (target label : string) : option Z :=
  default ∅ categories !! target ≫= λ labels, labels !! label.

(** Every (target, label, index) entry of [before] is an entry of [after]. *)
Definition categories_preserved (before after : Model) : Prop :=
  ∀ target label index,
    category_index (Categories before) target label = Some index →
    category_index (Categories after) target label = Some index.

(** Sum of a list of reals, and of the values of a map. *)
Definition Rsum (l : list R) : R := foldr Rplus 0%R l.
Definition map_sum (m : gmap string R) : R := Rsum (map_to_list m).*2.

(** *** The update rule of the linear trainer, in the words of its
    description

    These definitions do not follow the source: they spell out "mean over
    the batch of (prediction - actual) * coerced feature value" and the two
    update formulas, to be compared with the loops of the trainer. *)











(** A probability distribution over labels. *)
Definition distribution (probs : gmap string R) : Prop :=
  map_sum probs = 1%R ∧ ∀ c p, probs !! c = Some p → (0 <= p <= 1)%R.

(** Where a field of the merged record comes from. *)
Definition field_source (model : Model)
    (linearPred catPred logPred : gmap string value) (k : string) (v : value)
    : Prop :=
  (target_type_is model k "numeric" = true ∧ linearPred !! k = Some v) ∨
  (target_type_is model k "categorical" = true ∧ catPred !! k = Some v) ∨
  (∃ t, k = t +:+ "_probs" ∧ target_type_is model t "categorical" = true ∧
        is_Some (catPred !! t) ∧ catPred !! k = Some v) ∨
  (target_type_is model k "boolean" = true ∧
   ∃ prob, logPred !! k = Some (VFloat64 prob) ∧ v = VBool (Rge_b prob 0.5)).

(** The shift [softmax] subtracts from every score. *)
Definition max_score (scores : gmap string R) : R :=
  foldl (λ maxScore kv, if Rgt_b kv.2 maxScore then kv.2 else maxScore)
        (- MaxFloat64)%R (range _ scores).

(** The prediction of a sample during training: activation of the weighted
    sum plus bias. *)
Definition sample_prediction (act : R → R) (weights : Weights)
    (features : list string) (target : string) (input : gmap string value) : R :=
  act (add_bias weights target (combination weights features target input)).

(** The weight store has a map: [Values] is not nil. *)
Definition live (w : Weights) : Prop := is_Some (Values w).

(** Shape of the state of the split loop of [trainMixedModel]: the
    [Targets] map is not nil and every bucket holds one record per
    training output. *)
Definition split_shape (outputs : list (gmap string value))
    (acc : option (gmap string value) * split) : Prop :=
  is_Some acc.1 ∧ length (numericOutputs acc.2) = length outputs
  ∧ length (categoricalOutputs acc.2) = length outputs
  ∧ length (booleanOutputs acc.2) = length outputs.

(** A text that does not contain the separator ["->"]. *)
Definition arrow_free (s : string) : Prop :=
  ∀ a b : string, s ≠ a +:+ "->" +:+ b.

(** The term a field of the input record adds to the weighted sum of a
    target: weight times coerced value, nothing when the weight does not
    read as a float or the value is of no coerced type. *)
Definition contribution (weights : Weights) (target : string)
    (kv : string * value) : R :=
  match GetFloat weights (weightKey kv.1 target), feature_float kv.1 kv.2 with
  | (w, true), Some x => (w * x)%R
  | _, _ => 0%R
  end.

(** The sigmoid applied to a predicted number. *)
Definition squash (v : value) : value :=
  match v with
  | VFloat64 z => VFloat64 (sigmoid z)
  | v => v
  end.

(** A target named by some key of the weight store: the second part of
    the split key. *)
Definition names_target (weights : Weights) (target : string) : Prop :=
  ∃ key, is_Some (Get weights key) ∧ splitWeightKey key !! 1%nat = Some target.

(** The four variants [Model.Train] and [Model.Predict] dispatch on. *)
Definition supported (type : string) : Prop :=
  type = "linear" ∨ type = "logistic" ∨ type = "categorical" ∨ type = "mixed".

(** The keys a descent trainer owns: the weight of every feature and
    target, and the bias of every target. *)
Definition trained_key (features targets : list string) (k : string) : Prop :=
  (∃ f t, f ∈ features ∧ t ∈ targets ∧ k = weightKey f t) ∨
  (∃ t, t ∈ targets ∧ k = biasKey t).

(** The store [w'] holds every key of [w], and reads as [w] on every key
    outside the set [K]. *)
Definition extends_on (K : string → Prop) (w w' : Weights) : Prop :=
  (∀ k, is_Some (Get w k) → is_Some (Get w' k)) ∧
  (∀ k, ¬ K k → Get w' k = Get w k).

(** A predicted value [v] is the label, converted back, of a most probable
    category of the distribution [probs]. *)
Definition most_probable (v : value) (probs : gmap string R) : Prop :=
  ∃ label p, v = restore_label label ∧ label ≠ "" ∧ probs !! label = Some p ∧
             ∀ c q, probs !! c = Some q → (q <= p)%R.

(** An [int] or [float64] other than 0 and 1: the values the second loop
    of [NewAutoModel] looks for. *)
Definition off_binary (v : value) : Prop :=
  (∃ n, v = VInt n ∧ n ≠ 0%Z ∧ n ≠ 1%Z) ∨ (∃ x, v = VFloat64 x ∧ x ≠ 0%R ∧ x ≠ 1%R).

(** The labels of a target in the training outputs. *)
Definition label_of (target : string) (outputs : list (gmap string value))
    (label : string) : Prop :=
  ∃ out v, out ∈ outputs ∧ out !! target = Some v ∧ Sprintf_v v = label.

(** A table that numbers its labels 0, 1, ..., one index per label. *)
Definition numbered (table : gmap string Z) : Prop :=
  (∀ label index, table !! label = Some index →
                  (0 <= index < Z.of_nat (size table))%Z) ∧
  (∀ l1 l2 index, table !! l1 = Some index → table !! l2 = Some index → l1 = l2).

(** Two stores read alike: [GetFloat] gives the same number under every
    key (0 where nothing, or no float, is stored). *)
Definition reads_as (w w' : Weights) : Prop :=
  ∀ k, (GetFloat w' k).1 = (GetFloat w k).1.

(** The store fits the training data: on every example, the weighted sum
    of the features plus bias equals the number the target holds. *)
Definition fits (w : Weights) (features targets : list string)
    (inputs outputs : list (gmap string value)) : Prop :=
  ∀ (i : nat) input output t a y,
    inputs !! i = Some input → outputs !! i = Some output → t ∈ targets →
    output !! t = Some a → target_float a = Some y →
    sample_prediction (λ z, z) w features t input = y.

(** The keys the categorical trainer owns: for every target and every
    label of its table, the weight of every feature and the bias. *)
Definition category_key (categories : option (gmap string (gmap string Z)))
    (features targets : list string) (k : string) : Prop :=
  ∃ t c, t ∈ targets ∧ is_Some (category_index categories t c) ∧
         ((∃ f, f ∈ features ∧ k = weightKey f (categoryKey t c))
          ∨ k = biasKey (categoryKey t c)).

(** * Properties *)

(** ** Comparisons *)

Lemma Req_b_true x y : x = y → Req_b x y = true.
Proof. intros H. unfold Req_b. destruct (Req_dec_T x y); [done | contradiction]. Qed.

Lemma Req_b_false x y : x ≠ y → Req_b x y = false.
Proof. intros H. unfold Req_b. destruct (Req_dec_T x y); [contradiction | done]. Qed.

Lemma Rgt_b_true x y : (y < x)%R → Rgt_b x y = true.
Proof. intros H. unfold Rgt_b. destruct (Rlt_dec y x); [done | contradiction]. Qed.

Lemma Rgt_b_false x y : (x <= y)%R → Rgt_b x y = false.
Proof. intros H. unfold Rgt_b. destruct (Rlt_dec y x); [lra | done]. Qed.

Lemma Rlt_b_true x y : (x < y)%R → Rlt_b x y = true.
Proof. intros H. unfold Rlt_b. destruct (Rlt_dec x y); [done | contradiction]. Qed.

Lemma Rlt_b_false x y : (y <= x)%R → Rlt_b x y = false.
Proof. intros H. unfold Rlt_b. destruct (Rlt_dec x y); [lra | done]. Qed.

Lemma Rge_b_true x y : (y <= x)%R → Rge_b x y = true.
Proof. intros H. unfold Rge_b. destruct (Rle_dec y x); [done | contradiction]. Qed.

Lemma Rge_b_false x y : (x < y)%R → Rge_b x y = false.
Proof. intros H. unfold Rge_b. destruct (Rle_dec y x); [lra | done]. Qed.

(** ** Iteration order *)

Lemma range_elem {A} (m : gmap string A) k v :
  range_perm → (k, v) ∈ range A m ↔ m !! k = Some v.
Proof. intros Hr. rewrite (Hr A m). apply elem_of_map_to_list. Qed.

Lemma range_existsb {A} (m : gmap string A) (p : string * A → bool) :
  range_perm →
  existsb p (range A m) = true ↔ ∃ k v, m !! k = Some v ∧ p (k, v) = true.
Proof.
  intros Hr. rewrite existsb_exists. split.
  - intros [[k v] [Hin Hp]]. exists k, v. split; [|done].
    apply (range_elem m k v Hr). by apply list_elem_of_In.
  - intros (k & v & Hl & Hp). exists (k, v). split; [|done].
    apply list_elem_of_In. by apply (range_elem m k v Hr).
Qed.

Lemma range_forallb {A} (m : gmap string A) (p : string * A → bool) :
  range_perm →
  forallb p (range A m) = true ↔ ∀ k v, m !! k = Some v → p (k, v) = true.
Proof.
  intros Hr. rewrite forallb_forall. split.
  - intros H k v Hl. apply H, list_elem_of_In. by apply (range_elem m k v Hr).
  - intros H [k v] Hin. apply H. apply (range_elem m k v Hr).
    by apply list_elem_of_In.
Qed.

Lemma range_singleton {A} (k : string) (v : A) :
  range_perm → range A {[ k := v ]} = [(k, v)].
Proof.
  intros Hr. symmetry. apply Permutation_singleton_l.
  rewrite (Hr A). by rewrite map_to_list_singleton.
Qed.

(** ** Engine *)

(** C1.  [Train] fails with "model not initialized" when the engine has no
    descriptor; otherwise with the sample-count mismatch error when the two
    sequences differ in length; otherwise with "no training data provided"
    when they are empty.  [Predict] fails with "model not initialized"
    without a descriptor, and with "weights not initialized, model not
    trained" when a descriptor is set and the weight store is absent. *)
Theorem engine_errors (e : Engine) (inputs outputs : list (gmap string value))
    (input : gmap string value) :
  (model e = None →
     Train e inputs outputs = Returns (e, Some ErrModelNotInitialized)) ∧
  (is_Some (model e) → length inputs ≠ length outputs →
     Train e inputs outputs =
       Returns (e, Some (ErrSampleCountMismatch (length inputs) (length outputs)))) ∧
  (is_Some (model e) → length inputs = length outputs → inputs = [] →
     Train e inputs outputs = Returns (e, Some ErrNoTrainingData)) ∧
  (model e = None → Predict e input = (None, Some ErrModelNotInitialized)) ∧
  (is_Some (model e) → weights e = None →
     Predict e input = (None, Some ErrWeightsNotInitialized)).
Proof.
  unfold Train, Predict. repeat split.
  - by intros ->.
  - intros [m ->] Hne. by apply Nat.eqb_neq in Hne as ->.
  - intros [m ->] Heq ->. destruct outputs; [done | discriminate].
  - by intros ->.
  - by intros [m ->] ->.
Qed.

(** ** Auto-selection *)

Lemma scan_fold (l : list (string * value)) (a b c : bool) :
  foldl scan_step (a, b, c) l =
    (a || existsb is_string_b l, b || existsb is_numeric_b l,
     c || existsb is_boolean_b l).
Proof.
  revert a b c. induction l as [|[k v] l IH]; intros a b c; simpl.
  - by rewrite !orb_false_r.
  - destruct v; cbn; rewrite IH; cbn;
      rewrite ?orb_true_r, ?orb_false_r; reflexivity.
Qed.

Lemma binary_fold (l : list (string * value)) (b : bool) :
  foldl binary_step b l = b && forallb (λ kv, negb (non_binary_b kv)) l.
Proof.
  revert b. induction l as [|[k v] l IH]; intros b; simpl.
  - by rewrite andb_true_r.
  - rewrite IH. unfold binary_step, non_binary_b. simpl.
    destruct v; simpl; try reflexivity.
    + destruct (negb (Req_b x 0) && negb (Req_b x 1)); simpl;
        [by rewrite andb_false_r | reflexivity].
    + destruct (negb (n =? 0)%Z && negb (n =? 1)%Z); simpl;
        [by rewrite andb_false_r | reflexivity].
Qed.

Lemma has_string_range sample :
  range_perm → existsb is_string_b (range _ sample) = true ↔ has_string sample.
Proof.
  intros Hr. rewrite (range_existsb sample _ Hr). unfold has_string, is_string_b.
  split.
  - intros (k & v & Hl & Hp). destruct v; try discriminate. eauto.
  - intros (k & s & Hl). by exists k, (VString s).
Qed.

Lemma has_boolean_range sample :
  range_perm → existsb is_boolean_b (range _ sample) = true ↔ has_boolean sample.
Proof.
  intros Hr. rewrite (range_existsb sample _ Hr). unfold has_boolean, is_boolean_b.
  split.
  - intros (k & v & Hl & Hp). destruct v; try discriminate. eauto.
  - intros (k & s & Hl). by exists k, (VBool s).
Qed.

Lemma has_numeric_range sample :
  range_perm → existsb is_numeric_b (range _ sample) = true ↔ has_numeric sample.
Proof. intros Hr. by rewrite (range_existsb sample _ Hr). Qed.

Lemma non_binary_false (k : string) (v : value) :
  plain_value v → IsSupportedNumericType v = true →
  non_binary_b (k, v) = false ↔ binary_value v.
Proof.
  unfold non_binary_b, binary_value. destruct v; simpl; try done; intros _ _.
  - unfold Req_b. destruct (Req_dec_T x 0), (Req_dec_T x 1); simpl; split;
      try done; try (intros _; subst; auto; fail).
    intros [|[|[|]]]; congruence.
  - destruct (Z.eqb_spec n 0), (Z.eqb_spec n 1); simpl; split;
      try done; try (intros _; subst; auto; fail).
    intros [|[|[|]]]; congruence.
Qed.

Lemma all_binary_range sample :
  range_perm → plain_record sample →
  forallb (λ kv, negb (non_binary_b kv)) (range _ sample) = true ↔ all_binary sample.
Proof.
  intros Hr Hplain. rewrite (range_forallb sample _ Hr). unfold all_binary. split.
  - intros H k v Hl Hn. apply (non_binary_false k v); eauto.
    specialize (H k v Hl). by apply negb_true_iff in H.
  - intros H k v Hl. apply negb_true_iff.
    destruct (IsSupportedNumericType v) eqn:Hn.
    + apply (non_binary_false k v); eauto.
    + unfold non_binary_b. by destruct v.
Qed.

Lemma NewAutoModel_eq sample :
  NewAutoModel sample =
    let hasString := existsb is_string_b (range _ sample) in
    let hasNumeric := existsb is_numeric_b (range _ sample) in
    let hasBoolean := existsb is_boolean_b (range _ sample) in
    if (hasString && hasNumeric) || (hasString && hasBoolean)
       || (hasNumeric && hasBoolean)
    then NewMixedModel
    else if hasString then NewCategoricalModel
    else if (if negb hasBoolean && hasNumeric
             then forallb (λ kv, negb (non_binary_b kv)) (range _ sample)
             else hasBoolean)
    then NewLogisticModel else NewLinearModel.
Proof.
  unfold NewAutoModel. rewrite scan_fold. cbn. by rewrite binary_fold.
Qed.

Lemma bool_prop_cases (b : bool) (P : Prop) :
  (b = true ↔ P) → (b = true ∧ P) ∨ (b = false ∧ ¬ P).
Proof. destruct b; intros H; [left | right]; split; try done; [by apply H | intros HP; by apply H in HP]. Qed.

(** C2 (amended).  The sample's fields are classed by dynamic type: text,
    boolean, numeric (0 and 1 included).  Two or more classes present:
    mixed.  Otherwise text present: categorical.  Otherwise logistic when a
    boolean is present, or when numeric fields are present and each of them
    is exactly 0 or 1.  Otherwise linear. *)
Theorem auto_selection (sample : gmap string value) :
  range_perm → plain_record sample →
  (mixed_types sample → NewAutoModel sample = NewMixedModel) ∧
  (¬ mixed_types sample → has_string sample →
     NewAutoModel sample = NewCategoricalModel) ∧
  (¬ mixed_types sample → ¬ has_string sample →
     has_boolean sample ∨ (has_numeric sample ∧ all_binary sample) →
     NewAutoModel sample = NewLogisticModel) ∧
  (¬ mixed_types sample → ¬ has_string sample →
     ¬ (has_boolean sample ∨ (has_numeric sample ∧ all_binary sample)) →
     NewAutoModel sample = NewLinearModel).
Proof.
  intros Hr Hplain. rewrite NewAutoModel_eq. cbv zeta. unfold mixed_types.
  destruct (bool_prop_cases _ _ (has_string_range sample Hr)) as [[Es Hs]|[Es Hs]];
  destruct (bool_prop_cases _ _ (has_numeric_range sample Hr)) as [[En Hn]|[En Hn]];
  destruct (bool_prop_cases _ _ (has_boolean_range sample Hr)) as [[Eb Hb]|[Eb Hb]];
  destruct (bool_prop_cases _ _ (all_binary_range sample Hr Hplain))
    as [[Ea Ha]|[Ea Ha]];
  rewrite Es, En, Eb, ?Ea; cbn;
  repeat split; intros; try reflexivity; exfalso; tauto.
Qed.

(** One boolean field next to one numeric field holding 0 or 1: mixed. *)
Lemma auto_selection_boolean_and_binary (k1 k2 : string) (b : bool) (v : value) :
  range_perm → k1 ≠ k2 → binary_value v →
  NewAutoModel (<[k1 := VBool b]> {[ k2 := v ]}) = NewMixedModel.
Proof.
  intros Hr Hne Hv.
  assert (Hnum : IsSupportedNumericType v = true)
    by (destruct Hv as [-> | [-> | [-> | ->]]]; reflexivity).
  rewrite NewAutoModel_eq. cbv zeta.
  assert (existsb is_numeric_b (range _ (<[k1 := VBool b]> {[ k2 := v ]})) = true) as ->.
  { apply (has_numeric_range _ Hr). exists k2, v. split; [|done].
    rewrite lookup_insert_ne by done. apply lookup_singleton_eq. }
  assert (existsb is_boolean_b (range _ (<[k1 := VBool b]> {[ k2 := v ]})) = true) as ->.
  { apply (has_boolean_range _ Hr). exists k1, b. apply lookup_insert_eq. }
  by rewrite !orb_true_r.
Qed.

Lemma NewAutoModel_singleton (k : string) (v : value) :
  range_perm →
  NewAutoModel {[ k := v ]} =
    match v with
    | VString _ => NewCategoricalModel
    | VBool _ => NewLogisticModel
    | VInt n => if negb (n =? 0)%Z && negb (n =? 1)%Z
                then NewLinearModel else NewLogisticModel
    | VFloat64 x => if negb (Req_b x 0) && negb (Req_b x 1)
                    then NewLinearModel else NewLogisticModel
    | VFloat32 _ | VInt64 _ | VInt32 _ => NewLogisticModel
    | _ => NewLinearModel
    end.
Proof.
  intros Hr. unfold NewAutoModel. rewrite (range_singleton k v Hr).
  destruct v; cbn; try reflexivity.
  - by destruct (negb (Req_b x 0) && negb (Req_b x 1)).
  - by destruct (negb (n =? 0)%Z && negb (n =? 1)%Z).
Qed.

Lemma NewAutoModel_float_one (k : string) :
  range_perm → NewAutoModel {[ k := VFloat64 1 ]} = NewLogisticModel.
Proof.
  intros Hr. rewrite (NewAutoModel_singleton _ _ Hr).
  by rewrite (Req_b_true 1 1), andb_false_r.
Qed.

Lemma NewAutoModel_text_and_number (k1 k2 s : string) (x : R) :
  range_perm → k1 ≠ k2 →
  NewAutoModel (<[k1 := VString s]> {[ k2 := VFloat64 x ]}) = NewMixedModel.
Proof.
  intros Hr Hne. rewrite NewAutoModel_eq. cbv zeta.
  assert (existsb is_string_b
            (range _ (<[k1 := VString s]> {[ k2 := VFloat64 x ]})) = true) as ->.
  { apply (has_string_range _ Hr). exists k1, s. apply lookup_insert_eq. }
  assert (existsb is_numeric_b
            (range _ (<[k1 := VString s]> {[ k2 := VFloat64 x ]})) = true) as ->.
  { apply (has_numeric_range _ Hr). exists k2, (VFloat64 x). split; [|done].
    rewrite lookup_insert_ne by done. apply lookup_singleton_eq. }
  reflexivity.
Qed.

(** C3 (amended).  [NewAuto] on the sample v = 1.0 selects the logistic
    variant (a number other than 0 and 1, here 2.0, selects the linear one);
    on v = true it selects logistic; on v = "red" categorical; on
    v = "red", n = 1.0 mixed. *)
Theorem NewAuto_samples :
  range_perm →
  model (NewAuto {[ "v" := VFloat64 1 ]}) = Some NewLogisticModel ∧
  model (NewAuto {[ "v" := VFloat64 2 ]}) = Some NewLinearModel ∧
  model (NewAuto {[ "v" := VBool true ]}) = Some NewLogisticModel ∧
  model (NewAuto {[ "v" := VString "red" ]}) = Some NewCategoricalModel ∧
  model (NewAuto (<[ "v" := VString "red" ]> {[ "n" := VFloat64 1 ]}))
    = Some NewMixedModel.
Proof.
  intros Hr. unfold NewAuto. cbn [model]. repeat split; f_equal.
  - by apply NewAutoModel_float_one.
  - rewrite (NewAutoModel_singleton _ _ Hr).
    rewrite (Req_b_false 2 0), (Req_b_false 2 1) by lra. reflexivity.
  - by rewrite (NewAutoModel_singleton _ _ Hr).
  - by rewrite (NewAutoModel_singleton _ _ Hr).
  - by apply NewAutoModel_text_and_number.
Qed.

(** ** Outcomes *)

Lemma obind_Returns {A B} (c : outcome A) (k : A → outcome B) (b : B) :
  obind c k = Returns b → ∃ a, c = Returns a ∧ k a = Returns b.
Proof. destruct c; simpl; intros H; try discriminate. eauto. Qed.

Lemma ofold_invariant {A S} (P : S → Prop) (f : S → A → outcome S) (l : list A) :
  (∀ s a s', P s → f s a = Returns s' → P s') →
  ∀ s s', P s → ofold f s l = Returns s' → P s'.
Proof.
  intros Hf. induction l as [|a l IH]; simpl; intros s s' Hs H.
  - by inversion H; subst.
  - apply obind_Returns in H as (s1 & H1 & H2). eauto.
Qed.

(** With a batch size of at least 1 the batch loop needs no more than
    [n] rounds: it returns whenever its body does. *)
Lemma batch_loop_returns {S} (body : nat → nat → S → outcome S)
    (n batchSize : nat) :
  (1 <= batchSize)%nat →
  (∀ batchStart batchEnd s, ∃ s', body batchStart batchEnd s = Returns s') →
  ∀ s, ∃ s', batch_loop n body n batchSize 0 s = Returns s'.
Proof.
  intros Hsize Hbody.
  assert (∀ fuel batchStart s, (n <= batchStart + fuel * batchSize)%nat →
            ∃ s', batch_loop fuel body n batchSize batchStart s = Returns s') as H.
  { induction fuel as [|fuel IH]; intros batchStart s Hle; simpl.
    - destruct (Nat.ltb_spec batchStart n); [lia | eauto].
    - destruct (Nat.ltb_spec batchStart n); [|eauto].
      destruct (Hbody batchStart
                  (if (n <? batchStart + batchSize)%nat then n
                   else (batchStart + batchSize)%nat) s) as [s1 ->].
      simpl. apply IH. lia. }
  intros s. apply H. nia.
Qed.

(** ** Boolean values in the inline type switches *)

Lemma feature_float_boolean (feature : string) (b : bool) :
  feature_float feature (VBool b) = None.
Proof. reflexivity. Qed.

Lemma target_float_boolean (b : bool) : target_float (VBool b) = None.
Proof. reflexivity. Qed.

Lemma input_step_boolean weights (target feature : string) (b : bool) (acc : R) :
  input_step weights target acc (feature, VBool b) = acc.
Proof. unfold input_step. by destruct (GetFloat _ _) as [w []]. Qed.

Lemma ConvertToFloat64_boolean (b : bool) (key : string) :
  ConvertToFloat64 (VBool b) key = (if b then 1%R else 0%R, true).
Proof. by destruct b. Qed.

(** ** Category tables only grow *)

Lemma assign_fold_preserves (l : list (string * Z)) (acc : gmap string Z * Z)
    (label : string) (index : Z) :
  acc.1 !! label = Some index →
  (foldl assign_step acc l).1 !! label = Some index.
Proof.
  revert acc. induction l as [|[c n] l IH]; intros acc H; simpl; [done|].
  apply IH. unfold assign_step. simpl.
  destruct (acc.1 !! c) eqn:Hc; [done|]. simpl.
  rewrite lookup_insert_ne; [done|]. intros ->. congruence.
Qed.

Lemma assign_categories_preserves outputs
    (categories : gmap string (gmap string Z)) (target t label : string) (index : Z) :
  category_index (Some categories) t label = Some index →
  category_index (Some (assign_categories outputs categories target)) t label
    = Some index.
Proof.
  unfold category_index, assign_categories. simpl. intros H.
  destruct (decide (target = t)) as [->|Hne].
  - rewrite lookup_insert_eq. simpl. apply assign_fold_preserves. simpl.
    destruct (categories !! t); simpl in *; [done | discriminate].
  - by rewrite lookup_insert_ne.
Qed.

Lemma discover_categories_preserves outputs (targets : list string) (model : Model)
    (t label : string) (index : Z) :
  category_index (Categories model) t label = Some index →
  category_index (Some (discover_categories outputs targets model)) t label
    = Some index.
Proof.
  unfold discover_categories.
  assert (category_index (Categories model) t label
          = category_index (Some (default ∅ (Categories model))) t label) as ->
    by reflexivity.
  generalize (default ∅ (Categories model)).
  induction targets as [|target targets IH]; intros categories H; simpl; [done|].
  apply IH. by apply assign_categories_preserves.
Qed.

Lemma categories_preserved_refl (model : Model) : categories_preserved model model.
Proof. by intros ???. Qed.

Lemma categories_preserved_trans (m1 m2 m3 : Model) :
  categories_preserved m1 m2 → categories_preserved m2 m3 →
  categories_preserved m1 m3.
Proof. intros H12 H23 t label index H. by apply H23, H12. Qed.

Lemma trainCategoricalModel_descriptor inputs outputs weights config model r :
  trainCategoricalModel inputs outputs weights config model = Returns r →
  categories_preserved model r.1.2 ∧ Targets r.1.2 = Targets model.
Proof.
  unfold trainCategoricalModel. intros H.
  destruct inputs as [|input0 inputs'];
    [inversion H; subst; split; [apply categories_preserved_refl | done]|].
  destruct outputs as [|output0 outputs'];
    [inversion H; subst; split; [apply categories_preserved_refl | done]|].
  apply obind_Returns in H as (w & _ & H). inversion H; subst; simpl.
  split; [|done]. intros t label index Hi.
  by apply discover_categories_preserves.
Qed.

Lemma categories_preserved_with_Targets (model : Model) targets :
  categories_preserved model (with_Targets model targets).
Proof. by intros ???. Qed.

Lemma trainMixedModel_descriptor inputs outputs weights config model r :
  trainMixedModel inputs outputs weights config model = Returns r →
  categories_preserved model r.1.2.
Proof.
  unfold trainMixedModel. intros H.
  destruct outputs as [|output0 outputs'];
    [inversion H; subst; apply categories_preserved_refl|].
  apply obind_Returns in H as (acc & _ & H).
  apply obind_Returns in H as (r1 & _ & H).
  destruct (r1.2);
    [inversion H; subst; apply categories_preserved_with_Targets|].
  apply obind_Returns in H as (r2 & H2 & H).
  assert (categories_preserved model r2.1.2) as Hcat.
  { apply (categories_preserved_trans _ (with_Targets model acc.1));
      [apply categories_preserved_with_Targets|].
    destruct (0 <? target_count (categoricalOutputs acc.2))%nat.
    - by apply trainCategoricalModel_descriptor in H2 as [H2 _].
    - inversion H2; subst. apply categories_preserved_refl. }
  destruct (r2.2); [by inversion H; subst|].
  apply obind_Returns in H as (r3 & _ & H).
  destruct (r3.2); by inversion H; subst.
Qed.

(** C8.  A call of the categorical or of the mixed trainer that returns
    leaves every (target, label, index) entry of the descriptor's category
    table in place: no label is removed and none gets another index. *)
Theorem categories_only_grow inputs outputs weights config model r :
  (trainCategoricalModel inputs outputs weights config model = Returns r →
     categories_preserved model r.1.2) ∧
  (trainMixedModel inputs outputs weights config model = Returns r →
     categories_preserved model r.1.2).
Proof.
  split; intros H.
  - by apply trainCategoricalModel_descriptor in H as [H _].
  - by apply trainMixedModel_descriptor in H.
Qed.

(** The same through the engine, for every variant and every outcome of
    [Train], hence along any sequence of training calls. *)
Lemma Train_preserves_categories (e : Engine) inputs outputs r m :
  Train e inputs outputs = Returns r → model e = Some m →
  ∃ m', model r.1 = Some m' ∧ categories_preserved m m'.
Proof.
  unfold Train. intros H Hm. rewrite Hm in H.
  assert (∀ e', model e' = Some m →
            ∃ m', model e' = Some m' ∧ categories_preserved m m')
    as Hsame by (intros e' He'; exists m; split;
                 [done | apply categories_preserved_refl]).
  destruct (negb (length inputs =? length outputs)%nat);
    [inversion H; subst; by apply Hsame|].
  destruct (length inputs =? 0)%nat; [inversion H; subst; by apply Hsame|].
  apply obind_Returns in H as (r' & Ht & H). inversion H; subst; simpl.
  eexists; split; [done|]. revert Ht. unfold Model_Train.
  destruct (String.eqb (Type_ m) "linear").
  { intros Ht. apply obind_Returns in Ht as (? & _ & Ht). inversion Ht; subst.
    apply categories_preserved_refl. }
  destruct (String.eqb (Type_ m) "logistic").
  { intros Ht. apply obind_Returns in Ht as (? & _ & Ht). inversion Ht; subst.
    apply categories_preserved_refl. }
  destruct (String.eqb (Type_ m) "categorical").
  { intros Ht. by apply trainCategoricalModel_descriptor in Ht as [Ht _]. }
  destruct (String.eqb (Type_ m) "mixed").
  { intros Ht. by apply trainMixedModel_descriptor in Ht. }
  intros Ht. inversion Ht; subst. apply categories_preserved_refl.
Qed.

(** ** Mixed prediction *)

Lemma foldl_invariant {A S} (P : S → Prop) (Q : A → Prop) (f : S → A → S)
    (l : list A) :
  (∀ s a, P s → Q a → P (f s a)) → Forall Q l → ∀ s, P s → P (foldl f s l).
Proof.
  intros Hf. induction 1 as [|a l Ha Hl IH]; intros s Hs; simpl; [done|].
  apply IH. by apply Hf.
Qed.

Lemma range_Forall {A} (m : gmap string A) :
  range_perm → Forall (λ kv, m !! kv.1 = Some kv.2) (range A m).
Proof.
  intros Hr. apply Forall_forall. intros [k v] Hin. by apply (range_elem m k v Hr).
Qed.

(** The logistic predictor only produces [float64] values. *)
Lemma predictLogisticModel_floats input weights k v :
  (predictLogisticModel input weights).1 !! k = Some v → ∃ prob, v = VFloat64 prob.
Proof.
  unfold predictLogisticModel. simpl.
  generalize (range bool (collect_targets weights)). intros l. revert k v.
  apply (foldl_invariant
           (λ result : gmap string value,
              ∀ k v, result !! k = Some v → ∃ prob, v = VFloat64 prob)
           (λ _, True)).
  - intros result [t b] IH _ k v. simpl.
    destruct (decide (t = k)) as [->|Hne].
    + rewrite lookup_insert_eq. intros [= <-]. eauto.
    + rewrite lookup_insert_ne by done. apply IH.
  - by apply Forall_forall.
  - intros k v. by rewrite lookup_empty.
Qed.

(** C9.  Every field of a mixed prediction is either a field of the linear
    prediction whose recorded target type is "numeric", or a field of the
    categorical prediction whose recorded type is "categorical", or the
    "_probs" sibling of such a field, taken from the categorical prediction,
    or a field of the logistic prediction whose recorded type is "boolean",
    turned into the boolean [prob >= 0.5]. *)
Theorem mixed_prediction_fields input weights model result :
  range_perm →
  predictMixedModel input weights model = (Some result, None) →
  ∀ k v, result !! k = Some v →
    field_source model (predictLinearModel input weights).1
      (predictCategoricalModel input weights model).1
      (predictLogisticModel input weights).1 k v.
Proof.
  intros Hr. unfold predictMixedModel.
  pose proof (predictLogisticModel_floats input weights) as Hfloat.
  destruct (predictLinearModel input weights) as [linearPred err1] eqn:E1.
  destruct (predictCategoricalModel input weights model) as [catPred err2] eqn:E2.
  destruct (predictLogisticModel input weights) as [logPred err3] eqn:E3.
  simpl in *. destruct err1; [discriminate|]. destruct err2; [discriminate|].
  destruct err3; [discriminate|]. intros [= <-].
  set (P := λ result : gmap string value,
         ∀ k v, result !! k = Some v → field_source model linearPred catPred logPred k v).
  change (P (foldl (merge_logistic model)
               (foldl (merge_categorical model catPred)
                  (foldl (merge_linear model) ∅ (range _ linearPred))
                  (range _ catPred))
               (range _ logPred))).
  apply (foldl_invariant P (λ kv, logPred !! kv.1 = Some kv.2));
    [| by apply range_Forall |].
  { intros result [t v'] IH Hl k v. unfold merge_logistic. simpl in *.
    destruct (target_type_is model t "boolean") eqn:Ht; [|apply IH].
    destruct (Hfloat t v' Hl) as [prob ->].
    destruct (decide (t = k)) as [->|Hne].
    - rewrite lookup_insert_eq. intros [= <-]. right. right. right. eauto.
    - rewrite lookup_insert_ne by done. apply IH. }
  apply (foldl_invariant P (λ kv, catPred !! kv.1 = Some kv.2));
    [| by apply range_Forall |].
  { intros result [t v'] IH Hl k v. unfold merge_categorical. simpl in *.
    destruct (target_type_is model t "categorical") eqn:Ht; [|apply IH].
    assert (P (<[t := v']> result)) as IH'.
    { intros k0 v0. destruct (decide (t = k0)) as [->|Hne].
      - rewrite lookup_insert_eq. intros [= <-]. right. left. eauto.
      - rewrite lookup_insert_ne by done. apply IH. }
    destruct (catPred !! (t +:+ "_probs")) as [probs|] eqn:Hp; [|apply IH'].
    destruct (decide (t +:+ "_probs" = k)) as [<-|Hne].
    - rewrite lookup_insert_eq. intros [= <-]. right. right. left.
      exists t. eauto.
    - rewrite lookup_insert_ne by done. apply IH'. }
  apply (foldl_invariant P (λ kv, linearPred !! kv.1 = Some kv.2));
    [| by apply range_Forall |].
  { intros result [t v'] IH Hl k v. unfold merge_linear. simpl in *.
    destruct (target_type_is model t "numeric") eqn:Ht; [|apply IH].
    destruct (decide (t = k)) as [->|Hne].
    - rewrite lookup_insert_eq. intros [= <-]. left. eauto.
    - rewrite lookup_insert_ne by done. apply IH. }
  intros k v. by rewrite lookup_empty.
Qed.

(** ** Loops that fill a map *)

Lemma range_NoDup {A} (m : gmap string A) : range_perm → NoDup (range A m).*1.
Proof. intros Hr. rewrite (Hr A m). apply NoDup_fst_map_to_list. Qed.

Lemma fold_insert_notin {A B} (g : string → A → B) (l : list (string * A))
    (acc : gmap string B) (k : string) :
  k ∉ l.*1 →
  foldl (λ acc kv, <[kv.1 := g kv.1 kv.2]> acc) acc l !! k = acc !! k.
Proof.
  revert acc. induction l as [|[k' v'] l IH]; intros acc Hk; simpl; [done|].
  rewrite fmap_cons in Hk. apply not_elem_of_cons in Hk as [Hne Hk].
  rewrite IH by done. by rewrite lookup_insert_ne.
Qed.

Lemma fold_insert_in {A B} (g : string → A → B) (l : list (string * A))
    (acc : gmap string B) (k : string) (v : A) :
  NoDup l.*1 → (k, v) ∈ l →
  foldl (λ acc kv, <[kv.1 := g kv.1 kv.2]> acc) acc l !! k = Some (g k v).
Proof.
  revert acc. induction l as [|[k' v'] l IH]; intros acc Hnd Hin; simpl.
  - by apply elem_of_nil in Hin.
  - rewrite fmap_cons in Hnd. apply NoDup_cons in Hnd as [Hk' Hnd].
    apply elem_of_cons in Hin as [[= <- <-]|Hin].
    + rewrite fold_insert_notin by done. apply lookup_insert_eq.
    + by apply IH.
Qed.

Lemma fold_insert_range {A B} (g : string → A → B) (m : gmap string A) (k : string) :
  range_perm →
  foldl (λ acc kv, <[kv.1 := g kv.1 kv.2]> acc) (∅ : gmap string B) (range A m) !! k
    = g k <$> m !! k.
Proof.
  intros Hr. destruct (m !! k) as [v|] eqn:Hk; simpl.
  - apply fold_insert_in; [by apply range_NoDup | by apply range_elem].
  - rewrite fold_insert_notin; [apply lookup_empty|].
    intros Hin. apply list_elem_of_fmap in Hin as ([k' v] & -> & Hin).
    apply (range_elem m k' v Hr) in Hin. simpl in Hk. congruence.
Qed.

Lemma fold_insert_fmap {A B} (g : A → B) (m : gmap string A) :
  range_perm →
  foldl (λ acc kv, <[kv.1 := g kv.2]> acc) (∅ : gmap string B) (range A m)
    = g <$> m.
Proof.
  intros Hr. apply map_eq. intros k.
  rewrite (fold_insert_range (λ _, g) m k Hr). by rewrite lookup_fmap.
Qed.

(** ** Sums *)

Lemma Rsum_Permutation (l1 l2 : list R) : l1 ≡ₚ l2 → Rsum l1 = Rsum l2.
Proof.
  induction 1; simpl; lra.
Qed.

Lemma Rsum_scale (c : R) (l : list R) :
  Rsum ((λ x, x / c)%R <$> l) = (Rsum l / c)%R.
Proof.
  induction l as [|x l IH].
  - unfold Rsum, Rdiv. simpl. ring.
  - rewrite fmap_cons. unfold Rsum in *. simpl. rewrite IH. unfold Rdiv. ring.
Qed.

Lemma Rsum_pos (l : list R) :
  l ≠ [] → Forall (λ x, 0 < x)%R l → (0 < Rsum l)%R.
Proof.
  intros Hne Hall. destruct l as [|x l]; [done|]. clear Hne.
  revert x Hall. induction l as [|y l IH]; intros x Hall; simpl.
  - apply Forall_cons in Hall as [Hx _]. lra.
  - apply Forall_cons in Hall as [Hx Hall]. specialize (IH y Hall). simpl in IH. lra.
Qed.

Lemma Rsum_elem_le (l : list R) (x : R) :
  Forall (λ x, 0 < x)%R l → x ∈ l → (x <= Rsum l)%R.
Proof.
  induction l as [|y l IH]; intros Hall Hin; [by apply elem_of_nil in Hin|].
  apply Forall_cons in Hall as [Hy Hall]. simpl.
  destruct l as [|z l].
  - apply elem_of_cons in Hin as [->|Hin]; [simpl; lra | by apply elem_of_nil in Hin].
  - assert (0 < Rsum (z :: l))%R by (apply Rsum_pos; done).
    apply elem_of_cons in Hin as [->|Hin]; [lra|]. specialize (IH Hall Hin). lra.
Qed.

Lemma fold_sum (e : string * R → R) (l : list (string * R))
    (acc : gmap string R * R) :
  foldl (λ acc kv, (<[kv.1 := e kv]> acc.1, (acc.2 + e kv)%R)) acc l
  = (foldl (λ m kv, <[kv.1 := e kv]> m) acc.1 l, (acc.2 + Rsum (e <$> l))%R).
Proof.
  revert acc. induction l as [|kv l IH]; intros [m s].
  - unfold Rsum. simpl. f_equal. ring.
  - rewrite fmap_cons. cbn [foldl]. rewrite IH. unfold Rsum. simpl. f_equal. ring.
Qed.

Lemma map_sum_fmap (g : R → R) (m : gmap string R) :
  map_sum (g <$> m) = Rsum (g <$> (map_to_list m).*2).
Proof.
  unfold map_sum. apply Rsum_Permutation.
  rewrite map_to_list_fmap. rewrite <- !list_fmap_compose.
  replace (snd ∘ prod_map Datatypes.id g <$> map_to_list m)
    with (g ∘ snd <$> map_to_list m); [done|].
  apply list_fmap_ext. by intros i [k v] _.
Qed.

Lemma map_sum_range (m : gmap string R) :
  range_perm → Rsum (range R m).*2 = map_sum m.
Proof. intros Hr. unfold map_sum. apply Rsum_Permutation. by rewrite (Hr R m). Qed.

(** ** Softmax *)

Lemma softmax_eq (scores : gmap string R) :
  range_perm →
  softmax scores =
    let expScores := (λ s, exp (s - max_score scores)) <$> scores in
    (λ e, e / map_sum expScores)%R <$> expScores.
Proof.
  intros Hr. unfold softmax. fold (max_score scores).
  set (mx := max_score scores).
  rewrite (fold_sum (λ kv, exp (kv.2 - mx)) (range R scores) (∅, 0%R)).
  cbn [fst snd].
  set (es := foldl _ _ (range R scores)).
  assert (es = (λ s, exp (s - mx)) <$> scores) as ->
    by apply (fold_insert_fmap (λ s, exp (s - mx)) scores Hr).
  set (total := (0 + Rsum _)%R).
  assert (total = map_sum ((λ s, exp (s - mx)) <$> scores)) as ->.
  { unfold total. rewrite map_sum_fmap, Rplus_0_l.
    transitivity (Rsum ((λ s, exp (s - mx)) <$> (range R scores).*2)).
    - rewrite <- list_fmap_compose. reflexivity.
    - apply Rsum_Permutation. by rewrite (Hr R scores). }
  cbv zeta.
  apply (fold_insert_fmap
           (λ e, e / map_sum ((λ s, exp (s - mx)) <$> scores))%R _ Hr).
Qed.

Lemma exp_scores_positive (mx : R) (scores : gmap string R) :
  Forall (λ x, 0 < x)%R (map_to_list ((λ s, exp (s - mx)) <$> scores)).*2.
Proof.
  apply Forall_forall. intros x Hin.
  apply list_elem_of_fmap in Hin as ([k e] & -> & Hin).
  apply elem_of_map_to_list in Hin. rewrite lookup_fmap in Hin.
  destruct (scores !! k); simpl in Hin; [|discriminate].
  inversion Hin; subst. apply exp_pos.
Qed.

Lemma softmax_distribution (scores : gmap string R) :
  range_perm → scores ≠ ∅ → distribution (softmax scores).
Proof.
  intros Hr Hne. rewrite (softmax_eq scores Hr). cbv zeta.
  set (mx := max_score scores).
  set (es := (λ s, exp (s - mx)) <$> scores).
  pose proof (exp_scores_positive mx scores) as Hpos. fold es in Hpos.
  assert (0 < map_sum es)%R as HS.
  { apply Rsum_pos; [|done]. intros Hnil.
    apply fmap_nil_inv, map_to_list_empty_iff in Hnil.
    apply Hne. by apply fmap_empty_inv in Hnil. }
  split.
  - rewrite map_sum_fmap, Rsum_scale. fold (map_sum es). by field; lra.
  - intros c p. rewrite lookup_fmap. destruct (es !! c) as [e|] eqn:He; [|done].
    simpl. intros [= <-].
    assert (e ∈ (map_to_list es).*2) as Hin.
    { apply list_elem_of_fmap. exists (c, e). split; [done|].
      by apply elem_of_map_to_list. }
    pose proof (Rsum_elem_le _ _ Hpos Hin) as Hle. fold (map_sum es) in Hle.
    assert (0 < e)%R as He0.
    { rewrite Forall_forall in Hpos. by apply Hpos. }
    split.
    + apply Rlt_le. by apply Rdiv_lt_0_compat.
    + apply (Rmult_le_reg_r (map_sum es)); [done|].
      unfold Rdiv. rewrite Rmult_assoc, Rinv_l by lra. lra.
Qed.

(** ** Categorical prediction *)

Lemma copy_map (probabilities : gmap string R) :
  range_perm →
  foldl (λ probsMap kv, <[kv.1 := kv.2]> probsMap) (∅ : gmap string R)
        (range _ probabilities) = probabilities.
Proof.
  intros Hr. rewrite <- (map_fmap_id probabilities) at 2.
  apply (fold_insert_fmap id probabilities Hr).
Qed.

Lemma category_scores_lookup input weights target (categories : gmap string Z) c :
  range_perm →
  foldl (λ scores kv,
           <[kv.1 := input_combination weights (categoryKey target kv.1) input]> scores)
        (∅ : gmap string R) (range _ categories) !! c
  = (λ _, input_combination weights (categoryKey target c) input) <$> categories !! c.
Proof.
  intros Hr.
  apply (fold_insert_range
           (λ k _, input_combination weights (categoryKey target k) input)
           categories c Hr).
Qed.

Lemma target_probabilities_distribution input weights target
    (categories : gmap string Z) :
  range_perm → categories ≠ ∅ →
  distribution (target_probabilities input weights target categories).
Proof.
  intros Hr Hne. unfold target_probabilities. apply softmax_distribution; [done|].
  intros Hempty. apply Hne. apply map_empty. intros c.
  pose proof (category_scores_lookup input weights target categories c Hr) as Hc.
  rewrite Hempty, lookup_empty in Hc. by destruct (categories !! c).
Qed.

Lemma restore_label_not_probs (label : string) (probs : gmap string R) :
  restore_label label ≠ VProbs probs.
Proof. unfold restore_label. by repeat case_match. Qed.

Lemma predictCategoricalModel_probs input weights model k probs :
  range_perm →
  (predictCategoricalModel input weights model).1 !! k = Some (VProbs probs) →
  distribution probs.
Proof.
  intros Hr. unfold predictCategoricalModel. cbn [fst].
  generalize (range _ (default ∅ (Categories model))). intros l. revert k probs.
  apply (foldl_invariant
           (λ result : gmap string value,
              ∀ k probs, result !! k = Some (VProbs probs) → distribution probs)
           (λ _, True)).
  - intros result [target categories] IH _ k probs. unfold predict_target.
    destruct (size categories <=? 0)%nat eqn:Hsize; [apply IH|].
    destruct (negb (String.eqb _ "")); [|apply IH].
    rewrite (copy_map _ Hr).
    destruct (decide (target +:+ "_probs" = k)) as [<-|Hne1].
    + rewrite lookup_insert_eq. intros [= <-].
      apply target_probabilities_distribution; [done|].
      intros ->. by rewrite map_size_empty in Hsize.
    + rewrite lookup_insert_ne by done.
      destruct (decide (target = k)) as [<-|Hne2].
      * rewrite lookup_insert_eq. intros [= H]. by apply restore_label_not_probs in H.
      * rewrite lookup_insert_ne by done. apply IH.
  - by apply Forall_forall.
  - intros k probs. by rewrite lookup_empty.
Qed.

(** C7.  In exact arithmetic, every probability map a categorical
    prediction returns sums to 1, hence to 1 within 1e-6, and each of its
    values lies between 0 and 1. *)
Theorem probs_sum_to_one input weights model k probs :
  range_perm →
  (predictCategoricalModel input weights model).1 !! k = Some (VProbs probs) →
  (Rabs (map_sum probs - 1) <= 0.000001)%R ∧
  ∀ c p, probs !! c = Some p → (0 <= p <= 1)%R.
Proof.
  intros Hr H. apply (predictCategoricalModel_probs _ _ _ _ _ Hr) in H as [Hsum Hval].
  split; [|done]. rewrite Hsum, Rminus_diag, Rabs_R0. lra.
Qed.

(** ** A target with a single label *)

Lemma length_append (s1 s2 : string) :
  String.length (s1 +:+ s2) = (String.length s1 + String.length s2)%nat.
Proof. induction s1 as [|a s1 IH]; simpl; [done | by rewrite IH]. Qed.

Lemma append_inj_r (s1 s2 x : string) : s1 +:+ x = s2 +:+ x → s1 = s2.
Proof.
  revert s2. induction s1 as [|a s1 IH]; intros [|b s2] H; simpl in H.
  - done.
  - apply (f_equal String.length) in H. simpl in H.
    rewrite !length_append in H. simpl in H. lia.
  - apply (f_equal String.length) in H. simpl in H.
    rewrite !length_append in H. simpl in H. lia.
  - injection H as -> H. f_equal. by apply IH.
Qed.

Lemma softmax_singleton (c : string) (s : R) :
  range_perm → softmax {[ c := s ]} = {[ c := 1%R ]}.
Proof.
  intros Hr. rewrite (softmax_eq _ Hr). cbv zeta.
  rewrite !map_fmap_singleton. f_equal.
  unfold map_sum. rewrite map_to_list_singleton. unfold Rsum. simpl.
  pose proof (exp_pos (s - max_score {[ c := s ]})). by field; lra.
Qed.

Lemma best_category_singleton (c : string) :
  range_perm → best_category {[ c := 1%R ]} = c.
Proof.
  intros Hr. unfold best_category. rewrite (range_singleton c _ Hr). simpl.
  by rewrite Rgt_b_true by lra.
Qed.

Lemma target_probabilities_singleton input weights target (label : string) (index : Z) :
  range_perm →
  target_probabilities input weights target {[ label := index ]} = {[ label := 1%R ]}.
Proof.
  intros Hr. unfold target_probabilities. rewrite (range_singleton label index Hr).
  simpl. rewrite insert_empty. by apply softmax_singleton.
Qed.

Lemma predict_target_singleton input weights result target (label : string) (index : Z) :
  range_perm → label ≠ "" →
  predict_target input weights result (target, {[ label := index ]})
  = <[target +:+ "_probs" := VProbs {[ label := 1%R ]}]>
      (<[target := restore_label label]> result).
Proof.
  intros Hr Hne. unfold predict_target. rewrite map_size_singleton. simpl.
  rewrite (target_probabilities_singleton _ _ _ _ _ Hr).
  rewrite (best_category_singleton _ Hr), (copy_map _ Hr).
  destruct (String.eqb_spec label ""); [done|]. reflexivity.
Qed.

Lemma predict_target_other input weights result (t : string)
    (categories : gmap string Z) (k : string) :
  t ≠ k → t +:+ "_probs" ≠ k →
  predict_target input weights result (t, categories) !! k = result !! k.
Proof.
  intros H1 H2. unfold predict_target.
  destruct (size categories <=? 0)%nat; [done|].
  destruct (negb _); [|done]. by rewrite !lookup_insert_ne.
Qed.

Lemma predict_fold_keep input weights (l : list (string * gmap string Z))
    (result : gmap string value) (k : string) :
  (∀ t c, (t, c) ∈ l → t ≠ k ∧ t +:+ "_probs" ≠ k) →
  foldl (predict_target input weights) result l !! k = result !! k.
Proof.
  revert result. induction l as [|[t c] l IH]; intros result Hl; [done|].
  cbn [foldl]. rewrite IH by (intros t' c' Hin; apply (Hl t' c'); by right).
  destruct (Hl t c) as [Ha Hb]; [by left|]. by apply predict_target_other.
Qed.

Lemma predict_fold_lookup input weights (l : list (string * gmap string Z))
    (result : gmap string value) (target : string) (categories : gmap string Z)
    (k : string) (v : value) :
  NoDup l.*1 → (target, categories) ∈ l →
  (∀ res, predict_target input weights res (target, categories) !! k = Some v) →
  (∀ t c, (t, c) ∈ l → t ≠ target → t ≠ k ∧ t +:+ "_probs" ≠ k) →
  foldl (predict_target input weights) result l !! k = Some v.
Proof.
  intros Hnd Hin Hstep Hother. revert result Hnd Hin Hother.
  induction l as [|[t c] l IH]; intros result Hnd Hin Hother;
    [by apply elem_of_nil in Hin|].
  rewrite fmap_cons in Hnd. apply NoDup_cons in Hnd as [Ht Hnd]. cbn [foldl].
  apply elem_of_cons in Hin as [[= <- <-]|Hin].
  - rewrite predict_fold_keep; [apply Hstep|].
    intros t' c' Hin'. apply (Hother t' c'); [by right|].
    intros ->. apply Ht. apply list_elem_of_fmap. by exists (target, c').
  - apply IH; [done | done |].
    intros t' c' Hin' Hne. apply (Hother t' c'); [by right | done].
Qed.

Lemma predict_target_empty_label input weights result target (index : Z) :
  range_perm →
  predict_target input weights result (target, {[ "" := index ]}) = result.
Proof.
  intros Hr. unfold predict_target. rewrite map_size_singleton. simpl.
  rewrite (target_probabilities_singleton _ _ _ _ _ Hr).
  by rewrite (best_category_singleton _ Hr).
Qed.

Lemma count_fold_single (target label : string) (outputs : list (gmap string value))
    (n : Z) :
  (∀ out v, out ∈ outputs → out !! target = Some v → Sprintf_v v = label) →
  ∃ n',
    foldl (λ categoryCount out,
             match out !! target with
             | Some val =>
                 let category := Sprintf_v val in
                 <[category := (default 0 (categoryCount !! category) + 1)%Z]>
                   categoryCount
             | None => categoryCount
             end)
          ({[ label := n ]} : gmap string Z) outputs = {[ label := n' ]}.
Proof.
  revert n. induction outputs as [|out outputs IH]; intros n Hall; simpl; [eauto|].
  destruct (out !! target) as [v|] eqn:Hv.
  - rewrite (Hall out v) by (done || by left). cbv zeta.
    rewrite insert_singleton_eq. apply IH.
    intros out' v' Hin. apply Hall. by right.
  - apply IH. intros out' v' Hin. apply Hall. by right.
Qed.

Lemma count_categories_single (target label : string) (output0 : gmap string value)
    (outputs : list (gmap string value)) :
  is_Some (output0 !! target) →
  (∀ out v, out ∈ output0 :: outputs → out !! target = Some v → Sprintf_v v = label) →
  ∃ n, count_categories target (output0 :: outputs) = {[ label := n ]}.
Proof.
  intros [v0 Hv0] Hall. unfold count_categories. cbn [foldl]. rewrite Hv0.
  rewrite (Hall output0 v0) by (done || by left). cbv zeta.
  rewrite insert_empty. apply count_fold_single.
  intros out v Hin. apply Hall. by right.
Qed.

Lemma discover_fold_notin outputs (targets : list string)
    (categories : gmap string (gmap string Z)) (target : string) :
  target ∉ targets →
  foldl (assign_categories outputs) categories targets !! target = categories !! target.
Proof.
  revert categories. induction targets as [|t targets IH]; intros categories Hn; [done|].
  apply not_elem_of_cons in Hn as [Hne Hn]. cbn [foldl]. rewrite IH by done.
  unfold assign_categories. by rewrite lookup_insert_ne.
Qed.

Lemma discover_fold_in outputs (targets : list string)
    (categories : gmap string (gmap string Z)) (target : string) :
  NoDup targets → target ∈ targets →
  foldl (assign_categories outputs) categories targets !! target
  = Some (foldl assign_step (default ∅ (categories !! target), 0%Z)
            (range _ (count_categories target outputs))).1.
Proof.
  revert categories. induction targets as [|t targets IH];
    intros categories Hnd Hin; [by apply elem_of_nil in Hin|].
  apply NoDup_cons in Hnd as [Ht Hnd]. cbn [foldl].
  apply elem_of_cons in Hin as [->|Hin].
  - rewrite discover_fold_notin by done.
    unfold assign_categories. by rewrite lookup_insert_eq.
  - rewrite IH by done. unfold assign_categories.
    rewrite lookup_insert_ne; [done|]. intros ->. by apply Ht.
Qed.

(** C10 (amended).  The descriptor has no category yet for [target]; the
    first training output carries the target; every training output that
    carries it has the same label, and the label is not the empty text.
    Then (1) the category table gives the target that single label, with
    index 0; (2) the training phase of the target returns the weight store
    it is given: no weight, no bias is written; (3) every prediction with
    the trained descriptor, whatever the input and the weight store, holds
    the label, converted back by [restore_label], under the target, and the
    map sending the label to probability 1 under target_probs, as long as
    no other target of the descriptor is named target_probs or is the
    target's name without its "_probs" ending. *)
Theorem single_label_target inputs outputs weights config model r
    (target label : string) (output0 : gmap string value) :
  range_perm →
  trainCategoricalModel inputs outputs weights config model = Returns r →
  inputs ≠ [] → head outputs = Some output0 → is_Some (output0 !! target) →
  default ∅ (Categories model) !! target = None →
  (∀ out v, out ∈ outputs → out !! target = Some v → Sprintf_v v = label) →
  label ≠ "" →
  (∀ t, is_Some (default ∅ (Categories r.1.2) !! t) → t ≠ target →
        t ≠ target +:+ "_probs" ∧ t +:+ "_probs" ≠ target) →
  default ∅ (Categories r.1.2) !! target = Some {[ label := 0%Z ]} ∧
  (∀ features' inputs' outputs' config' w,
     train_target features' inputs' outputs' config'
       (default ∅ (Categories r.1.2)) w target = Returns w) ∧
  (∀ input w,
     (predictCategoricalModel input w r.1.2).1 !! target
       = Some (restore_label label) ∧
     (predictCategoricalModel input w r.1.2).1 !! (target +:+ "_probs")
       = Some (VProbs {[ label := 1%R ]})).
Proof.
  intros Hr Htrain Hin Hhead Htarget Hfresh Hlabels Hne Hnames.
  unfold trainCategoricalModel in Htrain.
  destruct inputs as [|input0 inputs']; [done|].
  destruct outputs as [|out0 outputs']; [done|]. simpl in Hhead.
  injection Hhead as ->.
  apply obind_Returns in Htrain as (w' & _ & Htrain).
  inversion Htrain; subst r; clear Htrain.
  cbn [fst snd Categories with_Categories default from_option Datatypes.id] in *.
  assert (discover_categories (output0 :: outputs') (range value output0).*1 model
            !! target = Some {[ label := 0%Z ]}) as Hcat.
  { unfold discover_categories. rewrite discover_fold_in.
    - rewrite Hfresh. simpl.
      destruct (count_categories_single target label output0 outputs' Htarget Hlabels)
        as [n ->].
      rewrite (range_singleton label n Hr). simpl.
      unfold assign_step. simpl. rewrite lookup_empty. simpl.
      by rewrite insert_empty.
    - by apply range_NoDup.
    - destruct Htarget as [v Hv]. apply list_elem_of_fmap. exists (target, v).
      split; [done|]. by apply (range_elem output0 target v Hr). }
  split; [done|]. split.
  - intros features' inputs'' outputs'' config' w. unfold train_target.
    rewrite Hcat. simpl. by rewrite map_size_singleton.
  - intros input w. unfold predictCategoricalModel.
    cbn [fst Categories with_Categories default from_option Datatypes.id].
    set (cats := discover_categories _ _ _) in *.
    assert (NoDup (range _ cats).*1) as Hnd by by apply range_NoDup.
    assert ((target, {[ label := 0%Z ]}) ∈ range _ cats) as Hmem
      by by apply (range_elem cats _ _ Hr).
    split.
    + apply (predict_fold_lookup _ _ _ _ target {[ label := 0%Z ]}); [done | done | |].
      * intros res. rewrite (predict_target_singleton _ _ _ _ _ _ Hr Hne).
        rewrite lookup_insert_ne.
        -- apply lookup_insert_eq.
        -- intros H. apply (f_equal String.length) in H.
           rewrite length_append in H. simpl in H. lia.
      * intros t c Hc Hnt. apply (range_elem cats t c Hr) in Hc.
        split; [done|]. apply (Hnames t); [by rewrite Hc | done].
    + apply (predict_fold_lookup _ _ _ _ target {[ label := 0%Z ]}); [done | done | |].
      * intros res. rewrite (predict_target_singleton _ _ _ _ _ _ Hr Hne).
        apply lookup_insert_eq.
      * intros t c Hc Hnt. apply (range_elem cats t c Hr) in Hc.
        split; [apply (Hnames t); [by rewrite Hc | done]|].
        intros H. by apply append_inj_r in H.
Qed.

(** ** The update rule of the linear trainer *)




Lemma add_bias_if_exists_eq weights target (z : R) :
  add_bias_if_exists weights target z = add_bias weights target z.
Proof.
  unfold add_bias_if_exists, add_bias, GetFloat.
  repeat case_match; simplify_eq; simpl; try reflexivity; lra.
Qed.



Section gradient_sums.

Variable conv : string → value → option R.
Variable act : R → R.
Variable features : list string.
Variable inputs outputs : list (gmap string value).
Variable weights : Weights.
Variable target : string.



End gradient_sums.






(** Prediction with a descriptor that knows one target with one label. *)
Lemma predictCategoricalModel_single input weights model (target label : string)
    (index : Z) :
  range_perm → Categories model = Some {[ target := {[ label := index ]} ]} →
  (predictCategoricalModel input weights model).1
  = if String.eqb label "" then ∅
    else <[target +:+ "_probs" := VProbs {[ label := 1%R ]}]>
           {[ target := restore_label label ]}.
Proof.
  intros Hr Hcat. unfold predictCategoricalModel. rewrite Hcat. cbn [fst default from_option Datatypes.id].
  rewrite (range_singleton target _ Hr). cbn [foldl].
  destruct (String.eqb_spec label "") as [->|Hne].
  - by apply predict_target_empty_label.
  - rewrite (predict_target_singleton _ _ _ _ _ _ Hr Hne). by rewrite insert_empty.
Qed.

(** ** Training returns

    On a weight store whose map is not nil, with a configuration, a batch
    size of at least 1 and at least as many outputs as inputs, no trainer
    panics and none runs out of rounds. *)

Lemma ofold_returns {A S} (P : S → Prop) (f : S → A → outcome S) (l : list A) :
  (∀ s a, a ∈ l → P s → ∃ s', f s a = Returns s' ∧ P s') →
  ∀ s, P s → ∃ s', ofold f s l = Returns s' ∧ P s'.
Proof.
  induction l as [|a l IH]; intros Hf s Hs; simpl; [eauto|].
  destruct (Hf s a) as (s1 & -> & Hs1); [by left | done |]. simpl.
  apply IH; [|done]. intros s2 b Hb. apply Hf. by right.
Qed.

Lemma Set_live (w : Weights) (key : string) (v : value) :
  live w → ∃ w', Set_ w key v = Returns w' ∧ live w'.
Proof.
  intros [m Hm]. unfold Set_. rewrite Hm. eexists. split; [done|].
  unfold live. simpl. eauto.
Qed.

Lemma init_weight_live (w : Weights) (key : string) :
  live w → ∃ w', init_weight w key = Returns w' ∧ live w'.
Proof.
  intros Hw. unfold init_weight. destruct (Get w key); [eauto|].
  by apply Set_live.
Qed.

Lemma init_weights_live (features targets : list string) (w : Weights) :
  live w → ∃ w', init_weights features targets w = Returns w' ∧ live w'.
Proof.
  intros Hw. unfold init_weights.
  destruct (ofold_returns live
              (λ w feature,
                 ofold (λ w target, init_weight w (weightKey feature target)) w targets)
              features) with (s := w) as (w1 & -> & Hw1); [|done|].
  { intros s f _ Hs. apply (ofold_returns live); [|done].
    intros s' t _ Hs'. by apply init_weight_live. }
  simpl. apply (ofold_returns live); [|done].
  intros s t _ Hs. by apply init_weight_live.
Qed.

Section descent_returns.

Variable conv : string → value → option R.
Variable act : R → R.
Variable loss : R → R → R.
Variable features targets : list string.
Variable inputs outputs : list (gmap string value).
Hypothesis enough_outputs : (length inputs <= length outputs)%nat.

Lemma gradient_step_returns weights feature target (gradient : R) (i : nat) :
  (i < length inputs)%nat →
  ∃ g, gradient_step conv act features inputs outputs weights feature target
         gradient i = Returns g.
Proof.
  intros Hi. unfold gradient_step.
  destruct (lookup_lt_is_Some_2 inputs i Hi) as [input ->].
  destruct (lookup_lt_is_Some_2 outputs i) as [output ->]; [lia|].
  repeat case_match; eauto.
Qed.

Lemma bias_gradient_step_returns weights target (gradient : R) (i : nat) :
  (i < length inputs)%nat →
  ∃ g, bias_gradient_step act features inputs outputs weights target gradient i
       = Returns g.
Proof.
  intros Hi. unfold bias_gradient_step.
  destruct (lookup_lt_is_Some_2 inputs i Hi) as [input ->].
  destruct (lookup_lt_is_Some_2 outputs i) as [output ->]; [lia|].
  repeat case_match; eauto.
Qed.

Lemma update_weight_returns cfg target (batchStart batchEnd : nat) weights feature :
  (batchEnd <= length inputs)%nat → live weights →
  ∃ w', update_weight conv act features inputs outputs cfg target
          batchStart batchEnd weights feature = Returns w' ∧ live w'.
Proof.
  intros Hle Hw. unfold update_weight.
  destruct (ofold_returns (λ _, True)
              (gradient_step conv act features inputs outputs weights feature target)
              (seq batchStart (batchEnd - batchStart))) with (s := 0%R)
    as (g & -> & _); [|done|].
  { intros g i Hi _. apply elem_of_seq in Hi.
    destruct (gradient_step_returns weights feature target g i) as [g' ->]; [lia|].
    eauto. }
  simpl. by apply Set_live.
Qed.

Lemma update_bias_returns cfg target (batchStart batchEnd : nat) weights :
  (batchEnd <= length inputs)%nat → live weights →
  ∃ w', update_bias act features inputs outputs cfg target
          batchStart batchEnd weights = Returns w' ∧ live w'.
Proof.
  intros Hle Hw. unfold update_bias.
  destruct (ofold_returns (λ _, True)
              (bias_gradient_step act features inputs outputs weights target)
              (seq batchStart (batchEnd - batchStart))) with (s := 0%R)
    as (g & -> & _); [|done|].
  { intros g i Hi _. apply elem_of_seq in Hi.
    destruct (bias_gradient_step_returns weights target g i) as [g' ->]; [lia|].
    eauto. }
  simpl. by apply Set_live.
Qed.

Lemma update_batch_returns cfg (batchStart batchEnd : nat) weights :
  (batchEnd <= length inputs)%nat → live weights →
  ∃ w', update_batch conv act features targets inputs outputs cfg
          batchStart batchEnd weights = Returns w' ∧ live w'.
Proof.
  intros Hle Hw. unfold update_batch. apply (ofold_returns live); [|done].
  intros w target _ Hlive.
  destruct (ofold_returns live
              (update_weight conv act features inputs outputs cfg target
                 batchStart batchEnd) features) with (s := w)
    as (w1 & -> & Hw1); [|done|].
  { intros s f _ Hs. by apply update_weight_returns. }
  simpl. by apply update_bias_returns.
Qed.

Lemma calculate_loss_returns weights :
  ∃ l, calculate_loss loss features targets inputs outputs weights = Returns l.
Proof.
  unfold calculate_loss.
  destruct (ofold_returns (λ _, True)
              (λ acc '(i, input),
                 ofold (loss_step loss features outputs weights input i) acc targets)
              (imap (λ i input, (i, input)) inputs)) with (s := (0%R, O))
    as (acc & -> & _); [|done|simpl; eauto].
  intros acc [i input] Hin _.
  apply list_elem_of_lookup in Hin as [j Hj].
  rewrite list_lookup_imap in Hj.
  destruct (inputs !! j) as [input'|] eqn:Hinput; [|discriminate].
  simpl in Hj. injection Hj as <- <-.
  apply lookup_lt_Some in Hinput.
  destruct (lookup_lt_is_Some_2 outputs j) as [output Houtput]; [lia|].
  apply (ofold_returns (λ _, True)); [|done].
  intros acc' target _ _. unfold loss_step. rewrite Houtput.
  repeat case_match; eauto.
Qed.

Lemma batch_loop_live cfg (batchSize : nat) weights :
  (1 <= batchSize)%nat → live weights →
  ∃ w', batch_loop (length inputs)
          (update_batch conv act features targets inputs outputs cfg)
          (length inputs) batchSize 0 weights = Returns w' ∧ live w'.
Proof.
  intros Hsize.
  assert (∀ fuel batchStart w,
            (length inputs <= batchStart + fuel * batchSize)%nat → live w →
            ∃ w', batch_loop fuel
                    (update_batch conv act features targets inputs outputs cfg)
                    (length inputs) batchSize batchStart w = Returns w' ∧ live w')
    as H.
  { induction fuel as [|fuel IH]; intros batchStart w Hle Hw; simpl.
    - destruct (Nat.ltb_spec batchStart (length inputs)); [lia | eauto].
    - destruct (Nat.ltb_spec batchStart (length inputs)); [|eauto].
      destruct (update_batch_returns cfg batchStart
                  (if (length inputs <? batchStart + batchSize)%nat
                   then length inputs else (batchStart + batchSize)%nat) w)
        as (w1 & -> & Hw1);
        [destruct (Nat.ltb_spec (length inputs) (batchStart + batchSize)); lia
        | done |].
      simpl. apply IH; [lia | done]. }
  intros Hw. apply H; [nia | done].
Qed.

Lemma epoch_loop_returns cfg (epochs : nat) weights :
  (1 <= BatchSize cfg)%Z → live weights →
  ∃ w', epoch_loop conv act loss features targets inputs outputs cfg epochs weights
        = Returns w' ∧ live w'.
Proof.
  intros Hsize. revert weights. induction epochs as [|epochs IH]; intros w Hw;
    simpl; [eauto|].
  destruct (calculate_loss_returns w) as [prev ->]. simpl.
  destruct (Z.leb_spec (BatchSize cfg) 0); [lia|].
  destruct (batch_loop_live cfg (Z.to_nat (BatchSize cfg)) w) as (w1 & -> & Hw1);
    [lia | done |].
  simpl. destruct (calculate_loss_returns w1) as [cur ->]. simpl.
  destruct (Rlt_b _ _); eauto.
Qed.

End descent_returns.

Lemma trainLinearModel_returns inputs outputs weights cfg :
  (length inputs <= length outputs)%nat → (1 <= BatchSize cfg)%Z → live weights →
  ∃ r, trainLinearModel inputs outputs weights (Some cfg) = Returns r ∧ live r.1.
Proof.
  intros Hlen Hsize Hw. unfold trainLinearModel.
  destruct inputs as [|input0 inputs']; [eauto|].
  destruct outputs as [|output0 outputs']; [eauto|].
  destruct (init_weights_live (range _ input0).*1 (range _ output0).*1 weights Hw)
    as (w1 & -> & Hw1). simpl.
  edestruct epoch_loop_returns as (w2 & -> & Hw2); [exact Hlen | exact Hsize | exact Hw1 |].
  simpl. eauto.
Qed.

Lemma trainLogisticModel_returns inputs outputs weights cfg :
  (length inputs <= length outputs)%nat → (1 <= BatchSize cfg)%Z → live weights →
  ∃ r, trainLogisticModel inputs outputs weights (Some cfg) = Returns r ∧ live r.1.
Proof.
  intros Hlen Hsize Hw. unfold trainLogisticModel.
  destruct inputs as [|input0 inputs']; [eauto|].
  destruct outputs as [|output0 outputs']; [eauto|].
  destruct (init_weights_live (range _ input0).*1 (range _ output0).*1 weights Hw)
    as (w1 & -> & Hw1). simpl.
  edestruct epoch_loop_returns as (w2 & -> & Hw2); [exact Hlen | exact Hsize | exact Hw1 |].
  simpl. eauto.
Qed.

Lemma obind_returns {A B} (P : A → Prop) (Q : B → Prop)
    (c : outcome A) (k : A → outcome B) :
  (∃ a, c = Returns a ∧ P a) →
  (∀ a, P a → ∃ b, k a = Returns b ∧ Q b) →
  ∃ b, obind c k = Returns b ∧ Q b.
Proof. intros (a & -> & Ha) Hk. simpl. by apply Hk. Qed.

Lemma sgd_weight_live cfg target category input (gradient : R) w feature :
  live w →
  ∃ w', sgd_weight cfg target category input gradient w feature = Returns w' ∧ live w'.
Proof.
  intros Hw. unfold sgd_weight. repeat case_match; eauto using Set_live.
Qed.

Lemma sgd_category_live features cfg target actualCategory input probabilities w kv :
  live w →
  ∃ w', sgd_category features cfg target actualCategory input probabilities w kv
        = Returns w' ∧ live w'.
Proof.
  intros Hw. unfold sgd_category. apply (obind_returns live).
  - apply (ofold_returns live); [|done].
    intros s f _ Hs. by apply sgd_weight_live.
  - intros w1 Hw1. by apply Set_live.
Qed.

Lemma sgd_sample_live features inputs outputs cfg target categories w (i : nat) :
  (length inputs <= length outputs)%nat → (i < length inputs)%nat → live w →
  ∃ w', sgd_sample features inputs outputs cfg target categories w i = Returns w'
        ∧ live w'.
Proof.
  intros Hlen Hi Hw. unfold sgd_sample.
  destruct (lookup_lt_is_Some_2 inputs i Hi) as [input ->].
  destruct (lookup_lt_is_Some_2 outputs i) as [output ->]; [lia|].
  destruct (output !! target); [|eauto].
  apply (ofold_returns live); [|done].
  intros s kv _ Hs. by apply sgd_category_live.
Qed.

Lemma train_target_live features inputs outputs cfg categories_of w target :
  (length inputs <= length outputs)%nat → live w →
  ∃ w', train_target features inputs outputs (Some cfg) categories_of w target
        = Returns w' ∧ live w'.
Proof.
  intros Hlen Hw. unfold train_target. case_match; [eauto|].
  apply (obind_returns live).
  - apply (ofold_returns live); [|done].
    intros s kv _ Hs. apply (obind_returns live).
    + apply (ofold_returns live); [|done].
      intros s' f _ Hs'. by apply init_weight_live.
    + intros w1 Hw1. by apply init_weight_live.
  - intros w1 Hw1. apply (ofold_returns live); [|done].
    intros s _ _ Hs. apply (ofold_returns live); [|done].
    intros s' i Hi Hs'. apply elem_of_seq in Hi.
    apply sgd_sample_live; [done | lia | done].
Qed.

Lemma trainCategoricalModel_returns inputs outputs weights cfg model :
  (length inputs <= length outputs)%nat → live weights →
  ∃ r, trainCategoricalModel inputs outputs weights (Some cfg) model = Returns r
       ∧ live r.1.1.
Proof.
  intros Hlen Hw. unfold trainCategoricalModel.
  destruct inputs as [|input0 inputs']; [eauto|].
  destruct outputs as [|output0 outputs']; [eauto|].
  apply (obind_returns live); [|eauto].
  apply (ofold_returns live); [|done].
  intros s target _ Hs. by apply train_target_live.
Qed.

Lemma copy_field_length key (outputs dst : list (gmap string value)) :
  length dst = length outputs → length (copy_field key outputs dst) = length outputs.
Proof. intros H. unfold copy_field. rewrite length_zip_with. lia. Qed.

Lemma split_step_returns outputs acc kv :
  split_shape outputs acc →
  ∃ acc', split_step outputs acc kv = Returns acc' ∧ split_shape outputs acc'.
Proof.
  destruct acc as [targets s], kv as [key val].
  intros ([t Ht] & Hn & Hc & Hb). simpl in *. subst targets.
  destruct (classify_target val) as [[]|]; (eexists; split; [done|]);
    unfold split_shape; simpl; rewrite ?copy_field_length by done; eauto.
Qed.

Lemma trainMixedModel_returns inputs outputs weights cfg model :
  (length inputs <= length outputs)%nat → (1 <= BatchSize cfg)%Z →
  live weights → is_Some (Targets model) →
  ∃ r, trainMixedModel inputs outputs weights (Some cfg) model = Returns r
       ∧ live r.1.1.
Proof.
  intros Hlen Hsize Hw Ht. unfold trainMixedModel.
  destruct outputs as [|output0 outputs'] eqn:Houtputs; [eauto|].
  rewrite <- Houtputs in *.
  edestruct (ofold_returns (split_shape outputs) (split_step outputs))
    as (acc & -> & _ & Hn & Hc & Hb).
  { intros acc kv _. apply split_step_returns. }
  { unfold split_shape. simpl. rewrite !length_replicate. eauto. }
  cbn [obind].
  assert (∃ r, (if (0 <? target_count (numericOutputs acc.2))%nat
                then trainLinearModel inputs (numericOutputs acc.2) weights (Some cfg)
                else Returns (weights, None)) = Returns r ∧ live r.1)
    as (r1 & -> & Hr1).
  { case_match; [|eauto]. apply trainLinearModel_returns; [lia | done | done]. }
  cbn [obind]. destruct (r1.2); [eauto|].
  assert (∃ r, (if (0 <? target_count (categoricalOutputs acc.2))%nat
                then trainCategoricalModel inputs (categoricalOutputs acc.2) r1.1
                       (Some cfg) (with_Targets model acc.1)
                else Returns (r1.1, with_Targets model acc.1, None)) = Returns r
               ∧ live r.1.1)
    as (r2 & -> & Hr2).
  { case_match; [|eauto]. apply trainCategoricalModel_returns; [lia | done]. }
  cbn [obind]. destruct (r2.2); [eauto|].
  assert (∃ r, (if (0 <? target_count (booleanOutputs acc.2))%nat
                then trainLogisticModel inputs (booleanOutputs acc.2) r2.1.1 (Some cfg)
                else Returns (r2.1.1, None)) = Returns r ∧ live r.1)
    as (r3 & -> & Hr3).
  { case_match; [|eauto]. apply trainLogisticModel_returns; [lia | done | done]. }
  cbn [obind]. destruct (r3.2); eauto.
Qed.

(** [Train] returns: with a descriptor, a configuration whose batch size
    is at least 1, a weight store that is absent or holds a map, and, for
    the mixed variant, a [Targets] map that is not nil. *)
Lemma Train_returns (e : Engine) m cfg inputs outputs :
  model e = Some m → config e = Some cfg → (1 <= BatchSize cfg)%Z →
  (∀ w, weights e = Some w → live w) →
  (Type_ m = "mixed" → is_Some (Targets m)) →
  ∃ r, Train e inputs outputs = Returns r.
Proof.
  intros Hm Hcfg Hsize Hw Ht. unfold Train. rewrite Hm, Hcfg.
  destruct (Nat.eqb_spec (length inputs) (length outputs)) as [Hlen|]; [|simpl; eauto].
  simpl. destruct (length inputs =? 0)%nat; [eauto|].
  set (w := match weights e with Some w => w | None => {| Values := Some ∅ |} end).
  assert (live w) as Hlive.
  { subst w. destruct (weights e) as [w|]; [by apply Hw|]. unfold live. simpl. eauto. }
  assert (∃ r, Model_Train m inputs outputs w (Some cfg) = Returns r) as [r ->];
    [|simpl; eauto].
  unfold Model_Train.
  destruct (String.eqb_spec (Type_ m) "linear").
  { destruct (trainLinearModel_returns inputs outputs w cfg) as (r & -> & _);
      [lia | done | done | simpl; eauto]. }
  destruct (String.eqb_spec (Type_ m) "logistic").
  { destruct (trainLogisticModel_returns inputs outputs w cfg) as (r & -> & _);
      [lia | done | done | simpl; eauto]. }
  destruct (String.eqb_spec (Type_ m) "categorical").
  { destruct (trainCategoricalModel_returns inputs outputs w cfg m) as (r & -> & _);
      [lia | done | eauto]. }
  destruct (String.eqb_spec (Type_ m) "mixed"); [|eauto].
  destruct (trainMixedModel_returns inputs outputs w cfg m) as (r & -> & _);
    [lia | done | done | by apply Ht | eauto].
Qed.

(** * Further properties of the code *)

(** ** weights.go: the store *)

(** X1.  On a store whose map is not nil, [Set] returns; afterwards [Get]
    finds the value under the key, [GetFloat] reads it when it is a
    [float64], and every other key reads as before. *)
Theorem Set_then_Get (w : Weights) (key : string) (v : value) :
  live w →
  ∃ w', Set_ w key v = Returns w' ∧ live w' ∧ Get w' key = Some v ∧
        (∀ x, v = VFloat64 x → GetFloat w' key = (x, true)) ∧
        ∀ k, k ≠ key → Get w' k = Get w k ∧ GetFloat w' k = GetFloat w k.
Proof.
  intros [m Hm]. unfold Set_. rewrite Hm. eexists. split; [done|].
  unfold live, Get, GetFloat, values_of. simpl. rewrite Hm. simpl.
  rewrite lookup_insert_eq. repeat split; [eauto | by intros x -> | |];
    by rewrite lookup_insert_ne.
Qed.

(** ** utils.go: the conversions *)

(** X2.  [ConvertToFloat64] succeeds exactly on the numeric types, on
    [bool] and on [string], and yields 0 or 1 on the last two.  Whenever
    [ConvertToBool] succeeds so does [ConvertToFloat64], and on a [bool],
    [int] or [float64] the boolean is true exactly when the number is not
    zero; [ConvertToBool] fails on [int64], [int32] and [float32]. *)
Theorem conversions_agree (v : value) (key : string) :
  ((ConvertToFloat64 v key).2 = true ↔
     IsSupportedNumericType v = true ∨ IsSupportedBooleanType v = true
     ∨ ∃ s, v = VString s) ∧
  (IsSupportedNumericType v = false →
     (ConvertToFloat64 v key).1 = 0%R ∨ (ConvertToFloat64 v key).1 = 1%R) ∧
  ((ConvertToBool v).2 = true → (ConvertToFloat64 v key).2 = true) ∧
  ((ConvertToBool v).2 = true → (∀ s, v ≠ VString s) →
     ((ConvertToBool v).1 = true ↔ (ConvertToFloat64 v key).1 ≠ 0%R)) ∧
  ((∃ n, v = VInt64 n ∨ v = VInt32 n) ∨ (∃ x, v = VFloat32 x) →
     ConvertToBool v = (false, false)).
Proof.
  split; [|split; [|split; [|split]]].
  - destruct v; simpl; repeat case_match; split; intros Hok; try done; eauto;
      destruct Hok as [Hok|[Hok|[s' Hok]]]; done.
  - destruct v; simpl; try done; repeat case_match; simpl; auto.
  - destruct v; simpl; try done; repeat case_match; done.
  - destruct v as [x| |n| | |b|s| |]; simpl; try done; intros _ Hs.
    + unfold Req_b. destruct (Req_dec_T x 0); simpl; split; intros; done.
    + destruct (Z.eqb_spec n 0) as [->|Hn]; simpl; split; intros H; try done.
      apply not_0_IZR. done.
    + destruct b; simpl; split; intros H; try done; lra.
    + by destruct (Hs s).
  - intros [[n [->| ->]]|[x ->]]; reflexivity.
Qed.

(** ** linear.go: weight keys *)

Lemma split_arrow_sound (key a b : string) :
  split_arrow key = Some (a, b) → key = a +:+ "->" +:+ b ∧ split_arrow a = None.
Proof.
  revert a b. induction key as [|c rest IH]; intros a b; [done|].
  cbn [split_arrow].
  destruct (Ascii.eqb_spec c "-"%char) as [->|Hc].
  - destruct rest as [|c' rest']; [done|].
    destruct (Ascii.eqb_spec c' ">"%char) as [->|Hc']; [by intros [= <- <-]|].
    destruct (split_arrow (String c' rest')) as [[before after]|] eqn:E; [|done].
    intros [= <- <-]. destruct (IH _ _ eq_refl) as [Heq Hnone].
    split; [simpl; by rewrite Heq|].
    cbn [split_arrow]. rewrite Hnone. destruct before as [|c'' before']; [done|].
    simpl in Heq. injection Heq as <- _.
    by destruct (Ascii.eqb_spec c' ">"%char).
  - destruct (split_arrow rest) as [[before after]|] eqn:E; [|done].
    intros [= <- <-]. destruct (IH _ _ eq_refl) as [Heq Hnone].
    split; [simpl; by rewrite Heq|].
    cbn [split_arrow]. rewrite Hnone. by destruct (Ascii.eqb_spec c "-"%char).
Qed.

Lemma append_String (c : ascii) (a b : string) :
  String c a +:+ b = String c (a +:+ b).
Proof. reflexivity. Qed.

Lemma split_arrow_complete (a b : string) :
  split_arrow a = None → split_arrow (a +:+ "->" +:+ b) = Some (a, b).
Proof.
  induction a as [|c a' IH]; [done|].
  intros H. rewrite append_String. cbn [split_arrow] in H |- *.
  destruct (Ascii.eqb_spec c "-"%char) as [->|Hc].
  - destruct a' as [|c' a''].
    + reflexivity.
    + rewrite append_String in IH |- *.
      destruct (Ascii.eqb_spec c' ">"%char) as [->|Hc']; [done|].
      destruct (split_arrow (String c' a'')) eqn:E; [by destruct p|].
      by rewrite IH.
  - destruct (split_arrow a') eqn:E; [by destruct p|]. by rewrite IH.
Qed.

Lemma split_arrow_finds (a b : string) : is_Some (split_arrow (a +:+ "->" +:+ b)).
Proof.
  induction a as [|c a' [[before after] IH]]; [by eexists|].
  rewrite append_String. cbn [split_arrow]. rewrite IH. by repeat case_match.
Qed.

Lemma split_arrow_None (s : string) : split_arrow s = None ↔ arrow_free s.
Proof.
  split.
  - intros H a b ->. destruct (split_arrow_finds a b) as [? ?]. congruence.
  - intros H. destruct (split_arrow s) as [[a b]|] eqn:E; [|done].
    apply split_arrow_sound in E as [-> _]. by destruct (H a b).
Qed.

Lemma splitWeightKey_two (key : string) : ∃ a b, splitWeightKey key = [a; b].
Proof. unfold splitWeightKey. destruct (split_arrow key) as [[a b]|]; eauto. Qed.

(** X3.  [splitWeightKey] undoes the key format: when the feature name
    holds no ["->"], the key of a feature and a target splits back into
    the two, whatever the target is. *)
Theorem splitWeightKey_weightKey (feature target : string) :
  arrow_free feature →
  splitWeightKey (weightKey feature target) = [feature; target].
Proof.
  intros H. apply split_arrow_None in H. unfold splitWeightKey, weightKey.
  by rewrite split_arrow_complete.
Qed.

(** X4.  [splitWeightKey] always returns two parts.  A key that holds
    ["->"] is split at its first occurrence, so the parts put back
    together give the key and the first part holds no ["->"]; a key
    without ["->"] gives two empty parts. *)
Theorem splitWeightKey_parts (key : string) :
  ∃ a b, splitWeightKey key = [a; b] ∧
    ((key = weightKey a b ∧ arrow_free a) ∨ (a = "" ∧ b = "" ∧ arrow_free key)).
Proof.
  unfold splitWeightKey. destruct (split_arrow key) as [[a b]|] eqn:E.
  - exists a, b. split; [done|]. left.
    apply split_arrow_sound in E as [-> Ha]. split; [done|].
    by apply split_arrow_None.
  - exists "", "". split; [done|]. right. by rewrite <- split_arrow_None.
Qed.

(** ** linear.go and logistic.go: the predictors *)

Lemma foldl_fun_ext {A B} (f g : B → A → B) (l : list A) (b : B) :
  (∀ b a, f b a = g b a) → foldl f b l = foldl g b l.
Proof.
  intros H. revert b. induction l as [|a l IH]; intros b; simpl; [done|].
  by rewrite H, IH.
Qed.

Lemma collect_fold (l : list (string * value)) (acc : gmap string bool) (t : string) :
  is_Some (foldl (λ targets kv,
                    match splitWeightKey kv.1 with
                    | [_; target] => <[target := true]> targets
                    | _ => targets
                    end) acc l !! t)
  ↔ is_Some (acc !! t) ∨ ∃ kv, kv ∈ l ∧ splitWeightKey kv.1 !! 1%nat = Some t.
Proof.
  revert acc. induction l as [|kv l IH]; intros acc; cbn [foldl].
  - split; [by left|]. intros [H|(kv & Hin & _)]; [done|].
    by apply elem_of_nil in Hin.
  - rewrite IH. destruct (splitWeightKey_two kv.1) as (a & b & Hab).
    rewrite Hab. split.
    + intros [H|(kv' & Hin & Hkv')].
      * destruct (decide (b = t)) as [<-|Hne].
        -- right. exists kv. split; [by left|]. by rewrite Hab.
        -- rewrite lookup_insert_ne in H by done. by left.
      * right. exists kv'. split; [by right | done].
    + intros [H|(kv' & Hin & Hkv')].
      * left. destruct (decide (b = t)) as [<-|Hne].
        -- rewrite lookup_insert_eq. eauto.
        -- by rewrite lookup_insert_ne.
      * apply elem_of_cons in Hin as [->|Hin].
        -- left. rewrite Hab in Hkv'. injection Hkv' as <-.
           rewrite lookup_insert_eq. eauto.
        -- right. eauto.
Qed.

Lemma collect_targets_names (weights : Weights) (t : string) :
  range_perm → is_Some (collect_targets weights !! t) ↔ names_target weights t.
Proof.
  intros Hr. unfold collect_targets. rewrite collect_fold, lookup_empty.
  unfold names_target, Get. split.
  - intros [[? ?]|([key v] & Hin & Hkey)]; [done|].
    apply (range_elem _ _ _ Hr) in Hin. exists key. eauto.
  - intros (key & [v Hv] & Hkey). right. exists (key, v).
    split; [by apply (range_elem _ _ _ Hr) | done].
Qed.

Lemma input_fold (weights : Weights) (target : string) (l : list (string * value))
    (acc : R) :
  foldl (input_step weights target) acc l
  = (acc + Rsum (contribution weights target <$> l))%R.
Proof.
  revert acc. induction l as [|[f v] l IH]; intros acc.
  - unfold Rsum. simpl. ring.
  - rewrite fmap_cons. cbn [foldl]. rewrite IH. unfold Rsum. cbn [foldr].
    unfold input_step, contribution. cbn [fst snd].
    destruct (GetFloat weights (weightKey f target)) as [w [|]]; cbn [negb];
      [destruct (feature_float f v)|]; ring.
Qed.

(** The weighted sum of a prediction does not depend on the order in which
    the fields of the input record are visited. *)
Lemma input_combination_sum (weights : Weights) (target : string)
    (input : gmap string value) :
  range_perm →
  input_combination weights target input
  = add_bias_if_exists weights target
      (Rsum (contribution weights target <$> map_to_list input)).
Proof.
  intros Hr. unfold input_combination. rewrite input_fold, Rplus_0_l.
  f_equal. apply Rsum_Permutation. by rewrite (Hr _ input).
Qed.

(** X5.  The linear predictor never fails.  Its result has one field per
    target named by a key of the weight store (the target with the empty
    name when a key holds no ["->"]), and the field holds the bias, when
    it reads as a float, plus the sum of the contributions of the input
    fields, whatever the iteration order of the maps. *)
Theorem predictLinearModel_fields input weights (t : string) (v : value) :
  range_perm →
  (predictLinearModel input weights).2 = None ∧
  ((predictLinearModel input weights).1 !! t = Some v ↔
     names_target weights t ∧
     v = VFloat64 (add_bias_if_exists weights t
                     (Rsum (contribution weights t <$> map_to_list input)))).
Proof.
  intros Hr. split; [done|]. unfold predictLinearModel. cbn [fst].
  rewrite (fold_insert_range
             (λ k _, VFloat64 (input_combination weights k input))
             (collect_targets weights) t Hr).
  rewrite <- (collect_targets_names weights t Hr),
    <- (input_combination_sum weights t input Hr).
  destruct (collect_targets weights !! t) as [b|]; simpl; split.
  - intros [= <-]. eauto.
  - by intros [_ ->].
  - done.
  - by intros [[? ?] _].
Qed.

Lemma input_combination_insert weights (t f : string) (v : value)
    (input : gmap string value) :
  range_perm → input !! f = None → contribution weights t (f, v) = 0%R →
  input_combination weights t (<[f := v]> input) = input_combination weights t input.
Proof.
  intros Hr Hf Hc. rewrite !input_combination_sum by done. f_equal.
  rewrite (Rsum_Permutation _ (contribution weights t <$> (f, v) :: map_to_list input)).
  - rewrite fmap_cons, Hc. unfold Rsum. simpl. ring.
  - apply fmap_Permutation. by apply map_to_list_insert.
Qed.

(** X6.  A field added to the input record changes neither the linear nor
    the logistic prediction when, for every target, its weight does not
    read as a float or its value is of a type the type switch skips
    (a [bool], for one). *)
Theorem prediction_ignores_field input weights (f : string) (v : value) :
  range_perm → input !! f = None →
  (∀ t, (GetFloat weights (weightKey f t)).2 = false ∨ feature_float f v = None) →
  predictLinearModel (<[f := v]> input) weights = predictLinearModel input weights ∧
  predictLogisticModel (<[f := v]> input) weights = predictLogisticModel input weights.
Proof.
  intros Hr Hf Hskip.
  assert (∀ t, input_combination weights t (<[f := v]> input)
               = input_combination weights t input) as Heq.
  { intros t. apply input_combination_insert; [done | done |].
    unfold contribution. cbn [fst snd].
    destruct (Hskip t) as [H|H].
    - destruct (GetFloat weights (weightKey f t)) as [w b]. simpl in H. by subst b.
    - rewrite H. by destruct (GetFloat weights (weightKey f t)) as [w [|]]. }
  unfold predictLinearModel, predictLogisticModel.
  split; f_equal; apply foldl_fun_ext; intros result kv; by rewrite Heq.
Qed.

Lemma squash_fold (h : string → R) (l : list (string * bool))
    (acc : gmap string value) :
  foldl (λ result kv, <[kv.1 := VFloat64 (sigmoid (h kv.1))]> result) (squash <$> acc) l
  = squash <$> foldl (λ result kv, <[kv.1 := VFloat64 (h kv.1)]> result) acc l.
Proof.
  revert acc. induction l as [|kv l IH]; intros acc; cbn [foldl]; [done|].
  rewrite <- IH. by rewrite fmap_insert.
Qed.

(** X7.  The logistic prediction is the linear prediction with the sigmoid
    applied to every field. *)
Theorem predictLogisticModel_squash input weights :
  (predictLogisticModel input weights).1
  = squash <$> (predictLinearModel input weights).1 ∧
  (predictLogisticModel input weights).2 = None.
Proof.
  split; [|done]. unfold predictLogisticModel, predictLinearModel. cbn [fst].
  rewrite <- (squash_fold (λ k, input_combination weights k input)).
  by rewrite fmap_empty.
Qed.


Lemma sigmoid_half (z : R) : (0.5 <= sigmoid z)%R ↔ (0 <= z)%R.
Proof.
  unfold sigmoid. pose proof (exp_pos (- z)) as He.
  assert ((0.5 <= 1 / (1 + exp (- z)))%R ↔ (exp (- z) <= 1)%R) as ->.
  { split; intros H.
    - apply (Rmult_le_compat_r (1 + exp (- z))) in H; [|lra].
      unfold Rdiv in H. rewrite Rmult_assoc, Rinv_l in H by lra. lra.
    - apply (Rmult_le_reg_r (1 + exp (- z))); [lra|].
      unfold Rdiv. rewrite Rmult_assoc, Rinv_l by lra. lra. }
  rewrite <- exp_0. split; intros H.
  - destruct (Rle_or_lt 0 z) as [|Hlt]; [done|].
    assert (exp 0 < exp (- z))%R by (apply exp_increasing; lra). lra.
  - destruct (Req_dec z 0) as [->|Hne]; [rewrite Ropp_0; lra|].
    apply Rlt_le, exp_increasing. lra.
Qed.


(** ** mixed.go: the merged prediction *)

Lemma predictMixedModel_eq input weights model :
  predictMixedModel input weights model
  = (Some (foldl (merge_logistic model)
             (foldl (merge_categorical model
                       (predictCategoricalModel input weights model).1)
                (foldl (merge_linear model) ∅
                   (range _ (predictLinearModel input weights).1))
                (range _ (predictCategoricalModel input weights model).1))
             (range _ (predictLogisticModel input weights).1)),
     None).
Proof. reflexivity. Qed.

Lemma merge_logistic_notin model (l : list (string * value))
    (acc : gmap string value) (k : string) :
  k ∉ l.*1 → foldl (merge_logistic model) acc l !! k = acc !! k.
Proof.
  revert acc. induction l as [|[k' v'] l IH]; intros acc Hk; cbn [foldl]; [done|].
  rewrite fmap_cons in Hk. apply not_elem_of_cons in Hk as [Hne Hk].
  rewrite IH by done. unfold merge_logistic. cbn [fst snd].
  destruct (target_type_is model k' "boolean"); [|done].
  destruct v'; by rewrite lookup_insert_ne.
Qed.

Lemma merge_logistic_in model (l : list (string * value))
    (acc : gmap string value) (k : string) (prob : R) :
  NoDup l.*1 → (k, VFloat64 prob) ∈ l → target_type_is model k "boolean" = true →
  foldl (merge_logistic model) acc l !! k = Some (VBool (Rge_b prob 0.5)).
Proof.
  revert acc. induction l as [|[k' v'] l IH]; intros acc Hnd Hin Ht; cbn [foldl].
  - by apply elem_of_nil in Hin.
  - rewrite fmap_cons in Hnd. apply NoDup_cons in Hnd as [Hk' Hnd].
    apply elem_of_cons in Hin as [[= <- <-]|Hin]; [|by apply IH].
    rewrite merge_logistic_notin by done. unfold merge_logistic. cbn [fst snd].
    rewrite Ht. apply lookup_insert_eq.
Qed.

(** X9.  The mixed predictor returns no error.  For a target recorded as
    "boolean" and named by a key of the weight store, its result holds a
    [bool], which in exact arithmetic is true exactly when the weighted
    sum of the input (bias included) is not negative. *)
Theorem mixed_boolean_threshold input weights model (k : string) :
  range_perm → target_type_is model k "boolean" = true → names_target weights k →
  ∃ result b,
    predictMixedModel input weights model = (Some result, None) ∧
    result !! k = Some (VBool b) ∧
    (b = true ↔ (0 <= input_combination weights k input)%R).
Proof.
  intros Hr Ht Hk. rewrite predictMixedModel_eq. eexists _, _. split; [done|].
  split.
  - apply (merge_logistic_in model _ _ k
             (sigmoid (input_combination weights k input)));
      [by apply range_NoDup | | done].
    apply (range_elem _ _ _ Hr). unfold predictLogisticModel. cbn [fst].
    rewrite (fold_insert_range
               (λ t _, VFloat64 (sigmoid (input_combination weights t input)))
               (collect_targets weights) k Hr).
    apply (collect_targets_names weights k Hr) in Hk as [b ->]. done.
  - rewrite <- sigmoid_half. unfold Rge_b.
    destruct (Rle_dec 0.5 (sigmoid (input_combination weights k input)));
      split; intros; done.
Qed.

(** ** engine.go: when [Predict] succeeds *)

(** X10.  [Predict] returns a record exactly when the engine holds a weight
    store and a descriptor of one of the four variants; otherwise it
    returns no record and one of three errors: model not initialized,
    weights not initialized, unsupported model type.  No predictor adds an
    error of its own. *)
Theorem Predict_succeeds_iff (e : Engine) (input : gmap string value) :
  ((∃ result, Predict e input = (Some result, None)) ↔
     ∃ m w, model e = Some m ∧ weights e = Some w ∧ supported (Type_ m)) ∧
  (∀ r err, Predict e input = (r, Some err) →
     r = None ∧
     (err = ErrModelNotInitialized ∨ err = ErrWeightsNotInitialized
      ∨ err = ErrUnsupportedModelType)).
Proof.
  unfold Predict, Model_Predict, supported.
  destruct (model e) as [m|]; [|split; [split|]].
  2: { by intros [? ?]. }
  2: { by intros (? & ? & ? & _). }
  2: { intros r err [= <- <-]. auto. }
  destruct (weights e) as [w|]; [|split; [split|]].
  2: { by intros [? ?]. }
  2: { by intros (? & ? & _ & ? & _). }
  2: { intros r err [= <- <-]. auto. }
  destruct (String.eqb_spec (Type_ m) "linear") as [E1|E1].
  { split; [split; eauto 10|]. by intros r err. }
  destruct (String.eqb_spec (Type_ m) "logistic") as [E2|E2].
  { split; [split; eauto 10|]. by intros r err. }
  destruct (String.eqb_spec (Type_ m) "categorical") as [E3|E3].
  { split; [split; eauto 10|]. by intros r err. }
  destruct (String.eqb_spec (Type_ m) "mixed") as [E4|E4].
  { rewrite predictMixedModel_eq. split; [split; eauto 10|]. by intros r err. }
  split; [split|].
  - by intros [? ?].
  - intros (m' & w' & [= <-] & _ & [?|[?|[?|?]]]); done.
  - intros r err [= <- <-]. auto.
Qed.

(** ** linear.go: the mean squared error *)


(** ** linear.go and logistic.go: what training writes *)

Lemma extends_on_refl (K : string → Prop) (w : Weights) : extends_on K w w.
Proof. by split. Qed.

Lemma extends_on_trans (K : string → Prop) (w1 w2 w3 : Weights) :
  extends_on K w1 w2 → extends_on K w2 w3 → extends_on K w1 w3.
Proof.
  intros [Hp1 Hf1] [Hp2 Hf2]. split.
  - intros k Hk. by apply Hp2, Hp1.
  - intros k Hk. by rewrite Hf2, Hf1.
Qed.

Lemma Set_extends (K : string → Prop) (w w' : Weights) (key : string) (v : value) :
  K key → Set_ w key v = Returns w' → extends_on K w w' ∧ Get w' key = Some v.
Proof.
  intros HK. unfold Set_. destruct (Values w) as [m|] eqn:Hm; [|done].
  intros [= <-]. unfold extends_on, Get, values_of. simpl. rewrite Hm. simpl.
  split; [split|].
  - intros k Hk. destruct (decide (key = k)) as [->|Hne].
    + rewrite lookup_insert_eq. eauto.
    + by rewrite lookup_insert_ne.
  - intros k Hk. rewrite lookup_insert_ne; [done|]. by intros ->.
  - apply lookup_insert_eq.
Qed.

Lemma init_weight_extends (K : string → Prop) (w w' : Weights) (key : string) :
  K key → init_weight w key = Returns w' →
  extends_on K w w' ∧ is_Some (Get w' key).
Proof.
  intros HK. unfold init_weight. destruct (Get w key) as [v|] eqn:E.
  - intros [= <-]. split; [apply extends_on_refl | by rewrite E].
  - intros H. apply (Set_extends K) in H as [H1 H2]; [|done]. split; [done|].
    by rewrite H2.
Qed.

Lemma ofold_invariant_in {A S} (P : S → Prop) (f : S → A → outcome S) (l : list A) :
  (∀ s a s', a ∈ l → P s → f s a = Returns s' → P s') →
  ∀ s s', P s → ofold f s l = Returns s' → P s'.
Proof.
  induction l as [|a l IH]; simpl; intros Hf s s' Hs H.
  - by inversion H; subst.
  - apply obind_Returns in H as (s1 & H1 & H2).
    apply (IH (λ s0 b s0' Hb, Hf s0 b s0' (list_elem_of_further _ _ _ Hb)) s1);
      [|done].
    apply (Hf s a); [by left | done | done].
Qed.

Lemma ofold_extends {A} (K : string → Prop) (f : Weights → A → outcome Weights)
    (l : list A) :
  (∀ s a s', a ∈ l → f s a = Returns s' → extends_on K s s') →
  ∀ s s', ofold f s l = Returns s' → extends_on K s s'.
Proof.
  intros Hf s s'.
  apply (ofold_invariant_in (extends_on K s)); [|apply extends_on_refl].
  intros s1 a s2 Ha H1 H2. apply (extends_on_trans K s s1 s2); [done|].
  by apply (Hf s1 a).
Qed.

Lemma ofold_establishes {A} (K : string → Prop) (Q : A → Weights → Prop)
    (f : Weights → A → outcome Weights) (l : list A) :
  (∀ a w w', extends_on K w w' → Q a w → Q a w') →
  (∀ s a s', a ∈ l → f s a = Returns s' → extends_on K s s' ∧ Q a s') →
  ∀ s s', ofold f s l = Returns s' → extends_on K s s' ∧ ∀ a, a ∈ l → Q a s'.
Proof.
  intros Hmono. induction l as [|a l IH]; simpl; intros Hf s s' H.
  - inversion H; subst. split; [apply extends_on_refl|].
    intros a Ha. by apply elem_of_nil in Ha.
  - apply obind_Returns in H as (s1 & H1 & H2).
    destruct (Hf s a s1) as [He1 Hq1]; [by left | done |].
    destruct (IH (λ s0 b s0' Hb, Hf s0 b s0' (list_elem_of_further _ _ _ Hb)) s1 s')
      as [He2 Hq2]; [done|].
    split; [by apply (extends_on_trans K s s1 s')|].
    intros b Hb. apply elem_of_cons in Hb as [->|Hb]; [|by apply Hq2].
    by apply (Hmono a s1 s').
Qed.

Lemma init_weights_extends (features targets : list string) (w w' : Weights) :
  init_weights features targets w = Returns w' →
  extends_on (trained_key features targets) w w' ∧
  ∀ k, trained_key features targets k → is_Some (Get w' k).
Proof.
  set (K := trained_key features targets).
  unfold init_weights. intros H. apply obind_Returns in H as (w1 & H1 & H2).
  apply (ofold_establishes K
           (λ f w, ∀ t, t ∈ targets → is_Some (Get w (weightKey f t)))) in H1
    as [He1 Hq1].
  - apply (ofold_establishes K (λ t w, is_Some (Get w (biasKey t)))) in H2
      as [He2 Hq2].
    + split; [by apply (extends_on_trans K w w1 w')|].
      intros k [(f & t & Hf & Ht & ->)|(t & Ht & ->)]; [|by apply Hq2].
      destruct He2 as [He2 _]. apply He2. by apply Hq1.
    + intros t s s' [Hs _]. apply Hs.
    + intros s t s' Ht Hs. apply (init_weight_extends K); [|done].
      right. eauto.
  - intros f s s' [Hs _] Hq t Ht. by apply Hs, Hq.
  - intros s f s' Hf Hs.
    apply (ofold_establishes K (λ t w, is_Some (Get w (weightKey f t)))) in Hs;
      [done | |].
    + intros t s0 s0' [Hs0 _]. apply Hs0.
    + intros s0 t s0' Ht Hs0. apply (init_weight_extends K); [|done].
      left. eauto.
Qed.

Lemma batch_loop_invariant {S} (P : S → Prop) (body : nat → nat → S → outcome S)
    (n batchSize : nat) :
  (∀ batchStart batchEnd s s', P s → body batchStart batchEnd s = Returns s' → P s') →
  ∀ fuel batchStart s s',
    P s → batch_loop fuel body n batchSize batchStart s = Returns s' → P s'.
Proof.
  intros Hbody. induction fuel as [|fuel IH]; intros batchStart s s' Hs; simpl.
  - destruct (batchStart <? n)%nat; [done|]. by intros [= <-].
  - destruct (batchStart <? n)%nat; [|by intros [= <-]].
    intros H. apply obind_Returns in H as (s1 & H1 & H2).
    apply (IH _ s1 s' (Hbody _ _ s s1 Hs H1) H2).
Qed.

Section descent_writes.

Variable conv : string → value → option R.
Variable act : R → R.
Variable loss : R → R → R.
Variable features targets : list string.
Variable inputs outputs : list (gmap string value).

Lemma update_batch_extends cfg (batchStart batchEnd : nat) (w w' : Weights) :
  update_batch conv act features targets inputs outputs cfg batchStart batchEnd w
  = Returns w' →
  extends_on (trained_key features targets) w w'.
Proof.
  set (K := trained_key features targets). unfold update_batch.
  apply (ofold_extends K). intros s target s' Ht H.
  apply obind_Returns in H as (s1 & H1 & H2).
  apply (extends_on_trans K s s1 s').
  - revert H1. apply (ofold_extends K). intros s0 feature s0' Hf H.
    unfold update_weight in H. apply obind_Returns in H as (g & _ & H).
    apply (Set_extends K) in H as [H _]; [done|]. left. eauto.
  - unfold update_bias in H2. apply obind_Returns in H2 as (g & _ & H).
    apply (Set_extends K) in H as [H _]; [done|]. right. eauto.
Qed.

Lemma epoch_loop_extends cfg (epochs : nat) (w w' : Weights) :
  epoch_loop conv act loss features targets inputs outputs cfg epochs w = Returns w' →
  extends_on (trained_key features targets) w w'.
Proof.
  set (K := trained_key features targets).
  revert w. induction epochs as [|epochs IH]; intros w; simpl.
  - intros [= <-]. apply extends_on_refl.
  - intros H. apply obind_Returns in H as (prev & _ & H).
    apply obind_Returns in H as (w1 & H1 & H).
    apply obind_Returns in H as (cur & _ & H).
    assert (extends_on K w w1) as He1.
    { destruct (BatchSize cfg <=? 0)%Z; [done|]. revert H1.
      apply (batch_loop_invariant (extends_on K w)); [|apply extends_on_refl].
      intros bs be s s' Hs Hb. apply (extends_on_trans K w s s'); [done|].
      by apply update_batch_extends in Hb. }
    destruct (Rlt_b _ _); [by inversion H; subst|].
    apply (extends_on_trans K w w1 w'); [done | by apply IH].
Qed.

End descent_writes.

Lemma range_keys {A} (m : gmap string A) (k : string) :
  range_perm → k ∈ (range A m).*1 ↔ is_Some (m !! k).
Proof.
  intros Hr. rewrite list_elem_of_fmap. split.
  - intros ([k' v] & -> & Hin). apply (range_elem m k' v Hr) in Hin. by eexists.
  - intros [v Hv]. exists (k, v). split; [done|]. by apply range_elem.
Qed.

Lemma trainLinearModel_extends inputs outputs weights config r input0 output0 :
  trainLinearModel inputs outputs weights config = Returns r →
  head inputs = Some input0 → head outputs = Some output0 →
  extends_on (trained_key (range _ input0).*1 (range _ output0).*1) weights r.1 ∧
  r.2 = None ∧
  ∀ k, trained_key (range _ input0).*1 (range _ output0).*1 k → is_Some (Get r.1 k).
Proof.
  unfold trainLinearModel. intros H Hi Ho.
  destruct inputs as [|i0 inputs']; [done|]. injection Hi as ->.
  destruct outputs as [|o0 outputs']; [done|]. injection Ho as ->.
  apply obind_Returns in H as (w1 & H1 & H).
  destruct config as [cfg|]; [|done].
  apply obind_Returns in H as (w2 & H2 & [= <-]). simpl.
  apply init_weights_extends in H1 as [He1 Hq1].
  apply epoch_loop_extends in H2.
  split; [by eapply extends_on_trans|]. split; [done|].
  intros k Hk. destruct H2 as [H2 _]. by apply H2, Hq1.
Qed.

Lemma trainLogisticModel_extends inputs outputs weights config r input0 output0 :
  trainLogisticModel inputs outputs weights config = Returns r →
  head inputs = Some input0 → head outputs = Some output0 →
  extends_on (trained_key (range _ input0).*1 (range _ output0).*1) weights r.1 ∧
  r.2 = None ∧
  ∀ k, trained_key (range _ input0).*1 (range _ output0).*1 k → is_Some (Get r.1 k).
Proof.
  unfold trainLogisticModel. intros H Hi Ho.
  destruct inputs as [|i0 inputs']; [done|]. injection Hi as ->.
  destruct outputs as [|o0 outputs']; [done|]. injection Ho as ->.
  apply obind_Returns in H as (w1 & H1 & H).
  destruct config as [cfg|]; [|done].
  apply obind_Returns in H as (w2 & H2 & [= <-]). simpl.
  apply init_weights_extends in H1 as [He1 Hq1].
  apply epoch_loop_extends in H2.
  split; [by eapply extends_on_trans|]. split; [done|].
  intros k Hk. destruct H2 as [H2 _]. by apply H2, Hq1.
Qed.

(** X12.  A call of the linear or of the logistic trainer that returns,
    on non-empty inputs and outputs, returns no error, loses no key of
    the weight store, leaves a weight for every feature of the first input
    paired with every target of the first output and a bias for every
    such target, and changes no other key. *)
Theorem descent_training_writes (m : Model)
    (inputs outputs : list (gmap string value)) (weights : Weights)
    (config : option Config) r (input0 output0 : gmap string value) :
  range_perm → Type_ m = "linear" ∨ Type_ m = "logistic" →
  Model_Train m inputs outputs weights config = Returns r →
  head inputs = Some input0 → head outputs = Some output0 →
  r.2 = None ∧
  (∀ k, is_Some (Get weights k) → is_Some (Get r.1.1 k)) ∧
  (∀ f t, is_Some (input0 !! f) → is_Some (output0 !! t) →
          is_Some (Get r.1.1 (weightKey f t))) ∧
  (∀ t, is_Some (output0 !! t) → is_Some (Get r.1.1 (biasKey t))) ∧
  (∀ k, (∀ f t, is_Some (input0 !! f) → is_Some (output0 !! t) → k ≠ weightKey f t) →
        (∀ t, is_Some (output0 !! t) → k ≠ biasKey t) →
        Get r.1.1 k = Get weights k).
Proof.
  intros Hr Htype H Hi Ho.
  assert (∃ r', r = (r'.1, m, r'.2) ∧
            extends_on (trained_key (range _ input0).*1 (range _ output0).*1)
              weights r'.1 ∧ r'.2 = None ∧
            ∀ k, trained_key (range _ input0).*1 (range _ output0).*1 k →
                 is_Some (Get r'.1 k)) as (r' & -> & [Hkeep Hframe] & Herr & Hkeys).
  { unfold Model_Train in H. destruct Htype as [Ht|Ht]; rewrite Ht in H; simpl in H.
    - apply obind_Returns in H as (r' & H & [= <-]). exists r'. split; [done|].
      by apply (trainLinearModel_extends inputs outputs weights config).
    - apply obind_Returns in H as (r' & H & [= <-]). exists r'. split; [done|].
      by apply (trainLogisticModel_extends inputs outputs weights config). }
  simpl. split; [done|]. split; [done|]. split; [|split].
  - intros f t Hf Ht. apply Hkeys. left. exists f, t.
    by rewrite !range_keys.
  - intros t Ht. apply Hkeys. right. exists t. by rewrite range_keys.
  - intros k Hw Hb. apply Hframe.
    intros [(f & t & Hf & Ht & ->)|(t & Ht & ->)].
    + apply (Hw f t); [by apply range_keys | by apply range_keys | done].
    + apply (Hb t); [by apply range_keys | done].
Qed.

(** ** engine.go: the errors and the success of [Train] *)

Lemma split_fold_lengths (outputs : list (gmap string value))
    (l : list (string * value)) (acc acc' : option (gmap string value) * split) :
  length (numericOutputs acc.2) = length outputs →
  length (categoricalOutputs acc.2) = length outputs →
  length (booleanOutputs acc.2) = length outputs →
  ofold (split_step outputs) acc l = Returns acc' →
  length (numericOutputs acc'.2) = length outputs ∧
  length (categoricalOutputs acc'.2) = length outputs ∧
  length (booleanOutputs acc'.2) = length outputs.
Proof.
  intros Hn Hc Hb.
  apply (ofold_invariant
           (λ a : option (gmap string value) * split,
              length (numericOutputs a.2) = length outputs ∧
              length (categoricalOutputs a.2) = length outputs ∧
              length (booleanOutputs a.2) = length outputs)); [|done].
  intros [targets s] [key val] a' (Hn' & Hc' & Hb'). simpl in *.
  destruct (classify_target val) as [b|]; [|by intros [= <-]].
  destruct targets as [t|]; [|done].
  intros [= <-]. destruct b; simpl; rewrite ?copy_field_length by done; done.
Qed.

Lemma trainLinearModel_no_error inputs outputs weights config r :
  trainLinearModel inputs outputs weights config = Returns r →
  inputs ≠ [] → outputs ≠ [] → r.2 = None.
Proof.
  intros H Hi Ho. destruct inputs as [|i0 ?]; [done|].
  destruct outputs as [|o0 ?]; [done|].
  by apply (trainLinearModel_extends _ _ _ _ _ i0 o0) in H as (_ & H & _).
Qed.

Lemma trainLogisticModel_no_error inputs outputs weights config r :
  trainLogisticModel inputs outputs weights config = Returns r →
  inputs ≠ [] → outputs ≠ [] → r.2 = None.
Proof.
  intros H Hi Ho. destruct inputs as [|i0 ?]; [done|].
  destruct outputs as [|o0 ?]; [done|].
  by apply (trainLogisticModel_extends _ _ _ _ _ i0 o0) in H as (_ & H & _).
Qed.

Lemma trainCategoricalModel_no_error inputs outputs weights config model r :
  trainCategoricalModel inputs outputs weights config model = Returns r →
  Type_ r.1.2 = Type_ model ∧ (inputs ≠ [] → outputs ≠ [] → r.2 = None).
Proof.
  unfold trainCategoricalModel. intros H.
  destruct inputs as [|i0 ?]; [by inversion H; subst|].
  destruct outputs as [|o0 ?]; [by inversion H; subst|].
  apply obind_Returns in H as (w & _ & [= <-]). done.
Qed.

Lemma trainMixedModel_no_error inputs outputs weights config model r :
  trainMixedModel inputs outputs weights config model = Returns r →
  Type_ r.1.2 = Type_ model ∧ (inputs ≠ [] → outputs ≠ [] → r.2 = None).
Proof.
  unfold trainMixedModel. intros H.
  destruct outputs as [|output0 outputs'] eqn:Houtputs; [by inversion H; subst|].
  rewrite <- Houtputs in *.
  assert (outputs ≠ []) as Hne by (by rewrite Houtputs).
  apply obind_Returns in H as (acc & Hacc & H).
  apply split_fold_lengths in Hacc as (Hn & Hc & Hb);
    [| simpl; by rewrite length_replicate ..].
  assert (∀ l : list (gmap string value), length l = length outputs → l ≠ [])
    as Hlen.
  { intros l Hl ->. destruct outputs; [done | discriminate]. }
  apply obind_Returns in H as (r1 & H1 & H).
  assert (inputs ≠ [] → r1.2 = None) as Hr1.
  { intros Hi. destruct (0 <? target_count (numericOutputs acc.2))%nat.
    - apply trainLinearModel_no_error in H1; [done | done | by apply Hlen].
    - by inversion H1; subst. }
  destruct (r1.2) as [err1|] eqn:E1.
  { inversion H; subst. split; [done|]. intros Hi. by specialize (Hr1 Hi). }
  apply obind_Returns in H as (r2 & H2 & H).
  assert (Type_ r2.1.2 = Type_ model ∧ (inputs ≠ [] → r2.2 = None)) as [Ht2 Hr2].
  { destruct (0 <? target_count (categoricalOutputs acc.2))%nat.
    - apply trainCategoricalModel_no_error in H2 as [Ht He]. split; [done|].
      intros Hi. apply He; [done | by apply Hlen].
    - by inversion H2; subst. }
  destruct (r2.2) as [err2|] eqn:E2.
  { inversion H; subst. split; [done|]. intros Hi. by specialize (Hr2 Hi). }
  apply obind_Returns in H as (r3 & H3 & H).
  assert (inputs ≠ [] → r3.2 = None) as Hr3.
  { intros Hi. destruct (0 <? target_count (booleanOutputs acc.2))%nat.
    - apply trainLogisticModel_no_error in H3; [done | done | by apply Hlen].
    - by inversion H3; subst. }
  destruct (r3.2) as [err3|] eqn:E3; inversion H; subst; split; try done.
  intros Hi. by specialize (Hr3 Hi).
Qed.

Lemma Model_Train_result (m : Model) inputs outputs weights config r :
  Model_Train m inputs outputs weights config = Returns r →
  inputs ≠ [] → outputs ≠ [] →
  Type_ r.1.2 = Type_ m ∧
  (supported (Type_ m) → r.2 = None) ∧
  (¬ supported (Type_ m) → r.2 = Some ErrUnsupportedModelType).
Proof.
  unfold Model_Train, supported. intros H Hi Ho.
  destruct (String.eqb_spec (Type_ m) "linear") as [E1|E1].
  { apply obind_Returns in H as (r' & H & [= <-]). simpl.
    apply trainLinearModel_no_error in H; [|done..]. split; [done|].
    split; [done|]. intros Hn. destruct Hn. auto. }
  destruct (String.eqb_spec (Type_ m) "logistic") as [E2|E2].
  { apply obind_Returns in H as (r' & H & [= <-]). simpl.
    apply trainLogisticModel_no_error in H; [|done..]. split; [done|].
    split; [done|]. intros Hn. destruct Hn. auto. }
  destruct (String.eqb_spec (Type_ m) "categorical") as [E3|E3].
  { apply trainCategoricalModel_no_error in H as [Ht He]. split; [done|].
    split; [intros _; by apply He|]. intros Hn. destruct Hn. auto. }
  destruct (String.eqb_spec (Type_ m) "mixed") as [E4|E4].
  { apply trainMixedModel_no_error in H as [Ht He]. split; [done|].
    split; [intros _; by apply He|]. intros Hn. destruct Hn. auto. }
  inversion H; subst. simpl. split; [done|]. split; [|done].
  intros [?|[?|[?|?]]]; done.
Qed.

Lemma Train_result (e : Engine) (m : Model) inputs outputs r :
  model e = Some m → length inputs = length outputs → inputs ≠ [] →
  Train e inputs outputs = Returns r →
  ∃ m' w', model r.1 = Some m' ∧ Type_ m' = Type_ m ∧ weights r.1 = Some w' ∧
           config r.1 = config e ∧
           (supported (Type_ m) → r.2 = None) ∧
           (¬ supported (Type_ m) → r.2 = Some ErrUnsupportedModelType).
Proof.
  intros Hm Hlen Hi. unfold Train. rewrite Hm, Hlen, Nat.eqb_refl. simpl.
  assert (outputs ≠ []) as Ho.
  { intros ->. destruct inputs; [done | discriminate]. }
  destruct (Nat.eqb_spec (length outputs) 0) as [E|E];
    [by destruct outputs|].
  intros H. apply obind_Returns in H as (r' & H & [= <-]). simpl.
  apply Model_Train_result in H as (Ht & Hs & Hu); [|done..]. eauto 10.
Qed.

(** X13.  When [Train] returns an error, it is one of four: the model is
    not initialized; the counts of inputs and outputs differ; there is no
    training data; the variant is not supported.  In the first three cases
    the engine is as before the call.  No trainer adds an error of its
    own: the errors "invalid input data" and "invalid output data" never
    come out of [Train]. *)
Theorem Train_errors (e e' : Engine) inputs outputs (err : error) :
  Train e inputs outputs = Returns (e', Some err) →
  (err = ErrModelNotInitialized ∧ model e = None ∧ e' = e) ∨
  (err = ErrSampleCountMismatch (length inputs) (length outputs) ∧
   length inputs ≠ length outputs ∧ e' = e) ∨
  (err = ErrNoTrainingData ∧ inputs = [] ∧ outputs = [] ∧ e' = e) ∨
  (err = ErrUnsupportedModelType ∧ ∃ m, model e = Some m ∧ ¬ supported (Type_ m)).
Proof.
  intros H. destruct (model e) as [m|] eqn:Hm.
  2: { unfold Train in H. rewrite Hm in H. inversion H; subst. auto. }
  destruct (Nat.eqb_spec (length inputs) (length outputs)) as [Hlen|Hlen].
  2: { unfold Train in H. rewrite Hm in H.
       apply Nat.eqb_neq in Hlen as Hb. rewrite Hb in H. simpl in H.
       inversion H; subst. auto. }
  destruct inputs as [|i0 inputs'].
  { destruct outputs; [|discriminate]. unfold Train in H. rewrite Hm in H.
    simpl in H. inversion H; subst. right. right. left. done. }
  destruct (Train_result e m _ _ _ Hm Hlen ltac:(done) H)
    as (m' & w' & _ & _ & _ & _ & Hs & Hu). simpl in *.
  right. right. right.
  assert (¬ supported (Type_ m)) as Hn.
  { intros Hsup. by specialize (Hs Hsup). }
  specialize (Hu Hn). injection Hu as ->. eauto.
Qed.

Lemma Predict_supported (e : Engine) (m : Model) (w : Weights)
    (input : gmap string value) :
  model e = Some m → weights e = Some w → supported (Type_ m) →
  ∃ result, Predict e input = (Some result, None).
Proof.
  intros Hm Hw Hs. unfold Predict, Model_Predict. rewrite Hm, Hw.
  destruct Hs as [E|[E|[E|E]]]; rewrite E; simpl; eauto.
Qed.

Lemma NewAutoModel_cases (sample : gmap string value) :
  NewAutoModel sample = NewLinearModel ∨ NewAutoModel sample = NewLogisticModel ∨
  NewAutoModel sample = NewCategoricalModel ∨ NewAutoModel sample = NewMixedModel.
Proof.
  unfold NewAutoModel.
  destruct (foldl scan_step (false, false, false) (range _ sample)) as [[a b] c].
  repeat case_match; auto.
Qed.

(** X14.  [TrainAuto] always returns.  Without outputs it gives the error
    "no output data provided"; when the counts of inputs and outputs
    differ it gives the count error of [Train] behind the prefix
    "training error"; in every other case it gives no error and an engine
    whose descriptor has the variant selected from the first output and
    whose [Predict] returns a record for every input. *)
Theorem TrainAuto_outcome (inputs outputs : list (gmap string value)) :
  match outputs with
  | [] => TrainAuto inputs outputs = Returns (None, Some ErrNoOutputData)
  | output0 :: _ =>
      if (length inputs =? length outputs)%nat then
        ∃ e m w, TrainAuto inputs outputs = Returns (Some e, None) ∧
                 model e = Some m ∧ Type_ m = Type_ (NewAutoModel output0) ∧
                 weights e = Some w ∧
                 ∀ input, ∃ result, Predict e input = (Some result, None)
      else
        TrainAuto inputs outputs
        = Returns (None,
                   Some (ErrWrap "training error"
                           (ErrSampleCountMismatch (length inputs) (length outputs))))
  end.
Proof.
  destruct outputs as [|output0 outputs'] eqn:Houtputs; [done|].
  rewrite <- Houtputs.
  assert (TrainAuto inputs outputs
          = let* r := Train (NewAuto output0) inputs outputs in
            match r.2 with
            | Some err => Returns (None, Some (ErrWrap "training error" err))
            | None => Returns (Some r.1, None)
            end) as -> by (by rewrite Houtputs).
  destruct (Nat.eqb_spec (length inputs) (length outputs)) as [Hlen|Hlen].
  2: { unfold Train, NewAuto. cbn [model].
       apply Nat.eqb_neq in Hlen. by rewrite Hlen. }
  assert (inputs ≠ []) as Hi.
  { intros ->. rewrite Houtputs in Hlen. discriminate. }
  assert (supported (Type_ (NewAutoModel output0))) as Hsup.
  { unfold supported.
    destruct (NewAutoModel_cases output0) as [-> | [-> | [-> | ->]]]; simpl; auto. }
  destruct (Train_returns (NewAuto output0) (NewAutoModel output0) DefaultConfig
              inputs outputs) as [r Hr]; [done | done | simpl; lia | done | |].
  { intros Hmix. destruct (NewAutoModel_cases output0) as [E|[E|[E|E]]];
      rewrite E in Hmix |- *; simpl in *; try discriminate; eauto. }
  rewrite Hr. cbn [obind].
  destruct (Train_result (NewAuto output0) (NewAutoModel output0) _ _ _
              eq_refl Hlen Hi Hr)
    as (m' & w' & Hm' & Ht' & Hw' & _ & Hs & _).
  rewrite (Hs Hsup). exists r.1, m', w'. repeat split; try done.
  intros input. apply (Predict_supported r.1 m' w'); [done | done |].
  by rewrite Ht'.
Qed.

Lemma Model_Train_returns (m : Model) (cfg : Config) inputs outputs (w : Weights) :
  supported (Type_ m) → (1 <= BatchSize cfg)%Z → live w →
  (Type_ m = "mixed" → is_Some (Targets m)) →
  (length inputs <= length outputs)%nat →
  ∃ r, Model_Train m inputs outputs w (Some cfg) = Returns r ∧ live r.1.1.
Proof.
  intros Hs Hsize Hw Ht Hlen. unfold Model_Train.
  destruct (String.eqb_spec (Type_ m) "linear").
  { destruct (trainLinearModel_returns inputs outputs w cfg) as (r & -> & Hr);
      [done..|]. simpl. eauto. }
  destruct (String.eqb_spec (Type_ m) "logistic").
  { destruct (trainLogisticModel_returns inputs outputs w cfg) as (r & -> & Hr);
      [done..|]. simpl. eauto. }
  destruct (String.eqb_spec (Type_ m) "categorical").
  { by apply trainCategoricalModel_returns. }
  destruct (String.eqb_spec (Type_ m) "mixed").
  { apply trainMixedModel_returns; [done | done | done | by apply Ht]. }
  destruct Hs as [?|[?|[?|?]]]; done.
Qed.

(** X15.  [Train] succeeds whenever its checks pass: with a descriptor of
    one of the four variants (for the mixed one, with a [Targets] map that
    is not nil), a configuration whose batch size is at least 1, a weight
    store that is absent or holds a map, and as many outputs as inputs, at
    least one, it returns no error; it neither panics nor runs forever.
    The engine keeps its variant and its configuration and holds a weight
    store with a map afterwards, so the same conditions hold for the next
    call.  (Descriptors are as the embedding has them: a category table,
    where there is one, is a map that is not nil.) *)
Theorem Train_succeeds (e : Engine) (m : Model) (cfg : Config)
    (inputs outputs : list (gmap string value)) :
  model e = Some m → supported (Type_ m) → config e = Some cfg →
  (1 <= BatchSize cfg)%Z → (∀ w, weights e = Some w → live w) →
  (Type_ m = "mixed" → is_Some (Targets m)) →
  length inputs = length outputs → inputs ≠ [] →
  ∃ e' m' w',
    Train e inputs outputs = Returns (e', None) ∧
    model e' = Some m' ∧ Type_ m' = Type_ m ∧
    (Type_ m' = "mixed" → is_Some (Targets m')) ∧
    weights e' = Some w' ∧ live w' ∧ config e' = Some cfg.
Proof.
  intros Hm Hs Hcfg Hsize Hw Ht Hlen Hi.
  assert (outputs ≠ []) as Ho.
  { intros ->. destruct inputs; [done | discriminate]. }
  set (w := match weights e with Some w => w | None => {| Values := Some ∅ |} end).
  assert (live w) as Hlive.
  { subst w. destruct (weights e) as [w|]; [by apply Hw|]. unfold live. simpl. eauto. }
  destruct (Model_Train_returns m cfg inputs outputs w) as (r & Hr & Hlr);
    [done | done | done | done | lia |].
  destruct (Model_Train_result m inputs outputs w (Some cfg) r Hr Hi Ho)
    as (Htype & Hnone & _).
  exists {| model := Some r.1.2; weights := Some r.1.1; config := Some cfg |},
    r.1.2, r.1.1.
  split; [|repeat split; try done].
  - unfold Train. rewrite Hm, Hlen, Nat.eqb_refl, Hcfg. simpl.
    destruct (Nat.eqb_spec (length outputs) 0) as [E|E]; [by destruct outputs|].
    fold w. rewrite Hr. simpl. by rewrite (Hnone Hs).
  - intros Hmix. rewrite Htype in Hmix. specialize (Ht Hmix).
    revert Hr. unfold Model_Train. rewrite Hmix. simpl. intros Hr.
    unfold trainMixedModel in Hr.
    destruct outputs as [|o0 outputs'] eqn:Houtputs; [done|].
    rewrite <- Houtputs in Hr.
    apply obind_Returns in Hr as (acc & Hacc & Hr).
    assert (is_Some acc.1) as Hacc1.
    { revert Hacc.
      apply (ofold_invariant
               (λ a : option (gmap string value) * split, is_Some a.1)); [|done].
      intros [targets s] [key val] a' Ha. simpl in *.
      destruct (classify_target val); [|by intros [= <-]].
      destruct targets; [|done]. intros [= <-]. simpl. eauto. }
    apply obind_Returns in Hr as (r1 & _ & Hr).
    destruct (r1.2); [by inversion Hr; subst|].
    apply obind_Returns in Hr as (r2 & H2 & Hr).
    assert (Targets r2.1.2 = acc.1) as Ht2.
    { destruct (0 <? target_count (categoricalOutputs acc.2))%nat.
      - by apply trainCategoricalModel_descriptor in H2 as [_ H2].
      - by inversion H2; subst. }
    destruct (r2.2); [inversion Hr; subst; simpl; by rewrite Ht2|].
    apply obind_Returns in Hr as (r3 & _ & Hr).
    destruct (r3.2); inversion Hr; subst; simpl; by rewrite Ht2.
Qed.

Lemma range_nonempty {A} (m : gmap string A) :
  range_perm → m ≠ ∅ → (range A m).*1 ≠ [].
Proof.
  intros Hr Hne Hnil. apply fmap_nil_inv in Hnil. apply Hne.
  apply map_to_list_empty_iff. apply Permutation_nil_r.
  by rewrite <- (Hr A m), Hnil.
Qed.

Lemma init_weights_nil_store (features targets : list string) (w : Weights) :
  Values w = None → targets ≠ [] → init_weights features targets w = Panics.
Proof.
  intros Hw Ht. destruct targets as [|t targets]; [done|].
  assert (∀ key, init_weight w key = Panics) as Hinit.
  { intros key. unfold init_weight, Get, values_of, Set_. rewrite Hw. simpl.
    by rewrite lookup_empty. }
  unfold init_weights. destruct features as [|f features]; simpl.
  - by rewrite Hinit.
  - by rewrite Hinit.
Qed.

(** X16.  Two ways [Train] panics once its own checks have passed, for the
    linear and the logistic variant.  (1) The engine has no configuration
    ([WithConfig(nil)]): the trainer reads the number of epochs through
    the nil pointer.  (2) The weight store holds a nil map and the first
    output has a field: the trainer writes the first missing weight into
    the nil map. *)
Theorem Train_panics (e : Engine) (m : Model)
    (inputs outputs : list (gmap string value)) (output0 : gmap string value) :
  range_perm → model e = Some m → Type_ m = "linear" ∨ Type_ m = "logistic" →
  length inputs = length outputs → head outputs = Some output0 →
  (config e = None ∧ (∀ w, weights e = Some w → live w)) ∨
  (weights e = Some {| Values := None |} ∧ output0 ≠ ∅) →
  Train e inputs outputs = Panics.
Proof.
  intros Hr Hm Htype Hlen Ho Hcase. unfold Train. rewrite Hm, Hlen, Nat.eqb_refl.
  destruct outputs as [|o0 outputs']; [done|]. injection Ho as ->.
  destruct inputs as [|i0 inputs']; [done|]. simpl.
  destruct Hcase as [[Hc Hw]|[Hw Hne]].
  - set (w := match weights e with Some w => w | None => {| Values := Some ∅ |} end).
    assert (live w) as Hlive.
    { subst w. destruct (weights e) as [w|]; [by apply Hw|]. unfold live. simpl. eauto. }
    rewrite Hc. unfold Model_Train.
    destruct (init_weights_live (range _ i0).*1 (range _ output0).*1 w Hlive)
      as (w1 & Hw1 & _).
    destruct Htype as [Ht|Ht]; rewrite Ht; simpl.
    + unfold trainLinearModel. by rewrite Hw1.
    + unfold trainLogisticModel. by rewrite Hw1.
  - rewrite Hw. unfold Model_Train.
    assert (init_weights (range _ i0).*1 (range _ output0).*1 {| Values := None |}
            = Panics) as Hp
      by (apply init_weights_nil_store; [done | by apply range_nonempty]).
    destruct Htype as [Ht|Ht]; rewrite Ht; simpl.
    + unfold trainLinearModel. by rewrite Hp.
    + unfold trainLogisticModel. by rewrite Hp.
Qed.

(** ** engine.go: training, then prediction *)

Lemma trained_store_targets (input0 output0 : gmap string value) (w' : Weights)
    (t : string) :
  range_perm → (∀ f, is_Some (input0 !! f) → arrow_free f) →
  extends_on (trained_key (range _ input0).*1 (range _ output0).*1)
    {| Values := Some ∅ |} w' →
  (∀ k, trained_key (range _ input0).*1 (range _ output0).*1 k → is_Some (Get w' k)) →
  names_target w' t ↔ is_Some (output0 !! t).
Proof.
  intros Hr Hfree [_ Hframe] Hkeys.
  assert (∀ f t', split_arrow f = None →
            splitWeightKey (weightKey f t') !! 1%nat = Some t') as Hsplit.
  { intros f t' Hf. unfold splitWeightKey, weightKey.
    by rewrite split_arrow_complete. }
  split.
  - intros (key & Hkey & Hpart).
    destruct (output0 !! t) as [v|] eqn:E; [eauto|]. exfalso.
    assert (¬ trained_key (range _ input0).*1 (range _ output0).*1 key) as Hn.
    { intros [(f & t' & Hf & Ht' & ->)|(t' & Ht' & ->)].
      - apply (range_keys _ _ Hr) in Hf, Ht'.
        rewrite Hsplit in Hpart by (by apply split_arrow_None, Hfree).
        injection Hpart as ->. rewrite E in Ht'. by destruct Ht'.
      - apply (range_keys _ _ Hr) in Ht'.
        change (biasKey t') with (weightKey "bias" t') in Hpart.
        rewrite Hsplit in Hpart by done.
        injection Hpart as ->. rewrite E in Ht'. by destruct Ht'. }
    rewrite (Hframe key Hn) in Hkey. unfold Get, values_of in Hkey. simpl in Hkey.
    rewrite lookup_empty in Hkey. by destruct Hkey.
  - intros Ht. exists (biasKey t). split.
    + apply Hkeys. right. exists t. split; [by apply range_keys | done].
    + change (biasKey t) with (weightKey "bias" t). by apply Hsplit.
Qed.

(** X17.  Training, then prediction, for the linear and the logistic
    variant.  After a [Train] without error on an engine that had no
    weight store yet, when no feature name of the first input holds
    ["->"], [Predict] returns for every input a record whose fields are
    exactly the fields of the first training output, each holding a
    [float64]. *)
Theorem Train_then_Predict (e e' : Engine) (m : Model)
    (inputs outputs : list (gmap string value))
    (input0 output0 input : gmap string value) :
  range_perm → model e = Some m → Type_ m = "linear" ∨ Type_ m = "logistic" →
  weights e = None → Train e inputs outputs = Returns (e', None) →
  head inputs = Some input0 → head outputs = Some output0 →
  (∀ f, is_Some (input0 !! f) → arrow_free f) →
  ∃ result, Predict e' input = (Some result, None) ∧
    ∀ t, (∃ x, result !! t = Some (VFloat64 x)) ↔ is_Some (output0 !! t).
Proof.
  intros Hr Hm Htype Hw H Hi Ho Hfree. unfold Train in H. rewrite Hm, Hw in H.
  destruct (negb (length inputs =? length outputs)%nat); [done|].
  destruct (length inputs =? 0)%nat; [done|].
  apply obind_Returns in H as (r & H & [= <- Herr]).
  assert (∃ w', r.1 = (w', m) ∧
            extends_on (trained_key (range _ input0).*1 (range _ output0).*1)
              {| Values := Some ∅ |} w' ∧
            ∀ k, trained_key (range _ input0).*1 (range _ output0).*1 k →
                 is_Some (Get w' k)) as (w' & Hr1 & Hext & Hkeys).
  { unfold Model_Train in H. destruct Htype as [Ht|Ht]; rewrite Ht in H; simpl in H.
    - apply obind_Returns in H as (r' & H & [= <-]). exists r'.1. split; [done|].
      by apply (trainLinearModel_extends inputs outputs _ _ _ input0 output0)
        in H as (? & _ & ?).
    - apply obind_Returns in H as (r' & H & [= <-]). exists r'.1. split; [done|].
      by apply (trainLogisticModel_extends inputs outputs _ _ _ input0 output0)
        in H as (? & _ & ?). }
  rewrite Hr1. cbn [fst snd]. unfold Predict, Model_Predict. cbn [model weights].
  assert (∀ (g : R → R) (t : string),
            (∃ x, foldl (λ result kv,
                           <[kv.1 := VFloat64 (g (input_combination w' kv.1 input))]>
                             result)
                    (∅ : gmap string value) (range _ (collect_targets w')) !! t
                  = Some (VFloat64 x))
            ↔ is_Some (output0 !! t)) as Hfields.
  { intros g t.
    rewrite (fold_insert_range
               (λ k _, VFloat64 (g (input_combination w' k input)))
               (collect_targets w') t Hr).
    rewrite <- (trained_store_targets input0 output0 w' t Hr Hfree Hext Hkeys),
      <- (collect_targets_names w' t Hr).
    destruct (collect_targets w' !! t); simpl; split.
    - eauto.
    - eauto.
    - by intros [? ?].
    - by intros [? ?]. }
  destruct Htype as [Ht|Ht]; rewrite Ht; simpl.
  - eexists. split; [done|]. intros t. apply (Hfields (λ z, z) t).
  - eexists. split; [done|]. intros t. apply (Hfields sigmoid t).
Qed.

(** ** categorical.go: softmax and the predicted label *)

Lemma Rsum_mult (c : R) (f : R → R) (l : list R) :
  Rsum ((λ x, c * f x)%R <$> l) = (c * Rsum (f <$> l))%R.
Proof.
  induction l as [|x l IH].
  - unfold Rsum. simpl. ring.
  - rewrite !fmap_cons. unfold Rsum in *. simpl. rewrite IH. ring.
Qed.

Lemma exp_sum_positive (scores : gmap string R) :
  scores ≠ ∅ → (0 < map_sum (exp <$> scores))%R.
Proof.
  intros Hne. apply Rsum_pos.
  - intros Hnil. apply fmap_nil_inv, map_to_list_empty_iff in Hnil.
    apply Hne. by apply fmap_empty_inv in Hnil.
  - apply Forall_forall. intros x Hin.
    apply list_elem_of_fmap in Hin as ([k e] & -> & Hin).
    apply elem_of_map_to_list in Hin. rewrite lookup_fmap in Hin.
    destruct (scores !! k); simpl in Hin; [|discriminate].
    inversion Hin; subst. apply exp_pos.
Qed.

Lemma softmax_plain (scores : gmap string R) :
  range_perm →
  softmax scores = (λ s, exp s / map_sum (exp <$> scores))%R <$> scores.
Proof.
  intros Hr. rewrite (softmax_eq scores Hr). cbv zeta.
  set (mx := max_score scores). rewrite <- map_fmap_compose.
  assert (map_sum ((λ s, exp (s - mx)) <$> scores)
          = (exp (- mx) * map_sum (exp <$> scores))%R) as ->.
  { rewrite !map_sum_fmap. rewrite <- Rsum_mult. f_equal.
    apply list_fmap_ext. intros i s _. simpl.
    unfold Rminus. rewrite exp_plus. ring. }
  apply map_fmap_ext. intros k s _. simpl.
  pose proof (exp_pos (- mx)) as Hpos.
  unfold Rdiv, Rminus. rewrite exp_plus, Rinv_mult.
  transitivity (exp s * / map_sum (exp <$> scores) * (exp (- mx) * / exp (- mx)))%R;
    [ring|].
  rewrite Rinv_r by lra. ring.
Qed.

(** X18.  In exact arithmetic the shift by the largest score does not
    show in the result of [softmax]: every category gets the exponential
    of its score divided by the sum of the exponentials of all scores.
    Hence a category with a larger score never gets a smaller
    probability. *)
Theorem softmax_formula (scores : gmap string R) :
  range_perm →
  softmax scores = (λ s, exp s / map_sum (exp <$> scores))%R <$> scores ∧
  ∀ a b x y p q,
    scores !! a = Some x → scores !! b = Some y → (x <= y)%R →
    softmax scores !! a = Some p → softmax scores !! b = Some q → (p <= q)%R.
Proof.
  intros Hr. split; [by apply softmax_plain|].
  intros a b x y p q Ha Hb Hxy. rewrite (softmax_plain scores Hr), !lookup_fmap.
  rewrite Ha, Hb. simpl. intros [= <-] [= <-].
  assert (scores ≠ ∅) as Hne by (intros ->; by rewrite lookup_empty in Ha).
  pose proof (exp_sum_positive scores Hne) as Hpos.
  apply Rmult_le_compat_r; [by apply Rlt_le, Rinv_0_lt_compat|].
  destruct (Req_dec x y) as [->|Hneq]; [lra|].
  apply Rlt_le, exp_increasing. lra.
Qed.

Lemma best_fold (l : list (string * R)) (best0 : string * R) :
  let best := foldl (λ best kv, if Rgt_b kv.2 best.2 then (kv.1, kv.2) else best)
                best0 l in
  (best = best0 ∨ best ∈ l) ∧ (best0.2 <= best.2)%R ∧
  ∀ kv, kv ∈ l → (kv.2 <= best.2)%R.
Proof.
  revert best0. induction l as [|[c q] l IH]; intros best0; cbn [foldl].
  - split; [by left|]. split; [lra|]. intros kv Hin. by apply elem_of_nil in Hin.
  - cbn [fst snd].
    set (best1 := if Rgt_b q best0.2 then (c, q) else best0).
    destruct (IH best1) as (Hin & Hle & Hall).
    assert ((best1 = best0 ∨ best1 = (c, q)) ∧ (best0.2 <= best1.2)%R
            ∧ (q <= best1.2)%R) as (Hb1 & Hle1 & Hq1).
    { subst best1. unfold Rgt_b. destruct (Rlt_dec best0.2 q); simpl.
      - split; [by right|]. lra.
      - split; [by left|]. lra. }
    split; [|split].
    + destruct Hin as [->|Hin]; [|right; by right].
      destruct Hb1 as [->| ->]; [by left | right; by left].
    + lra.
    + intros kv Hkv. apply elem_of_cons in Hkv as [->|Hkv]; [simpl; lra|].
      by apply Hall.
Qed.

Lemma best_category_max (probs : gmap string R) :
  range_perm → best_category probs ≠ "" →
  ∃ p, probs !! best_category probs = Some p ∧
       ∀ c q, probs !! c = Some q → (q <= p)%R.
Proof.
  intros Hr Hne. unfold best_category in *.
  destruct (best_fold (range _ probs) ("", 0%R)) as (Hin & _ & Hall).
  set (best := foldl _ _ _) in *.
  destruct Hin as [Heq|Hin]; [by rewrite Heq in Hne|].
  exists best.2. split.
  - apply (range_elem probs best.1 best.2 Hr). by destruct best.
  - intros c q Hc. apply (Hall (c, q)). by apply range_elem.
Qed.

(** X19.  In a categorical prediction, the value of a target that comes
    with a distribution under the target's name followed by ["_probs"] is
    the label, converted back, of a category no other category of that
    distribution is more probable than; the label is not the empty
    text. *)
Theorem predicted_label_most_probable input weights model (target : string)
    (v : value) (probs : gmap string R) :
  range_perm →
  (predictCategoricalModel input weights model).1 !! target = Some v →
  (∀ other, v ≠ VProbs other) →
  (predictCategoricalModel input weights model).1 !! (target +:+ "_probs")
    = Some (VProbs probs) →
  most_probable v probs.
Proof.
  intros Hr. unfold predictCategoricalModel. cbn [fst].
  generalize (range _ (default ∅ (Categories model))). intros l.
  revert target v probs.
  apply (foldl_invariant
           (λ result : gmap string value,
              ∀ target v probs,
                result !! target = Some v → (∀ other, v ≠ VProbs other) →
                result !! (target +:+ "_probs") = Some (VProbs probs) →
                most_probable v probs)
           (λ _, True)).
  - intros result [t0 categories] IH _ target v probs. unfold predict_target.
    destruct (size categories <=? 0)%nat; [apply IH|].
    set (P0 := target_probabilities input weights t0 categories).
    destruct (String.eqb_spec (best_category P0) "") as [|Hbest]; [apply IH|].
    cbn [negb]. rewrite (copy_map _ Hr).
    destruct (decide (t0 +:+ "_probs" = target)) as [<-|Hne1].
    { rewrite lookup_insert_eq. intros [= <-] Hv. by destruct (Hv P0). }
    rewrite lookup_insert_ne by done.
    destruct (decide (t0 = target)) as [<-|Hne2].
    + rewrite !lookup_insert_eq. intros [= <-] _ [= <-].
      destruct (best_category_max P0 Hr Hbest) as (p & Hp & Hmax).
      by exists (best_category P0), p.
    + rewrite lookup_insert_ne by done. intros Hv Hnp.
      rewrite lookup_insert_ne by (intros E; by apply append_inj_r in E).
      destruct (decide (t0 = target +:+ "_probs")) as [->|Hne3].
      * rewrite lookup_insert_eq. intros [= E].
        by apply restore_label_not_probs in E.
      * rewrite lookup_insert_ne by done. by apply IH.
  - by apply Forall_forall.
  - intros target v probs. by rewrite lookup_empty.
Qed.

(** ** categorical.go: the category table of a new target *)

Lemma count_fold_labels (target : string) (outputs : list (gmap string value))
    (acc : gmap string Z) (label : string) :
  is_Some (foldl (λ categoryCount out,
                    match out !! target with
                    | Some val =>
                        let category := Sprintf_v val in
                        <[category := (default 0 (categoryCount !! category) + 1)%Z]>
                          categoryCount
                    | None => categoryCount
                    end) acc outputs !! label)
  ↔ is_Some (acc !! label) ∨ label_of target outputs label.
Proof.
  revert acc. induction outputs as [|out outputs IH]; intros acc; cbn [foldl].
  - split; [by left|]. intros [H|(out & v & Hin & _)]; [done|].
    by apply elem_of_nil in Hin.
  - rewrite IH. unfold label_of. destruct (out !! target) as [v|] eqn:Hv.
    + cbv zeta. split.
      * intros [H|(out' & v' & Hin & Hv' & Hl)].
        -- destruct (decide (Sprintf_v v = label)) as [<-|Hne].
           ++ right. exists out, v. split; [by left | done].
           ++ rewrite lookup_insert_ne in H by done. by left.
        -- right. exists out', v'. split; [by right | done].
      * intros [H|(out' & v' & Hin & Hv' & Hl)].
        -- left. destruct (decide (Sprintf_v v = label)) as [<-|Hne].
           ++ rewrite lookup_insert_eq. eauto.
           ++ by rewrite lookup_insert_ne.
        -- apply elem_of_cons in Hin as [->|Hin].
           ++ left. rewrite Hv in Hv'. injection Hv' as <-. rewrite Hl.
              rewrite lookup_insert_eq. eauto.
           ++ right. eauto.
    + split.
      * intros [H|(out' & v' & Hin & Hv' & Hl)]; [by left|].
        right. exists out', v'. split; [by right | done].
      * intros [H|(out' & v' & Hin & Hv' & Hl)]; [by left|].
        apply elem_of_cons in Hin as [->|Hin]; [congruence|]. right. eauto.
Qed.

Lemma assign_fold_numbered (l : list (string * Z)) (acc : gmap string Z * Z) :
  acc.2 = Z.of_nat (size acc.1) → numbered acc.1 →
  let r := foldl assign_step acc l in
  r.2 = Z.of_nat (size r.1) ∧ numbered r.1 ∧
  ∀ label, is_Some (r.1 !! label) ↔ is_Some (acc.1 !! label) ∨ label ∈ l.*1.
Proof using Type.
  revert acc. induction l as [|[c n] l IH]; intros acc Hsize Hnum; cbn [foldl].
  - split; [done|]. split; [done|]. intros label. split; [by left|].
    intros [H|H]; [done | by apply elem_of_nil in H].
  - assert ((assign_step acc (c, n)).2 = Z.of_nat (size (assign_step acc (c, n)).1)
            ∧ numbered (assign_step acc (c, n)).1
            ∧ ∀ label, is_Some ((assign_step acc (c, n)).1 !! label)
                       ↔ is_Some (acc.1 !! label) ∨ label = c)
      as (Hsize1 & Hnum1 & Hdom1).
    { unfold assign_step. cbn [fst snd].
      destruct (acc.1 !! c) as [i|] eqn:Hc.
      - split; [done|]. split; [done|]. intros label. split; [by left|].
        intros [H | ->]; [done | by rewrite Hc].
      - cbn [fst snd]. destruct Hnum as [Hbound Hinj]. unfold numbered.
        rewrite map_size_insert_None by done. split; [lia|]. split; [split|].
        + intros label index. destruct (decide (c = label)) as [<-|Hne].
          * rewrite lookup_insert_eq. intros [= <-]. lia.
          * rewrite lookup_insert_ne by done. intros H.
            specialize (Hbound _ _ H). lia.
        + intros l1 l2 index.
          destruct (decide (c = l1)) as [<-|Hne1], (decide (c = l2)) as [<-|Hne2];
            rewrite ?lookup_insert_eq, ?lookup_insert_ne by done; try done.
          * intros [= <-] H. specialize (Hbound _ _ H). lia.
          * intros H [= <-]. specialize (Hbound _ _ H). lia.
          * apply Hinj.
        + intros label. destruct (decide (c = label)) as [<-|Hne].
          * rewrite lookup_insert_eq. split; eauto.
          * rewrite lookup_insert_ne by done. split; [by left|].
            intros [H|H]; [done | congruence]. }
    destruct (IH _ Hsize1 Hnum1) as (Hs & Hn & Hd).
    split; [done|]. split; [done|]. intros label.
    rewrite Hd, Hdom1, fmap_cons, elem_of_cons. cbn [fst].
    split; [intros [[H|H]|H] | intros [H|[H|H]]]; auto.
Qed.

Lemma discover_fresh_table outputs (targets : list string) (model : Model)
    (target : string) :
  range_perm → NoDup targets → target ∈ targets →
  default ∅ (Categories model) !! target = None →
  ∃ table,
    discover_categories outputs targets model !! target = Some table ∧
    (∀ label, is_Some (table !! label) ↔ label_of target outputs label) ∧
    numbered table.
Proof.
  intros Hr Hnd Hin Hfresh. unfold discover_categories.
  rewrite (discover_fold_in outputs targets _ target Hnd Hin).
  rewrite Hfresh. cbn [default from_option Datatypes.id].
  eexists. split; [done|].
  destruct (assign_fold_numbered (range _ (count_categories target outputs))
              (∅, 0%Z)) as (_ & Hnum & Hdom).
  { cbn [fst snd]. by rewrite map_size_empty. }
  { cbn [fst]. split; [intros ?? | intros ???]; by rewrite lookup_empty. }
  split; [|done]. intros label. rewrite Hdom. cbn [fst].
  rewrite lookup_empty, range_keys by done. unfold count_categories.
  rewrite count_fold_labels, lookup_empty. split.
  - intros [[? ?]|[[? ?]|H]]; done.
  - intros H. right. by right.
Qed.

(** X20.  After a call of the categorical trainer on non-empty data, a
    target of the first output that the descriptor did not know before has
    a table holding exactly the labels (the values printed with [%v]) this
    target takes in the training outputs, numbered 0, 1, ... without gap
    or repetition. *)
Theorem fresh_category_table inputs outputs weights config model r
    (output0 : gmap string value) (target : string) :
  range_perm →
  trainCategoricalModel inputs outputs weights config model = Returns r →
  inputs ≠ [] → head outputs = Some output0 → is_Some (output0 !! target) →
  default ∅ (Categories model) !! target = None →
  ∃ table,
    default ∅ (Categories r.1.2) !! target = Some table ∧
    (∀ label, is_Some (table !! label) ↔ label_of target outputs label) ∧
    numbered table.
Proof.
  intros Hr H Hi Ho Ht Hfresh. unfold trainCategoricalModel in H.
  destruct inputs as [|input0 inputs']; [done|].
  destruct outputs as [|o0 outputs'] eqn:Houtputs; [done|]. injection Ho as ->.
  rewrite <- Houtputs in *.
  apply obind_Returns in H as (w & _ & [= <-]). cbn [fst snd Categories with_Categories].
  cbn [default from_option Datatypes.id].
  apply discover_fresh_table; [done | by apply range_NoDup | | done].
  by apply range_keys.
Qed.

(** ** mixed.go: the recorded target types *)




(** ** model.go: when the linear variant is selected *)

Lemma non_binary_off (k : string) (v : value) :
  non_binary_b (k, v) = true ↔ off_binary v.
Proof.
  unfold non_binary_b, off_binary. cbn [snd]. destruct v; simpl.
  all: try (split; [done | by intros [(? & ? & _)|(? & ? & _)]]).
  - unfold Req_b. destruct (Req_dec_T x 0), (Req_dec_T x 1); simpl; split;
      try done; try (intros [(? & ? & _)|(? & [= <-] & ? & ?)]; done).
    intros _. right. eauto.
  - destruct (Z.eqb_spec n 0), (Z.eqb_spec n 1); simpl; split;
      try done; try (intros [(? & [= <-] & ? & ?)|(? & ? & _)]; done).
    intros _. left. eauto.
Qed.

(** X22.  [NewAutoModel] selects the linear variant exactly when the
    sample holds no [string] and no [bool] and, if it holds a number at
    all, some [int] or [float64] of it differs from 0 and 1.  So a sample
    whose numbers are all of the types [int64], [int32] or [float32]
    selects the logistic variant whatever their values, since the check
    for 0 and 1 only looks at [int] and [float64]. *)
Theorem linear_selected_iff (sample : gmap string value) :
  range_perm →
  (NewAutoModel sample = NewLinearModel ↔
     ¬ has_string sample ∧ ¬ has_boolean sample ∧
     (has_numeric sample → ∃ k v, sample !! k = Some v ∧ off_binary v)) ∧
  (has_numeric sample → ¬ has_string sample → ¬ has_boolean sample →
   (∀ k v, sample !! k = Some v → ¬ off_binary v) →
   NewAutoModel sample = NewLogisticModel).
Proof.
  intros Hr. rewrite NewAutoModel_eq. cbv zeta.
  destruct (bool_prop_cases _ _ (has_string_range sample Hr)) as [[Es Hs]|[Es Hs]];
    destruct (bool_prop_cases _ _ (has_numeric_range sample Hr)) as [[En Hn]|[En Hn]];
    destruct (bool_prop_cases _ _ (has_boolean_range sample Hr)) as [[Eb Hb]|[Eb Hb]];
    rewrite Es, En, Eb; cbn [andb orb negb].
  all: try (split; [split; [done | by intros (? & ? & _)] | done]).
  all: try (split; [split; [done | by intros (_ & ? & _)] | done]).
  - (* numbers only *)
    destruct (forallb _ (range _ sample)) eqn:Ef.
    + split; [split; [done|] | done].
      intros (_ & _ & Hoff). destruct (Hoff Hn) as (k & v & Hk & Hv).
      pose proof (proj1 (range_forallb sample (λ kv, negb (non_binary_b kv)) Hr) Ef
                    k v Hk) as Ekv.
      cbn beta in Ekv. apply negb_true_iff in Ekv.
      apply (non_binary_off k v) in Hv. congruence.
    + split.
      * split; [|done]. intros _. split; [done|]. split; [done|]. intros _.
        apply not_true_iff_false in Ef.
        destruct (existsb non_binary_b (range _ sample)) eqn:Ee.
        -- apply (proj1 (range_existsb sample non_binary_b Hr)) in Ee
             as (k & v & Hk & Hv).
           exists k, v. split; [done|]. by apply (non_binary_off k v).
        -- exfalso. apply Ef. apply forallb_forall. intros kv Hin.
           apply negb_true_iff. destruct (non_binary_b kv) eqn:Ekv; [|done].
           assert (existsb non_binary_b (range _ sample) = true) as Ht
             by (apply existsb_exists; eauto).
           congruence.
      * intros _ _ _ Hall. exfalso. apply not_true_iff_false in Ef. apply Ef.
        apply (proj2 (range_forallb sample (λ kv, negb (non_binary_b kv)) Hr)).
        intros k v Hk.
        apply negb_true_iff. destruct (non_binary_b (k, v)) eqn:Ekv; [|done].
        apply (non_binary_off k v) in Ekv. by destruct (Hall k v Hk).
Qed.

(** ** categorical.go: training, then prediction *)

Lemma predictCategoricalModel_labels input weights model (k : string) (v : value) :
  range_perm →
  (predictCategoricalModel input weights model).1 !! k = Some v →
  (∀ other, v ≠ VProbs other) →
  ∃ table label,
    default ∅ (Categories model) !! k = Some table ∧ is_Some (table !! label) ∧
    label ≠ "" ∧ v = restore_label label.
Proof.
  intros Hr. unfold predictCategoricalModel. cbn [fst]. revert k v.
  apply (foldl_invariant
           (λ result : gmap string value,
              ∀ k v, result !! k = Some v → (∀ other, v ≠ VProbs other) →
                ∃ table label,
                  default ∅ (Categories model) !! k = Some table ∧
                  is_Some (table !! label) ∧ label ≠ "" ∧ v = restore_label label)
           (λ kv, default ∅ (Categories model) !! kv.1 = Some kv.2));
    [| by apply range_Forall |].
  - intros result [t0 categories] IH Hcat k v. cbn [fst snd] in Hcat.
    unfold predict_target.
    destruct (size categories <=? 0)%nat; [apply IH|].
    set (P0 := target_probabilities input weights t0 categories).
    destruct (String.eqb_spec (best_category P0) "") as [|Hbest]; [apply IH|].
    cbn [negb].
    destruct (decide (t0 +:+ "_probs" = k)) as [<-|Hne1].
    { rewrite lookup_insert_eq. intros [= <-] Hv. by destruct (Hv _ eq_refl). }
    rewrite lookup_insert_ne by done.
    destruct (decide (t0 = k)) as [<-|Hne2]; [|rewrite lookup_insert_ne by done; apply IH].
    rewrite lookup_insert_eq. intros [= <-] _.
    exists categories, (best_category P0). split; [done|]. split; [|done].
    destruct (best_category_max P0 Hr Hbest) as (p & Hp & _).
    revert Hp. generalize (best_category P0). intros c Hp.
    unfold P0, target_probabilities in Hp.
    rewrite (softmax_eq _ Hr) in Hp. cbv zeta in Hp.
    rewrite !lookup_fmap, category_scores_lookup in Hp by done.
    destruct (categories !! c); [eauto | by simpl in Hp].
  - intros k v. by rewrite lookup_empty.
Qed.

(** X23.  Training, then prediction, for the categorical variant.  After
    the categorical trainer returns on non-empty data, starting from a
    descriptor without categories, every value a prediction with the
    trained descriptor holds, other than the distributions, sits under a
    field of the first training output and is the label, converted back,
    of one of the values this field takes in the training outputs; this
    holds for every input and every weight store. *)
Theorem categorical_predicts_training_label inputs outputs weights config model r
    (output0 input : gmap string value) (w' : Weights) (k : string) (v : value) :
  range_perm →
  trainCategoricalModel inputs outputs weights config model = Returns r →
  inputs ≠ [] → head outputs = Some output0 → default ∅ (Categories model) = ∅ →
  (predictCategoricalModel input w' r.1.2).1 !! k = Some v →
  (∀ other, v ≠ VProbs other) →
  is_Some (output0 !! k) ∧
  ∃ label, label_of k outputs label ∧ label ≠ "" ∧ v = restore_label label.
Proof.
  intros Hr H Hi Ho Hfresh Hk Hv.
  destruct (predictCategoricalModel_labels input w' r.1.2 k v Hr Hk Hv)
    as (table & label & Htable & Hlabel & Hne & ->).
  unfold trainCategoricalModel in H.
  destruct inputs as [|input0 inputs']; [done|].
  destruct outputs as [|o0 outputs'] eqn:Houtputs; [done|]. injection Ho as ->.
  rewrite <- Houtputs in *.
  apply obind_Returns in H as (w & _ & [= <-]).
  cbn [fst snd Categories with_Categories default from_option Datatypes.id] in Htable.
  destruct (decide (k ∈ (range _ output0).*1)) as [Hin|Hnotin].
  - split; [by apply range_keys|].
    destruct (discover_fresh_table outputs (range _ output0).*1 model k Hr)
      as (table' & Htable' & Hlabels & _);
      [by apply range_NoDup | done | by rewrite Hfresh, lookup_empty |].
    rewrite Htable in Htable'. injection Htable' as <-.
    exists label. split; [by apply Hlabels | done].
  - unfold discover_categories in Htable.
    rewrite discover_fold_notin in Htable by done.
    by rewrite Hfresh, lookup_empty in Htable.
Qed.

(** ** linear.go and logistic.go: configurations left at zero *)

Lemma init_weight_values (w0 w w' : Weights) (key : string) :
  (∀ k, Get w k = Get w0 k ∨ (Get w0 k = None ∧ Get w k = Some (VFloat64 0))) →
  init_weight w key = Returns w' →
  ∀ k, Get w' k = Get w0 k ∨ (Get w0 k = None ∧ Get w' k = Some (VFloat64 0)).
Proof.
  intros Hw. unfold init_weight. destruct (Get w key) as [v|] eqn:E.
  - by intros [= <-].
  - unfold Set_. destruct (Values w) as [m|] eqn:Hm; [|done]. intros [= <-] k.
    destruct (decide (key = k)) as [<-|Hne].
    + right. split.
      * destruct (Hw key) as [H|[_ H]]; congruence.
      * unfold Get, values_of. simpl. apply lookup_insert_eq.
    + destruct (Hw k) as [H|[H1 H2]]; [left | right; split; [done|]];
        unfold Get, values_of in *; simpl; rewrite Hm in *; simpl in *;
        by rewrite lookup_insert_ne.
Qed.

Lemma init_weights_values (features targets : list string) (w w' : Weights) :
  init_weights features targets w = Returns w' →
  ∀ k, Get w' k = Get w k ∨ (Get w k = None ∧ Get w' k = Some (VFloat64 0)).
Proof.
  unfold init_weights. intros H. apply obind_Returns in H as (w1 & H1 & H2).
  revert H2.
  apply (ofold_invariant
           (λ w1, ∀ k, Get w1 k = Get w k
                       ∨ (Get w k = None ∧ Get w1 k = Some (VFloat64 0)))).
  { intros s t s' Hs. by apply init_weight_values. }
  revert H1.
  apply (ofold_invariant
           (λ w1, ∀ k, Get w1 k = Get w k
                       ∨ (Get w k = None ∧ Get w1 k = Some (VFloat64 0))));
    [|by left].
  intros s f s' Hs.
  apply (ofold_invariant
           (λ w1, ∀ k, Get w1 k = Get w k
                       ∨ (Get w k = None ∧ Get w1 k = Some (VFloat64 0))));
    [|done].
  intros s0 t s0' Hs0. by apply init_weight_values.
Qed.

(** X24.  With a number of epochs that is zero or negative, the linear and
    the logistic trainer only initialise: a call that returns has
    overwritten no value of the weight store, has set to 0.0 the weight of
    every feature of the first input paired with every target of the first
    output, and the bias of every such target, wherever the store held
    nothing under the key, and has touched nothing else. *)
Theorem zero_epochs_only_initialise (m : Model)
    (inputs outputs : list (gmap string value)) (weights : Weights) (cfg : Config) r
    (input0 output0 : gmap string value) :
  range_perm → Type_ m = "linear" ∨ Type_ m = "logistic" → (Epochs cfg <= 0)%Z →
  Model_Train m inputs outputs weights (Some cfg) = Returns r →
  head inputs = Some input0 → head outputs = Some output0 →
  r.2 = None ∧
  (∀ k v, Get weights k = Some v → Get r.1.1 k = Some v) ∧
  (∀ f t, is_Some (input0 !! f) → is_Some (output0 !! t) →
          Get weights (weightKey f t) = None →
          Get r.1.1 (weightKey f t) = Some (VFloat64 0)) ∧
  (∀ t, is_Some (output0 !! t) → Get weights (biasKey t) = None →
        Get r.1.1 (biasKey t) = Some (VFloat64 0)) ∧
  (∀ k, Get weights k = None → Get r.1.1 k = None ∨ Get r.1.1 k = Some (VFloat64 0)).
Proof.
  intros Hr Htype Hep H Hi Ho.
  assert (∃ w', r = (w', m, None) ∧
            init_weights (range _ input0).*1 (range _ output0).*1 weights
            = Returns w') as (w' & -> & Hinit).
  { destruct inputs as [|i0 inputs']; [done|]. injection Hi as ->.
    destruct outputs as [|o0 outputs']; [done|]. injection Ho as ->.
    assert (Z.to_nat (Epochs cfg) = O) as Hz by lia.
    unfold Model_Train in H. destruct Htype as [Ht|Ht]; rewrite Ht in H; simpl in H.
    - unfold trainLinearModel in H. apply obind_Returns in H as (r' & H & [= <-]).
      apply obind_Returns in H as (w1 & H1 & H). rewrite Hz in H. simpl in H.
      injection H as <-. eauto.
    - unfold trainLogisticModel in H. apply obind_Returns in H as (r' & H & [= <-]).
      apply obind_Returns in H as (w1 & H1 & H). rewrite Hz in H. simpl in H.
      injection H as <-. eauto. }
  pose proof (init_weights_values _ _ _ _ Hinit) as Hval.
  apply init_weights_extends in Hinit as [_ Hkeys]. cbn [fst snd].
  assert (∀ k, trained_key (range _ input0).*1 (range _ output0).*1 k →
               Get weights k = None → Get w' k = Some (VFloat64 0)) as Hzero.
  { intros k Hk Hnone. destruct (Hval k) as [H1|[_ H1]]; [|done].
    destruct (Hkeys k Hk) as [x Hx]. congruence. }
  split; [done|]. split; [|split; [|split]].
  - intros k v Hk. destruct (Hval k) as [H1|[H1 _]]; congruence.
  - intros f t Hf Ht. apply Hzero. left. exists f, t. by rewrite !range_keys.
  - intros t Ht. apply Hzero. right. exists t. by rewrite range_keys.
  - intros k Hk. destruct (Hval k) as [H1|[_ H1]]; [left; congruence | by right].
Qed.

(** X25.  With a batch size of zero and at least one epoch, [Train] does
    not return for the linear and the logistic variant once its checks
    have passed: the batch loop of the first epoch never advances. *)
Theorem Train_zero_batch_size (e : Engine) (m : Model) (cfg : Config)
    (inputs outputs : list (gmap string value)) :
  model e = Some m → Type_ m = "linear" ∨ Type_ m = "logistic" →
  config e = Some cfg → BatchSize cfg = 0%Z → (1 <= Epochs cfg)%Z →
  (∀ w, weights e = Some w → live w) →
  length inputs = length outputs → inputs ≠ [] →
  Train e inputs outputs = Diverges.
Proof.
  intros Hm Htype Hcfg Hbatch Hep Hw Hlen Hi. unfold Train.
  rewrite Hm, Hlen, Nat.eqb_refl, Hcfg.
  destruct inputs as [|i0 inputs']; [done|].
  destruct outputs as [|o0 outputs']; [done|]. simpl.
  set (w := match weights e with Some w => w | None => {| Values := Some ∅ |} end).
  assert (live w) as Hlive.
  { subst w. destruct (weights e) as [w|]; [by apply Hw|]. unfold live. simpl. eauto. }
  destruct (init_weights_live (range _ i0).*1 (range _ o0).*1 w Hlive)
    as (w1 & Hw1 & _).
  assert (∃ n, Z.to_nat (Epochs cfg) = S n) as [n Hn]
    by (exists (Z.to_nat (Epochs cfg) - 1)%nat; lia).
  assert (∀ conv act loss,
            epoch_loop conv act loss (range _ i0).*1 (range _ o0).*1
              (i0 :: inputs') (o0 :: outputs') cfg (Z.to_nat (Epochs cfg)) w1
            = Diverges) as Hloop.
  { intros conv act loss. rewrite Hn. cbn [epoch_loop].
    destruct (calculate_loss_returns loss (range _ i0).*1 (range _ o0).*1
                (i0 :: inputs') (o0 :: outputs') ltac:(simpl in *; lia) w1)
      as [l ->].
    by rewrite Hbatch. }
  unfold Model_Train. destruct Htype as [Ht|Ht]; rewrite Ht; simpl.
  - unfold trainLinearModel. rewrite Hw1. simpl. by rewrite Hloop.
  - unfold trainLogisticModel. rewrite Hw1. simpl. by rewrite Hloop.
Qed.

(** ** engine.go: an unsupported variant *)

(** X26.  With a descriptor of a variant that is not supported, [Train]
    on matching, non-empty data returns "unsupported model type", but only
    after it has given the engine an empty weight store when it had none.
    So a [Predict] that follows also answers "unsupported model type", not
    "weights not initialized". *)
Theorem Train_unsupported (e : Engine) (m : Model)
    (inputs outputs : list (gmap string value)) :
  model e = Some m → ¬ supported (Type_ m) →
  length inputs = length outputs → inputs ≠ [] →
  ∃ e',
    Train e inputs outputs = Returns (e', Some ErrUnsupportedModelType) ∧
    model e' = Some m ∧ config e' = config e ∧
    weights e' = Some (default {| Values := Some ∅ |} (weights e)) ∧
    ∀ input, Predict e' input = (None, Some ErrUnsupportedModelType).
Proof.
  intros Hm Hs Hlen Hi.
  assert (String.eqb (Type_ m) "linear" = false ∧
          String.eqb (Type_ m) "logistic" = false ∧
          String.eqb (Type_ m) "categorical" = false ∧
          String.eqb (Type_ m) "mixed" = false) as (E1 & E2 & E3 & E4).
  { unfold supported in Hs.
    repeat split; apply String.eqb_neq; intros E; apply Hs; auto. }
  eexists. split; [|split; [|split; [|split]]].
  - unfold Train. rewrite Hm, Hlen, Nat.eqb_refl.
    destruct outputs as [|o0 outputs'];
      [destruct inputs; [done | discriminate]|].
    simpl. unfold Model_Train. rewrite E1, E2, E3, E4. simpl. reflexivity.
  - done.
  - done.
  - simpl. by destruct (weights e).
  - intros input. unfold Predict, Model_Predict. simpl.
    by rewrite E1, E2, E3, E4.
Qed.

(** ** linear.go: a store that fits the data *)

Lemma GetFloat_absent (w : Weights) (k : string) :
  (GetFloat w k).2 = false → (GetFloat w k).1 = 0%R.
Proof. unfold GetFloat. by repeat case_match. Qed.

Lemma combination_step_reads (w : Weights) (t : string) (input : gmap string value)
    (acc : R) (f : string) :
  combination_step w t input acc f
  = (acc + (GetFloat w (weightKey f t)).1
           * default 0%R (input !! f ≫= feature_float f))%R.
Proof.
  unfold combination_step. pose proof (GetFloat_absent w (weightKey f t)) as Hz.
  destruct (GetFloat w (weightKey f t)) as [x [|]]; cbn [negb fst snd] in *.
  - destruct (input !! f) as [v|]; simpl; [destruct (feature_float f v); simpl|]; ring.
  - rewrite Hz by done. ring.
Qed.

Lemma combination_reads (w w' : Weights) (features : list string) (t : string)
    (input : gmap string value) :
  reads_as w w' → combination w' features t input = combination w features t input.
Proof.
  intros Hrd. unfold combination. apply foldl_fun_ext. intros acc f.
  by rewrite !combination_step_reads, Hrd.
Qed.

Lemma sample_prediction_reads (w w' : Weights) (features : list string) (t : string)
    (input : gmap string value) :
  reads_as w w' →
  add_bias w' t (combination w' features t input)
  = sample_prediction (λ z, z) w features t input.
Proof.
  intros Hrd. unfold sample_prediction, add_bias.
  by rewrite (combination_reads w w'), Hrd.
Qed.

Lemma input_combination_reads (w w' : Weights) (t : string)
    (input : gmap string value) :
  reads_as w w' → input_combination w' t input = input_combination w t input.
Proof.
  intros Hrd. unfold input_combination. rewrite !add_bias_if_exists_eq.
  unfold add_bias. rewrite Hrd. f_equal. apply foldl_fun_ext.
  intros acc [f v]. unfold input_step.
  pose proof (GetFloat_absent w (weightKey f t)) as Hz.
  pose proof (GetFloat_absent w' (weightKey f t)) as Hz'.
  pose proof (Hrd (weightKey f t)) as Hk.
  destruct (GetFloat w (weightKey f t)) as [x [|]],
    (GetFloat w' (weightKey f t)) as [x' [|]]; cbn [negb fst snd] in *;
    destruct (feature_float f v); try done; rewrite Hk in *; try done.
  - rewrite (Hz' eq_refl). ring.
  - rewrite (Hz eq_refl). ring.
Qed.

Lemma Set_reads (w w1 w2 : Weights) (key : string) (x : R) :
  reads_as w w1 → x = (GetFloat w1 key).1 →
  Set_ w1 key (VFloat64 x) = Returns w2 → reads_as w w2.
Proof.
  intros Hrd -> H k. rewrite <- Hrd. unfold Set_ in H.
  destruct w1 as [[m|]]; [|done]. injection H as <-.
  unfold GetFloat, values_of. simpl.
  destruct (decide (key = k)) as [<-|Hne].
  - by rewrite lookup_insert_eq.
  - by rewrite lookup_insert_ne.
Qed.

Lemma init_weight_reads (w w1 w2 : Weights) (key : string) :
  reads_as w w1 → init_weight w1 key = Returns w2 → reads_as w w2.
Proof.
  intros Hrd. unfold init_weight. destruct (Get w1 key) as [v|] eqn:E.
  - by intros [= <-].
  - apply Set_reads; [done|]. unfold GetFloat. unfold Get in E. by rewrite E.
Qed.

Lemma init_weights_reads (features targets : list string) (w w1 w2 : Weights) :
  reads_as w w1 → init_weights features targets w1 = Returns w2 → reads_as w w2.
Proof.
  intros Hrd. unfold init_weights. intros H.
  apply obind_Returns in H as (w' & H1 & H2). revert H2.
  apply (ofold_invariant (reads_as w)).
  { intros s t s' Hs. by apply init_weight_reads. }
  revert H1. apply (ofold_invariant (reads_as w)); [|done].
  intros s f s' Hs. apply (ofold_invariant (reads_as w)); [|done].
  intros s0 t s0' Hs0. by apply init_weight_reads.
Qed.

Section perfect_fit.

Variable conv : string → value → option R.
Variable loss : R → R → R.
Variable features targets : list string.
Variable inputs outputs : list (gmap string value).
Variable cfg : Config.
Variable w : Weights.
Hypothesis no_regularization : Regularize cfg = 0%R.
Hypothesis fit : fits w features targets inputs outputs.

Lemma gradient_stays_zero (w1 : Weights) (feature t : string) (idxs : list nat)
    (g : R) :
  reads_as w w1 → t ∈ targets →
  ofold (gradient_step conv (λ z, z) features inputs outputs w1 feature t)
    0%R idxs = Returns g →
  g = 0%R.
Proof.
  intros Hrd Ht. apply (ofold_invariant (λ g : R, g = 0%R)); [|done].
  intros g0 i g1 -> H. unfold gradient_step in H.
  destruct (inputs !! i) as [input|] eqn:Hi; [|done].
  destruct (input !! feature) as [raw|]; [|by injection H as <-].
  destruct (conv feature raw) as [fv|]; [|by injection H as <-].
  destruct (outputs !! i) as [output|] eqn:Ho; [|done].
  destruct (output !! t) as [a|] eqn:Ha; [|by injection H as <-].
  destruct (target_float a) as [y|] eqn:Hy; injection H as <-; [|done].
  rewrite add_bias_if_exists_eq, (sample_prediction_reads w w1) by done.
  rewrite (fit i input output t a y) by done. ring.
Qed.

Lemma bias_gradient_stays_zero (w1 : Weights) (t : string) (idxs : list nat) (g : R) :
  reads_as w w1 → t ∈ targets →
  ofold (bias_gradient_step (λ z, z) features inputs outputs w1 t) 0%R idxs
  = Returns g →
  g = 0%R.
Proof.
  intros Hrd Ht. apply (ofold_invariant (λ g : R, g = 0%R)); [|done].
  intros g0 i g1 -> H. unfold bias_gradient_step in H.
  destruct (inputs !! i) as [input|] eqn:Hi; [|done].
  destruct (outputs !! i) as [output|] eqn:Ho; [|done].
  destruct (output !! t) as [a|] eqn:Ha; [|by injection H as <-].
  destruct (target_float a) as [y|] eqn:Hy; injection H as <-; [|done].
  rewrite (sample_prediction_reads w w1) by done.
  rewrite (fit i input output t a y) by done. ring.
Qed.

Lemma update_batch_reads (batchStart batchEnd : nat) (w1 w2 : Weights) :
  reads_as w w1 →
  update_batch conv (λ z, z) features targets inputs outputs cfg
    batchStart batchEnd w1 = Returns w2 →
  reads_as w w2.
Proof.
  intros Hrd. unfold update_batch.
  apply (ofold_invariant_in (reads_as w)); [|done].
  intros s t s' Ht Hs H. apply obind_Returns in H as (s1 & H1 & H2).
  assert (reads_as w s1) as Hs1.
  { revert H1. apply (ofold_invariant (reads_as w)); [|done].
    intros s0 f s0' Hs0 H. unfold update_weight in H.
    apply obind_Returns in H as (g & Hg & H).
    apply gradient_stays_zero in Hg as ->; [|done..].
    revert H. apply Set_reads; [done|]. rewrite no_regularization.
    unfold Rdiv. ring. }
  unfold update_bias in H2. apply obind_Returns in H2 as (g & Hg & H).
  apply bias_gradient_stays_zero in Hg as ->; [|done..].
  revert H. apply Set_reads; [done|]. unfold Rdiv. ring.
Qed.

Lemma epoch_loop_reads (epochs : nat) (w1 w2 : Weights) :
  reads_as w w1 →
  epoch_loop conv (λ z, z) loss features targets inputs outputs cfg epochs w1
  = Returns w2 →
  reads_as w w2.
Proof.
  revert w1. induction epochs as [|epochs IH]; intros w1 Hrd; simpl.
  - by intros [= <-].
  - intros H. apply obind_Returns in H as (prev & _ & H).
    apply obind_Returns in H as (w' & H1 & H).
    apply obind_Returns in H as (cur & _ & H).
    assert (reads_as w w') as Hw'.
    { destruct (BatchSize cfg <=? 0)%Z; [done|]. revert H1.
      apply (batch_loop_invariant (reads_as w)); [|done].
      intros bs be s s' Hs. by apply update_batch_reads. }
    destruct (Rlt_b _ _); [by inversion H; subst|]. by apply (IH w').
Qed.

End perfect_fit.

(** X27.  A store that fits the training data is a fixed point of the
    linear trainer without regularization.  When, on every example, the
    weighted sum of the features of the first input plus bias already
    equals the number each target of the first output holds, and
    [Regularize] is 0, a call that returns leaves every weight and bias
    reading as the same number (in exact arithmetic), so the weighted sum
    behind every prediction is the same as before. *)
Theorem fitted_store_is_kept (inputs outputs : list (gmap string value))
    (weights : Weights) (cfg : Config) r (input0 output0 : gmap string value) :
  trainLinearModel inputs outputs weights (Some cfg) = Returns r →
  head inputs = Some input0 → head outputs = Some output0 →
  Regularize cfg = 0%R →
  fits weights (range _ input0).*1 (range _ output0).*1 inputs outputs →
  reads_as weights r.1 ∧
  ∀ t input, input_combination r.1 t input = input_combination weights t input.
Proof.
  intros H Hi Ho Hreg Hfit.
  assert (reads_as weights r.1) as Hrd.
  { unfold trainLinearModel in H.
    destruct inputs as [|i0 inputs'] eqn:Hinputs; [done|]. injection Hi as ->.
    destruct outputs as [|o0 outputs'] eqn:Houtputs; [done|]. injection Ho as ->.
    rewrite <- Hinputs, <- Houtputs in *.
    apply obind_Returns in H as (w1 & H1 & H).
    apply obind_Returns in H as (w2 & H2 & [= <-]). cbn [fst].
    apply (init_weights_reads _ _ weights weights) in H1; [|by intros k].
    by apply (epoch_loop_reads _ _ _ _ _ _ _ weights Hreg Hfit) in H2. }
  split; [done|]. intros t input. by apply input_combination_reads.
Qed.

(** ** categorical.go: what training writes *)

Lemma category_index_default (cats : gmap string (gmap string Z)) (t c : string) :
  category_index (Some cats) t c = default ∅ (cats !! t) !! c.
Proof.
  unfold category_index. cbn [default from_option Datatypes.id].
  destruct (cats !! t); simpl; [done | by rewrite lookup_empty].
Qed.

Lemma train_target_extends (features targets : list string)
    (inputs outputs : list (gmap string value)) (config : option Config)
    (cats : gmap string (gmap string Z)) (w w' : Weights) (t : string) :
  range_perm → t ∈ targets →
  train_target features inputs outputs config cats w t = Returns w' →
  extends_on (category_key (Some cats) features targets) w w' ∧
  ((1 < size (default ∅ (cats !! t)))%nat →
   ∀ c, is_Some (category_index (Some cats) t c) →
        (∀ f, f ∈ features → is_Some (Get w' (weightKey f (categoryKey t c)))) ∧
        is_Some (Get w' (biasKey (categoryKey t c)))).
Proof.
  intros Hr Ht. set (K := category_key (Some cats) features targets).
  unfold train_target. set (categories := default ∅ (cats !! t)).
  assert (∀ kv, kv ∈ range _ categories →
                is_Some (category_index (Some cats) t kv.1)) as Hlabel.
  { intros [c idx] Hin. apply (range_elem _ _ _ Hr) in Hin.
    rewrite category_index_default. by eexists. }
  assert (∀ c, is_Some (category_index (Some cats) t c) →
               ∃ idx, (c, idx) ∈ range _ categories) as Hrange.
  { intros c [idx Hc]. rewrite category_index_default in Hc. exists idx.
    by apply range_elem. }
  assert (∀ kv f, kv ∈ range _ categories → f ∈ features →
                  K (weightKey f (categoryKey t kv.1))) as HKw.
  { intros kv f Hkv Hf. exists t, kv.1. split; [done|]. split; [by apply Hlabel|].
    left. eauto. }
  assert (∀ kv, kv ∈ range _ categories → K (biasKey (categoryKey t kv.1))) as HKb.
  { intros kv Hkv. exists t, kv.1. split; [done|]. split; [by apply Hlabel|].
    by right. }
  destruct (Nat.leb_spec (size categories) 1) as [Hsmall|Hbig].
  { intros [= <-]. split; [apply extends_on_refl | lia]. }
  intros H. apply obind_Returns in H as (w1 & H1 & H2).
  apply (ofold_establishes K
           (λ kv w,
              (∀ f, f ∈ features →
                    is_Some (Get w (weightKey f (categoryKey t kv.1)))) ∧
              is_Some (Get w (biasKey (categoryKey t kv.1))))) in H1
    as [He1 Hq1].
  2: { intros kv s s' [Hs _] [Hq1 Hq2]. split; [|by apply Hs].
       intros f Hf. by apply Hs, Hq1. }
  2: { intros s kv s' Hkv Hs. apply obind_Returns in Hs as (s1 & Hs1 & Hs2).
       apply (ofold_establishes K
                (λ f w, is_Some (Get w (weightKey f (categoryKey t kv.1)))))
         in Hs1 as [Hes1 Hqs1].
       - apply (init_weight_extends K) in Hs2 as [Hes2 Hqs2]; [|by apply HKb].
         split; [by apply (extends_on_trans K s s1 s')|]. split; [|done].
         intros f Hf. destruct Hes2 as [Hes2 _]. by apply Hes2, Hqs1.
       - intros f s0 s0' [Hs0 _]. apply Hs0.
       - intros s0 f s0' Hf Hs0. apply (init_weight_extends K); [|done].
         by apply HKw. }
  assert (extends_on K w1 w') as He2.
  { destruct config as [cfg|]; [|done]. revert H2.
    apply (ofold_extends K). intros s _ s' _.
    apply (ofold_extends K). intros s0 i s0' _ Hs0. unfold sgd_sample in Hs0.
    destruct (inputs !! i) as [input|]; [|done].
    destruct (outputs !! i) as [output|]; [|done].
    destruct (output !! t) as [actual|];
      [|injection Hs0 as <-; apply extends_on_refl].
    revert Hs0. apply (ofold_extends K). intros s1 kv s1' Hkv Hs1.
    unfold sgd_category in Hs1. apply obind_Returns in Hs1 as (s2 & Hs2 & Hs3).
    apply (extends_on_trans K s1 s2 s1').
    - revert Hs2. apply (ofold_extends K). intros s3 f s3' Hf Hs3'.
      unfold sgd_weight in Hs3'.
      destruct (input !! f) as [fv|];
        [|injection Hs3' as <-; apply extends_on_refl].
      destruct (feature_float f fv);
        [|injection Hs3' as <-; apply extends_on_refl].
      apply (Set_extends K) in Hs3' as [? _]; [done | by apply HKw].
    - apply (Set_extends K) in Hs3 as [? _]; [done | by apply HKb]. }
  split; [by apply (extends_on_trans K w w1 w')|].
  intros _ c Hc. destruct (Hrange c Hc) as [idx Hin].
  destruct (Hq1 (c, idx) Hin) as [Hw1 Hb1]. destruct He2 as [He2 _].
  split; [|by apply He2]. intros f Hf. by apply He2, Hw1.
Qed.

(** X28.  A call of the categorical trainer that returns removes no key
    from the weight store and changes only keys of the two forms
    feature->target:label and bias->target:label, for a feature of the
    first input, a target of the first output and a label of that target's
    table.  For every such target with more than one label, all these keys
    are in the store afterwards. *)
Theorem categorical_training_writes inputs outputs weights config model r
    (input0 output0 : gmap string value) :
  range_perm →
  trainCategoricalModel inputs outputs weights config model = Returns r →
  head inputs = Some input0 → head outputs = Some output0 →
  (∀ k, is_Some (Get weights k) → is_Some (Get r.1.1 k)) ∧
  (∀ k, ¬ category_key (Categories r.1.2)
            (range _ input0).*1 (range _ output0).*1 k →
        Get r.1.1 k = Get weights k) ∧
  (∀ t c table f,
     is_Some (output0 !! t) → default ∅ (Categories r.1.2) !! t = Some table →
     (1 < size table)%nat → is_Some (table !! c) → is_Some (input0 !! f) →
     is_Some (Get r.1.1 (weightKey f (categoryKey t c))) ∧
     is_Some (Get r.1.1 (biasKey (categoryKey t c)))).
Proof.
  intros Hr H Hi Ho. unfold trainCategoricalModel in H.
  destruct inputs as [|i0 inputs'] eqn:Hinputs; [done|]. injection Hi as ->.
  destruct outputs as [|o0 outputs'] eqn:Houtputs; [done|]. injection Ho as ->.
  rewrite <- Hinputs, <- Houtputs in *.
  apply obind_Returns in H as (w' & H & [= <-]).
  cbn [fst snd Categories with_Categories default from_option Datatypes.id].
  set (cats := discover_categories outputs (range _ output0).*1 model) in *.
  set (features := (range _ input0).*1) in *.
  set (targets := (range _ output0).*1) in *.
  apply (ofold_establishes (category_key (Some cats) features targets)
           (λ t w,
              (1 < size (default ∅ (cats !! t)))%nat →
              ∀ c, is_Some (category_index (Some cats) t c) →
                   (∀ f, f ∈ features →
                         is_Some (Get w (weightKey f (categoryKey t c)))) ∧
                   is_Some (Get w (biasKey (categoryKey t c))))) in H
    as [[Hkeep Hframe] Hkeys].
  - split; [done|]. split; [done|].
    intros t c table f Ht Htable Hsize Hc Hf.
    destruct (Hkeys t) with (c := c) as [Hw Hb].
    + by apply range_keys.
    + by rewrite Htable.
    + rewrite category_index_default, Htable. exact Hc.
    + split; [|done]. apply Hw. by apply range_keys.
  - intros t s s' [Hs _] Hq Hsize c Hc. destruct (Hq Hsize c Hc) as [Hw Hb].
    split; [|by apply Hs]. intros f Hf. by apply Hs, Hw.
  - intros s t s' Ht Hs. by apply (train_target_extends features targets) in Hs.
Qed.

End goml.

(** * The embedding at the canonical iteration order *)

Lemma canonical_range_perm (A : Type) (m : gmap string A) :
  canonical_range A m ≡ₚ map_to_list m.
Proof. reflexivity. Qed.

(** Witness of C1: the fresh engine [New], which has no descriptor, and
    the engine [NewAuto] builds for the sample v = true, which has a
    descriptor and no weights. *)
Lemma engine_errors_witness :
  let auto := NewAuto canonical_range {[ "v" := VBool true ]} in
  let x1 : gmap string value := {[ "x" := VFloat64 1 ]} in
  let y1 : gmap string value := {[ "v" := VBool true ]} in
  Train canonical_range words_Sprintf_float New [x1] [y1]
    = Returns (New, Some ErrModelNotInitialized) ∧
  Train canonical_range words_Sprintf_float auto [x1; x1] [y1]
    = Returns (auto, Some (ErrSampleCountMismatch 2 1)) ∧
  Train canonical_range words_Sprintf_float auto [] []
    = Returns (auto, Some ErrNoTrainingData) ∧
  Predict canonical_range words_Sscanf_f words_Sscanf_d New x1
    = (None, Some ErrModelNotInitialized) ∧
  Predict canonical_range words_Sscanf_f words_Sscanf_d auto x1
    = (None, Some ErrWeightsNotInitialized).
Proof.
  intros auto x1 y1.
  pose proof (engine_errors canonical_range words_Sprintf_float words_Sscanf_f
                words_Sscanf_d New [x1] [y1] x1) as (H1 & _ & _ & H4 & _).
  pose proof (engine_errors canonical_range words_Sprintf_float words_Sscanf_f
                words_Sscanf_d auto [x1; x1] [y1] x1) as (_ & H2 & _ & _ & H5).
  pose proof (engine_errors canonical_range words_Sprintf_float words_Sscanf_f
                words_Sscanf_d auto [] [] x1) as (_ & _ & H3 & _ & _).
  assert (is_Some (model auto)) as Hauto by (cbn; eauto).
  split; [|split; [|split; [|split]]].
  - apply H1. reflexivity.
  - apply H2; [exact Hauto | simpl; lia].
  - apply H3; [exact Hauto | reflexivity | reflexivity].
  - apply H4. reflexivity.
  - apply H5; [exact Hauto | reflexivity].
Defined.

(** C2, as stated, fails: a boolean field next to a numeric field holding 1
    selects the mixed variant, not the logistic one. *)
Lemma auto_selection_counterexample :
  NewAutoModel canonical_range (<[ "a" := VBool true ]> {[ "b" := VInt 1 ]})
    = NewMixedModel ∧
  NewAutoModel canonical_range (<[ "a" := VBool true ]> {[ "b" := VInt 1 ]})
    ≠ NewLogisticModel.
Proof.
  assert (NewAutoModel canonical_range (<[ "a" := VBool true ]> {[ "b" := VInt 1 ]})
          = NewMixedModel) as ->.
  { apply auto_selection_boolean_and_binary;
      [exact canonical_range_perm | done | right; by left]. }
  split; [reflexivity | discriminate].
Qed.

(** Witness of C2 (amended): the sample price = 100.0, in_stock = true. *)
Lemma auto_selection_witness :
  NewAutoModel canonical_range
    (<[ "price" := VFloat64 100 ]> {[ "in_stock" := VBool true ]}) = NewMixedModel.
Proof.
  apply (auto_selection canonical_range
           (<[ "price" := VFloat64 100 ]> {[ "in_stock" := VBool true ]})).
  - exact canonical_range_perm.
  - intros k v Hl. apply lookup_insert_Some in Hl as [[_ <-]|[_ Hl]]; [done|].
    apply lookup_singleton_Some in Hl as [_ <-]. done.
  - right. right. split.
    + exists "price", (VFloat64 100). by rewrite lookup_insert_eq.
    + exists "in_stock", true. by rewrite lookup_insert_ne, lookup_singleton_eq.
Defined.

(** C3, as stated, fails on its first sample: v = 1.0 selects the logistic
    variant, not the linear one. *)
Lemma NewAuto_samples_counterexample :
  model (NewAuto canonical_range {[ "v" := VFloat64 1 ]}) = Some NewLogisticModel ∧
  model (NewAuto canonical_range {[ "v" := VFloat64 1 ]}) ≠ Some NewLinearModel.
Proof.
  unfold NewAuto. cbn [model].
  rewrite (NewAutoModel_float_one canonical_range "v" canonical_range_perm).
  split; [reflexivity | discriminate].
Qed.

(** Witness of C3 (amended). *)
Lemma NewAuto_samples_witness :
  model (NewAuto canonical_range {[ "v" := VFloat64 1 ]}) = Some NewLogisticModel.
Proof.
  apply (NewAuto_samples canonical_range). intros A m. reflexivity.
Defined.

(** C4 at its failing inputs.  With the weight 2.0 on the feature [flag],
    the linear predictor answers 0 for the record flag = true: the boolean
    is skipped, where [ConvertToFloat64] would have produced 1.0.  In the
    logistic trainer a sample whose target is [true] adds nothing to the
    gradient of a batch. *)
Theorem boolean_values_skipped :
  predictLinearModel canonical_range {[ "flag" := VBool true ]}
    {| Values := Some {[ "flag->y" := VFloat64 2 ]} |}
    = ({[ "y" := VFloat64 0 ]}, None) ∧
  ConvertToFloat64 (VBool true) "flag" = (1%R, true) ∧
  ofold (gradient_step feature_float sigmoid ["hours"]
           [ {[ "hours" := VFloat64 1 ]} ] [ {[ "passed" := VBool true ]} ]
           {| Values := Some ∅ |} "hours" "passed")
        0%R (seq 0 1)
    = Returns 0%R.
Proof. repeat split; vm_compute; reflexivity. Qed.

(** Witness of C8: a descriptor that already maps the label "red" of the
    target "color" to 0 is trained again, by either trainer. *)
Lemma categories_only_grow_witness :
  let before :=
    with_Categories NewMixedModel (Some {[ "color" := {[ "red" := 0%Z ]} ]}) in
  let inputs := [ ({[ "x" := VFloat64 1 ]} : gmap string value) ] in
  let outputs := [ ({[ "color" := VString "red" ]} : gmap string value) ] in
  let start := {| Values := Some ∅ |} in
  ∃ r1 r2,
    trainCategoricalModel canonical_range words_Sprintf_float inputs outputs
      start (Some DefaultConfig) before = Returns r1 ∧
    trainMixedModel canonical_range words_Sprintf_float inputs outputs
      start (Some DefaultConfig) before = Returns r2 ∧
    categories_preserved before r1.1.2 ∧ categories_preserved before r2.1.2.
Proof.
  intros before inputs outputs start.
  eexists _, _. split; [vm_compute; reflexivity|].
  split; [vm_compute; reflexivity|]. split.
  - apply (proj1 (categories_only_grow canonical_range words_Sprintf_float
                    inputs outputs start (Some DefaultConfig) before _)).
    vm_compute. reflexivity.
  - apply (proj2 (categories_only_grow canonical_range words_Sprintf_float
                    inputs outputs start (Some DefaultConfig) before _)).
    vm_compute. reflexivity.
Defined.

(** Witness of C9: a descriptor with one numeric target. *)
Lemma mixed_prediction_fields_witness :
  let model := with_Targets NewMixedModel (Some {[ "price" := VString "numeric" ]}) in
  let weights :=
    {| Values := Some (<[ "x->price" := VFloat64 2 ]> {[ "bias->price" := VFloat64 1 ]}) |} in
  let input : gmap string value := {[ "x" := VFloat64 3 ]} in
  field_source model
    (predictLinearModel canonical_range input weights).1
    (predictCategoricalModel canonical_range words_Sscanf_f words_Sscanf_d
       input weights model).1
    (predictLogisticModel canonical_range input weights).1
    "price" (VFloat64 (0 + 2 * 3 + 1)).
Proof.
  intros model weights input.
  eapply (mixed_prediction_fields canonical_range words_Sscanf_f words_Sscanf_d
            input weights model).
  - intros A m. reflexivity.
  - vm_compute. reflexivity.
  - vm_compute. reflexivity.
Defined.

(** Witness of C7: the descriptor knows the label "red" of "color". *)
Lemma probs_sum_to_one_witness :
  (Rabs (map_sum {[ "red" := 1%R ]} - 1) <= 0.000001)%R ∧
  ∀ c p, ({[ "red" := 1%R ]} : gmap string R) !! c = Some p → (0 <= p <= 1)%R.
Proof.
  apply (probs_sum_to_one canonical_range words_Sscanf_f words_Sscanf_d
           {[ "x" := VFloat64 1 ]} {| Values := Some ∅ |}
           (with_Categories NewCategoricalModel
              (Some {[ "color" := {[ "red" := 0%Z ]} ]}))
           "color_probs").
  - intros A m. reflexivity.
  - rewrite (predictCategoricalModel_single canonical_range words_Sscanf_f
               words_Sscanf_d {[ "x" := VFloat64 1 ]} {| Values := Some ∅ |}
               (with_Categories NewCategoricalModel
                  (Some {[ "color" := {[ "red" := 0%Z ]} ]}))
               "color" "red" 0%Z canonical_range_perm eq_refl).
    vm_compute. reflexivity.
Defined.

(** C10, as stated, fails.  (1) The descriptor already knows the label
    "blue" of the target "color"; training on outputs that all read "red"
    then counts two labels and writes weights and biases for the target.
    (2) The single label is the empty text: the training call succeeds and
    writes no weight, and the prediction that follows holds no field for
    the target. *)
Lemma single_label_counterexample :
  match
    trainCategoricalModel canonical_range words_Sprintf_float
      [ {[ "x" := VFloat64 1 ]} ] [ {[ "color" := VString "red" ]} ]
      {| Values := Some ∅ |}
      (Some {| LearningRate := 0.01; Epochs := 1; BatchSize := 32;
               Regularize := 0.0001; Tolerance := 0.0001 |})
      (with_Categories NewCategoricalModel (Some {[ "color" := {[ "blue" := 0%Z ]} ]}))
  with
  | Returns r =>
      is_Some (Get r.1.1 "x->color:red") ∧ is_Some (Get r.1.1 "bias->color:red")
  | _ => False
  end ∧
  trainCategoricalModel canonical_range words_Sprintf_float
    [ {[ "x" := VFloat64 1 ]} ] [ {[ "t" := VString "" ]} ]
    {| Values := Some ∅ |} (Some DefaultConfig) NewCategoricalModel
    = Returns ({| Values := Some ∅ |},
               with_Categories NewCategoricalModel (Some {[ "t" := {[ "" := 0%Z ]} ]}),
               None) ∧
  (predictCategoricalModel canonical_range words_Sscanf_f words_Sscanf_d
     {[ "x" := VFloat64 1 ]} {| Values := Some ∅ |}
     (with_Categories NewCategoricalModel (Some {[ "t" := {[ "" := 0%Z ]} ]}))).1
    !! "t" = None.
Proof.
  split; [|split].
  - vm_compute. split; eauto.
  - vm_compute. reflexivity.
  - by rewrite (predictCategoricalModel_single canonical_range words_Sscanf_f
                  words_Sscanf_d {[ "x" := VFloat64 1 ]} {| Values := Some ∅ |}
                  (with_Categories NewCategoricalModel
                     (Some {[ "t" := {[ "" := 0%Z ]} ]}))
                  "t" "" 0%Z canonical_range_perm eq_refl).
Qed.

(** Witness of C10 (amended): one sample, target "color", label "red";
    the prediction for the record x = 5.0 with an empty weight store. *)
Lemma single_label_target_witness :
  let trained :=
    with_Categories NewCategoricalModel (Some {[ "color" := {[ "red" := 0%Z ]} ]}) in
  (predictCategoricalModel canonical_range words_Sscanf_f words_Sscanf_d
     {[ "x" := VFloat64 5 ]} {| Values := Some ∅ |} trained).1 !! "color"
    = Some (VString "red") ∧
  (predictCategoricalModel canonical_range words_Sscanf_f words_Sscanf_d
     {[ "x" := VFloat64 5 ]} {| Values := Some ∅ |} trained).1 !! "color_probs"
    = Some (VProbs {[ "red" := 1%R ]}).
Proof.
  intros trained.
  refine (proj2 (proj2
    (single_label_target canonical_range words_Sprintf_float words_Sscanf_f
       words_Sscanf_d
       [ {[ "x" := VFloat64 1 ]} ] [ {[ "color" := VString "red" ]} ]
       {| Values := Some ∅ |} (Some DefaultConfig) NewCategoricalModel
       ({| Values := Some ∅ |}, trained, None)
       "color" "red" {[ "color" := VString "red" ]} _ _ _ _ _ _ _ _ _))
    {[ "x" := VFloat64 5 ]} {| Values := Some ∅ |}).
  - intros A m. reflexivity.
  - vm_compute. reflexivity.
  - done.
  - reflexivity.
  - rewrite lookup_singleton_eq. eauto.
  - reflexivity.
  - intros out v Hin Hv. apply list_elem_of_singleton in Hin as ->.
    rewrite lookup_singleton_eq in Hv. by injection Hv as <-.
  - done.
  - intros t [c Hc] Hne. cbn in Hc.
    apply lookup_singleton_Some in Hc as [<- _]. done.
Defined.


(** * Examples for the further properties *)

(** Example of X1: a first weight is written to the empty store. *)
Lemma Set_then_Get_witness :
  ∃ w', Set_ {| Values := Some ∅ |} "x->y" (VFloat64 2) = Returns w' ∧ live w' ∧
        Get w' "x->y" = Some (VFloat64 2) ∧
        (∀ x, VFloat64 2 = VFloat64 x → GetFloat w' "x->y" = (x, true)) ∧
        ∀ k, k ≠ "x->y" →
             Get w' k = Get {| Values := Some ∅ |} k ∧
             GetFloat w' k = GetFloat {| Values := Some ∅ |} k.
Proof.
  apply (Set_then_Get {| Values := Some ∅ |} "x->y" (VFloat64 2)).
  unfold live. simpl. eauto.
Defined.

(** Example of X3: the bias key of a target named with an arrow. *)
Lemma splitWeightKey_weightKey_witness :
  splitWeightKey (biasKey "a->b") = ["bias"; "a->b"].
Proof.
  apply (splitWeightKey_weightKey "bias" "a->b").
  apply split_arrow_None. reflexivity.
Defined.

(** Example of X5: a store with the keys "x->y" and "bias->y" names the
    target "y" only. *)
Lemma predictLinearModel_fields_witness :
  let weights :=
    {| Values := Some (<[ "x->y" := VFloat64 2 ]> {[ "bias->y" := VFloat64 1 ]}) |} in
  let input : gmap string value := {[ "x" := VFloat64 3 ]} in
  (predictLinearModel canonical_range input weights).1 !! "z" = None.
Proof.
  intros weights input.
  destruct ((predictLinearModel canonical_range input weights).1 !! "z")
    as [v|] eqn:E; [|done].
  apply (predictLinearModel_fields canonical_range input weights "z" v
           canonical_range_perm) in E as [(key & [w Hw] & Hkey) _].
  unfold Get, weights in Hw. cbn in Hw.
  apply lookup_insert_Some in Hw as [[<- _]|[_ Hw]]; [done|].
  apply lookup_singleton_Some in Hw as [<- _]. done.
Defined.

(** Example of X6: a [bool] field with a weight of its own. *)
Lemma prediction_ignores_field_witness :
  let weights :=
    {| Values := Some (<[ "flag->y" := VFloat64 2 ]> {[ "x->y" := VFloat64 1 ]}) |} in
  let input : gmap string value := {[ "x" := VFloat64 3 ]} in
  predictLinearModel canonical_range (<[ "flag" := VBool true ]> input) weights
  = predictLinearModel canonical_range input weights.
Proof.
  intros weights input.
  apply (prediction_ignores_field canonical_range input weights "flag" (VBool true)).
  - exact canonical_range_perm.
  - reflexivity.
  - intros t. by right.
Defined.


(** Example of X9: one boolean target with a weight and a bias. *)
Lemma mixed_boolean_threshold_witness :
  let model := with_Targets NewMixedModel (Some {[ "ok" := VString "boolean" ]}) in
  let weights :=
    {| Values := Some (<[ "x->ok" := VFloat64 2 ]> {[ "bias->ok" := VFloat64 1 ]}) |} in
  let input : gmap string value := {[ "x" := VFloat64 3 ]} in
  ∃ result b,
    predictMixedModel canonical_range words_Sscanf_f words_Sscanf_d
      input weights model = (Some result, None) ∧
    result !! "ok" = Some (VBool b) ∧
    (b = true ↔ (0 <= input_combination canonical_range weights "ok" input)%R).
Proof.
  intros model weights input.
  apply (mixed_boolean_threshold canonical_range words_Sscanf_f words_Sscanf_d
           input weights model "ok").
  - exact canonical_range_perm.
  - reflexivity.
  - exists "bias->ok". split; [|reflexivity]. unfold Get. cbn. eauto.
Defined.


(** Example of X12: the linear trainer on two examples, from a store that
    already holds a key of its own. *)
Lemma descent_training_writes_witness :
  let inputs : list (gmap string value) :=
    [ {[ "x" := VFloat64 1 ]}; {[ "x" := VFloat64 2 ]} ] in
  let outputs : list (gmap string value) :=
    [ {[ "y" := VFloat64 2 ]}; {[ "y" := VFloat64 4 ]} ] in
  let start := {| Values := Some {[ "note" := VString "kept" ]} |} in
  ∃ r, Model_Train canonical_range words_Sprintf_float NewLinearModel
         inputs outputs start (Some DefaultConfig) = Returns r ∧
       r.2 = None ∧ is_Some (Get r.1.1 "x->y") ∧ is_Some (Get r.1.1 "bias->y") ∧
       Get r.1.1 "note" = Some (VString "kept").
Proof.
  intros inputs outputs start.
  destruct (Model_Train_returns canonical_range words_Sprintf_float
              NewLinearModel DefaultConfig inputs outputs start)
    as (r & Hr & _).
  - by left.
  - simpl. lia.
  - unfold live. simpl. eauto.
  - done.
  - simpl. lia.
  - exists r. split; [exact Hr|].
    destruct (descent_training_writes canonical_range words_Sprintf_float
                NewLinearModel inputs outputs start (Some DefaultConfig) r
                {[ "x" := VFloat64 1 ]} {[ "y" := VFloat64 2 ]}
                canonical_range_perm (or_introl eq_refl) Hr eq_refl eq_refl)
      as (Herr & _ & Hweights & Hbias & Hframe).
    split; [done|]. split; [|split].
    + apply (Hweights "x" "y"); by rewrite lookup_singleton_eq.
    + apply (Hbias "y"). by rewrite lookup_singleton_eq.
    + rewrite Hframe; [done | |].
      * intros f t [v Hf] [v' Ht].
        apply lookup_singleton_Some in Hf as [<- _].
        apply lookup_singleton_Some in Ht as [<- _]. done.
      * intros t [v' Ht]. apply lookup_singleton_Some in Ht as [<- _]. done.
Defined.

(** Example of X13: the fresh engine has no descriptor. *)
Lemma Train_errors_witness :
  (ErrModelNotInitialized = ErrModelNotInitialized ∧ model New = None ∧ New = New) ∨
  (ErrModelNotInitialized = ErrSampleCountMismatch 0 0 ∧ 0%nat ≠ 0%nat ∧ New = New) ∨
  (ErrModelNotInitialized = ErrNoTrainingData ∧
   ([] : list (gmap string value)) = [] ∧ ([] : list (gmap string value)) = [] ∧
   New = New) ∨
  (ErrModelNotInitialized = ErrUnsupportedModelType ∧
   ∃ m, model New = Some m ∧ ¬ supported (Type_ m)).
Proof.
  apply (Train_errors canonical_range words_Sprintf_float New New [] []
           ErrModelNotInitialized).
  reflexivity.
Defined.

(** Example of X15: a linear engine with the default configuration and no
    weight store yet. *)
Lemma Train_succeeds_witness :
  let inputs : list (gmap string value) :=
    [ {[ "x" := VFloat64 1 ]}; {[ "x" := VFloat64 2 ]} ] in
  let outputs : list (gmap string value) :=
    [ {[ "y" := VFloat64 2 ]}; {[ "y" := VFloat64 4 ]} ] in
  let e := {| model := Some NewLinearModel; weights := None;
              config := Some DefaultConfig |} in
  ∃ e' m' w',
    Train canonical_range words_Sprintf_float e inputs outputs = Returns (e', None) ∧
    model e' = Some m' ∧ Type_ m' = "linear" ∧
    (Type_ m' = "mixed" → is_Some (Targets m')) ∧
    weights e' = Some w' ∧ live w' ∧ config e' = Some DefaultConfig.
Proof.
  intros inputs outputs e.
  apply (Train_succeeds canonical_range words_Sprintf_float e NewLinearModel
           DefaultConfig inputs outputs).
  - reflexivity.
  - by left.
  - reflexivity.
  - simpl. lia.
  - done.
  - done.
  - reflexivity.
  - done.
Defined.

(** Example of X16: the configuration of the engine is removed before
    training. *)
Lemma Train_panics_witness :
  Train canonical_range words_Sprintf_float
    (WithConfig {| model := Some NewLinearModel; weights := None;
                   config := Some DefaultConfig |} None)
    [ {[ "x" := VFloat64 1 ]} ] [ {[ "y" := VFloat64 2 ]} ]
  = Panics.
Proof.
  apply (Train_panics canonical_range words_Sprintf_float
           (WithConfig {| model := Some NewLinearModel; weights := None;
                          config := Some DefaultConfig |} None)
           NewLinearModel [ {[ "x" := VFloat64 1 ]} ] [ {[ "y" := VFloat64 2 ]} ]
           {[ "y" := VFloat64 2 ]}).
  - exact canonical_range_perm.
  - reflexivity.
  - by left.
  - reflexivity.
  - reflexivity.
  - left. split; [reflexivity | done].
Defined.

(** Example of X17: a linear engine trained on two examples. *)
Lemma Train_then_Predict_witness :
  let inputs : list (gmap string value) :=
    [ {[ "x" := VFloat64 1 ]}; {[ "x" := VFloat64 2 ]} ] in
  let outputs : list (gmap string value) :=
    [ {[ "y" := VFloat64 2 ]}; {[ "y" := VFloat64 4 ]} ] in
  let e := {| model := Some NewLinearModel; weights := None;
              config := Some DefaultConfig |} in
  ∃ e' result,
    Train canonical_range words_Sprintf_float e inputs outputs = Returns (e', None) ∧
    Predict canonical_range words_Sscanf_f words_Sscanf_d e' {[ "x" := VFloat64 3 ]}
    = (Some result, None) ∧
    ∀ t, (∃ x, result !! t = Some (VFloat64 x)) ↔
         is_Some (({[ "y" := VFloat64 2 ]} : gmap string value) !! t).
Proof.
  intros inputs outputs e.
  destruct (Train_returns canonical_range words_Sprintf_float e NewLinearModel
              DefaultConfig inputs outputs) as [[e' err] He'];
    [done | done | simpl; lia | done | done |].
  destruct (Train_result canonical_range words_Sprintf_float e NewLinearModel
              inputs outputs (e', err) eq_refl eq_refl ltac:(done) He')
    as (_ & _ & _ & _ & _ & _ & Hnone & _).
  simpl in Hnone. rewrite Hnone in He' by (by left).
  exists e'.
  destruct (Train_then_Predict canonical_range words_Sprintf_float words_Sscanf_f
              words_Sscanf_d e e' NewLinearModel inputs outputs
              {[ "x" := VFloat64 1 ]} {[ "y" := VFloat64 2 ]} {[ "x" := VFloat64 3 ]}
              canonical_range_perm eq_refl (or_introl eq_refl) eq_refl He'
              eq_refl eq_refl) as (result & Hp & Hfields).
  - intros f [v Hf]. apply lookup_singleton_Some in Hf as [<- _].
    apply (split_arrow_None "x"). reflexivity.
  - exists result. done.
Defined.

(** Example of X18: two categories with the scores 0 and 1. *)
Lemma softmax_formula_witness :
  let scores : gmap string R := <[ "red" := 0%R ]> {[ "blue" := 1%R ]} in
  softmax canonical_range scores
  = (λ s, exp s / map_sum (exp <$> scores))%R <$> scores.
Proof.
  intros scores.
  apply (softmax_formula canonical_range scores canonical_range_perm).
Defined.

(** Example of X19: a descriptor that knows one label of one target. *)
Lemma predicted_label_most_probable_witness :
  most_probable words_Sscanf_f words_Sscanf_d (VString "red") {[ "red" := 1%R ]}.
Proof.
  apply (predicted_label_most_probable canonical_range words_Sscanf_f words_Sscanf_d
           {[ "x" := VFloat64 1 ]} {| Values := Some ∅ |}
           (with_Categories NewCategoricalModel
              (Some {[ "color" := {[ "red" := 0%Z ]} ]}))
           "color" (VString "red") {[ "red" := 1%R ]}).
  - exact canonical_range_perm.
  - rewrite (predictCategoricalModel_single canonical_range words_Sscanf_f
               words_Sscanf_d {[ "x" := VFloat64 1 ]} {| Values := Some ∅ |}
               (with_Categories NewCategoricalModel
                  (Some {[ "color" := {[ "red" := 0%Z ]} ]}))
               "color" "red" 0%Z canonical_range_perm eq_refl).
    vm_compute. reflexivity.
  - done.
  - rewrite (predictCategoricalModel_single canonical_range words_Sscanf_f
               words_Sscanf_d {[ "x" := VFloat64 1 ]} {| Values := Some ∅ |}
               (with_Categories NewCategoricalModel
                  (Some {[ "color" := {[ "red" := 0%Z ]} ]}))
               "color" "red" 0%Z canonical_range_perm eq_refl).
    vm_compute. reflexivity.
Defined.

(** Example of X20: two examples with two labels of a new target. *)
Lemma fresh_category_table_witness :
  let inputs : list (gmap string value) :=
    [ {[ "x" := VFloat64 1 ]}; {[ "x" := VFloat64 2 ]} ] in
  let outputs : list (gmap string value) :=
    [ {[ "color" := VString "red" ]}; {[ "color" := VString "blue" ]} ] in
  ∃ r table,
    trainCategoricalModel canonical_range words_Sprintf_float inputs outputs
      {| Values := Some ∅ |} (Some DefaultConfig) NewCategoricalModel = Returns r ∧
    default ∅ (Categories r.1.2) !! "color" = Some table ∧
    (∀ label, is_Some (table !! label)
              ↔ label_of words_Sprintf_float "color" outputs label) ∧
    numbered table.
Proof.
  intros inputs outputs.
  destruct (trainCategoricalModel_returns canonical_range words_Sprintf_float
              inputs outputs {| Values := Some ∅ |} DefaultConfig
              NewCategoricalModel) as (r & Hr & _).
  - simpl. lia.
  - unfold live. simpl. eauto.
  - destruct (fresh_category_table canonical_range words_Sprintf_float
                inputs outputs {| Values := Some ∅ |} (Some DefaultConfig)
                NewCategoricalModel r {[ "color" := VString "red" ]} "color"
                canonical_range_perm Hr ltac:(done) eq_refl)
      as (table & Htable & Hlabels & Hnum).
    + rewrite lookup_singleton_eq. eauto.
    + reflexivity.
    + exists r, table. exact (conj Hr (conj Htable (conj Hlabels Hnum))).
Defined.


(** Example of X22: a price given as an [int64]. *)
Lemma linear_selected_iff_witness :
  NewAutoModel canonical_range {[ "price" := VInt64 250000 ]} = NewLogisticModel.
Proof.
  apply (proj2 (linear_selected_iff canonical_range {[ "price" := VInt64 250000 ]}
                  canonical_range_perm)).
  - exists "price", (VInt64 250000). split; [apply lookup_singleton_eq | done].
  - intros (k & s & H). apply lookup_singleton_Some in H as [_ H]. discriminate.
  - intros (k & b & H). apply lookup_singleton_Some in H as [_ H]. discriminate.
  - intros k v H. apply lookup_singleton_Some in H as [_ <-].
    intros [(n & H & _)|(x & H & _)]; discriminate.
Defined.

(** Example of X23: one example with the label "red"; the prediction for
    another input with an empty weight store. *)
Lemma categorical_predicts_training_label_witness :
  is_Some (({[ "color" := VString "red" ]} : gmap string value) !! "color") ∧
  ∃ label,
    label_of words_Sprintf_float "color" [ {[ "color" := VString "red" ]} ] label ∧
    label ≠ "" ∧
    VString "red" = restore_label words_Sscanf_f words_Sscanf_d label.
Proof.
  apply (categorical_predicts_training_label canonical_range words_Sprintf_float
           words_Sscanf_f words_Sscanf_d
           [ {[ "x" := VFloat64 1 ]} ] [ {[ "color" := VString "red" ]} ]
           {| Values := Some ∅ |} (Some DefaultConfig) NewCategoricalModel
           ({| Values := Some ∅ |},
            with_Categories NewCategoricalModel
              (Some {[ "color" := {[ "red" := 0%Z ]} ]}), None)
           {[ "color" := VString "red" ]} {[ "x" := VFloat64 5 ]}
           {| Values := Some ∅ |} "color" (VString "red")).
  - exact canonical_range_perm.
  - vm_compute. reflexivity.
  - done.
  - reflexivity.
  - reflexivity.
  - cbn [fst snd].
    rewrite (predictCategoricalModel_single canonical_range words_Sscanf_f
               words_Sscanf_d {[ "x" := VFloat64 5 ]} {| Values := Some ∅ |}
               (with_Categories NewCategoricalModel
                  (Some {[ "color" := {[ "red" := 0%Z ]} ]}))
               "color" "red" 0%Z canonical_range_perm eq_refl).
    vm_compute. reflexivity.
  - done.
Defined.

(** Example of X24: a configuration whose [Epochs] field is left at zero. *)
Lemma zero_epochs_only_initialise_witness :
  let cfg := {| LearningRate := 0.1; Epochs := 0; BatchSize := 32;
                Regularize := 0; Tolerance := 0 |} in
  let inputs : list (gmap string value) := [ {[ "x" := VFloat64 1 ]} ] in
  let outputs : list (gmap string value) := [ {[ "y" := VFloat64 2 ]} ] in
  let start := {| Values := Some {[ "x->y" := VString "kept" ]} |} in
  ∃ r, Model_Train canonical_range words_Sprintf_float NewLinearModel
         inputs outputs start (Some cfg) = Returns r ∧
       Get r.1.1 "x->y" = Some (VString "kept") ∧
       Get r.1.1 "bias->y" = Some (VFloat64 0).
Proof.
  intros cfg inputs outputs start.
  destruct (Model_Train_returns canonical_range words_Sprintf_float
              NewLinearModel cfg inputs outputs start) as (r & Hr & _).
  - by left.
  - simpl. lia.
  - unfold live. simpl. eauto.
  - done.
  - simpl. lia.
  - exists r. split; [exact Hr|].
    destruct (zero_epochs_only_initialise canonical_range words_Sprintf_float
                NewLinearModel inputs outputs start cfg r
                {[ "x" := VFloat64 1 ]} {[ "y" := VFloat64 2 ]}
                canonical_range_perm (or_introl eq_refl) ltac:(simpl; lia)
                Hr eq_refl eq_refl) as (_ & Hkeep & _ & Hbias & _).
    split.
    + apply Hkeep. reflexivity.
    + apply (Hbias "y"); [by rewrite lookup_singleton_eq | reflexivity].
Defined.

(** Example of X25: a configuration whose [BatchSize] field is left at
    zero. *)
Lemma Train_zero_batch_size_witness :
  Train canonical_range words_Sprintf_float
    {| model := Some NewLinearModel; weights := None;
       config := Some {| LearningRate := 0.1; Epochs := 10; BatchSize := 0;
                         Regularize := 0; Tolerance := 0 |} |}
    [ {[ "x" := VFloat64 1 ]} ] [ {[ "y" := VFloat64 2 ]} ]
  = Diverges.
Proof.
  apply (Train_zero_batch_size canonical_range words_Sprintf_float
           {| model := Some NewLinearModel; weights := None;
              config := Some {| LearningRate := 0.1; Epochs := 10; BatchSize := 0;
                                Regularize := 0; Tolerance := 0 |} |}
           NewLinearModel
           {| LearningRate := 0.1; Epochs := 10; BatchSize := 0;
              Regularize := 0; Tolerance := 0 |}).
  - reflexivity.
  - by left.
  - reflexivity.
  - reflexivity.
  - simpl. lia.
  - done.
  - reflexivity.
  - done.
Defined.

(** Example of X26: a descriptor of the variant "unsupported". *)
Lemma Train_unsupported_witness :
  let m := {| Type_ := "unsupported"; Parameters := Some bias_marker;
              Features := None; Targets := None; Categories := None;
              FeatureCategories := None |} in
  let e := {| model := Some m; weights := None; config := Some DefaultConfig |} in
  ∃ e',
    Train canonical_range words_Sprintf_float e
      [ {[ "x" := VInt 1 ]}; {[ "x" := VInt 2 ]} ]
      [ {[ "y" := VInt 1 ]}; {[ "y" := VInt 2 ]} ]
    = Returns (e', Some ErrUnsupportedModelType) ∧
    model e' = Some m ∧ config e' = config e ∧
    weights e' = Some (default {| Values := Some ∅ |} (weights e)) ∧
    ∀ input,
      Predict canonical_range words_Sscanf_f words_Sscanf_d e' input
      = (None, Some ErrUnsupportedModelType).
Proof.
  intros m e.
  apply (Train_unsupported canonical_range words_Sprintf_float words_Sscanf_f
           words_Sscanf_d e m).
  - reflexivity.
  - intros [H|[H|[H|H]]]; discriminate.
  - reflexivity.
  - done.
Defined.

(** Example of X27: y = 2 x on two examples, with the weight 2 and the
    bias 0 in the store. *)
Lemma fitted_store_is_kept_witness :
  let cfg := {| LearningRate := 0.01; Epochs := 100; BatchSize := 32;
                Regularize := 0; Tolerance := 0.0001 |} in
  let inputs : list (gmap string value) :=
    [ {[ "x" := VFloat64 1 ]}; {[ "x" := VFloat64 2 ]} ] in
  let outputs : list (gmap string value) :=
    [ {[ "y" := VFloat64 2 ]}; {[ "y" := VFloat64 4 ]} ] in
  let start :=
    {| Values := Some (<[ "x->y" := VFloat64 2 ]> {[ "bias->y" := VFloat64 0 ]}) |} in
  ∃ r, trainLinearModel canonical_range inputs outputs start (Some cfg) = Returns r ∧
       reads_as start r.1 ∧
       ∀ t input, input_combination canonical_range r.1 t input
                  = input_combination canonical_range start t input.
Proof.
  intros cfg inputs outputs start.
  destruct (trainLinearModel_returns canonical_range inputs outputs start cfg)
    as (r & Hr & _).
  - simpl. lia.
  - simpl. lia.
  - unfold live. simpl. eauto.
  - exists r. split; [exact Hr|].
    apply (fitted_store_is_kept canonical_range inputs outputs start cfg r
             {[ "x" := VFloat64 1 ]} {[ "y" := VFloat64 2 ]} Hr eq_refl eq_refl
             eq_refl).
    intros i input output t a y Hi Ho Ht Ha Hy.
    unfold canonical_range in Ht.
    apply list_elem_of_fmap in Ht as ([k v] & -> & Hin).
    apply elem_of_map_to_list, lookup_singleton_Some in Hin as [<- <-].
    destruct i as [|[|i]]; [| |done].
    + injection Hi as <-. injection Ho as <-.
      rewrite lookup_singleton_eq in Ha. injection Ha as <-. injection Hy as <-.
      vm_compute. lra.
    + injection Hi as <-. injection Ho as <-.
      rewrite lookup_singleton_eq in Ha. injection Ha as <-. injection Hy as <-.
      vm_compute. lra.
Defined.

(** Example of X28: two labels of one target, and a store that holds a key
    of another form. *)
Lemma categorical_training_writes_witness :
  let inputs : list (gmap string value) :=
    [ {[ "x" := VFloat64 1 ]}; {[ "x" := VFloat64 2 ]} ] in
  let outputs : list (gmap string value) :=
    [ {[ "color" := VString "red" ]}; {[ "color" := VString "blue" ]} ] in
  let start := {| Values := Some {[ "note" := VString "kept" ]} |} in
  ∃ r,
    trainCategoricalModel canonical_range words_Sprintf_float inputs outputs
      start (Some DefaultConfig) NewCategoricalModel = Returns r ∧
    Get r.1.1 "note" = Some (VString "kept").
Proof.
  intros inputs outputs start.
  destruct (trainCategoricalModel_returns canonical_range words_Sprintf_float
              inputs outputs start DefaultConfig NewCategoricalModel)
    as (r & Hr & _).
  - simpl. lia.
  - unfold live. simpl. eauto.
  - exists r. split; [exact Hr|].
    destruct (categorical_training_writes canonical_range words_Sprintf_float
                inputs outputs start (Some DefaultConfig) NewCategoricalModel r
                {[ "x" := VFloat64 1 ]} {[ "color" := VString "red" ]}
                canonical_range_perm Hr eq_refl eq_refl) as (_ & Hframe & _).
    rewrite Hframe; [reflexivity|].
    assert (arrow_free "note") as Hfree by (by apply split_arrow_None).
    intros (t & c & _ & _ & [(f & _ & E)|E]).
    + by apply (Hfree f (categoryKey t c)).
    + by apply (Hfree "bias" (categoryKey t c)).
Defined.
